(** * Hunt: waitlist, job catalogue and discovery queue

    A shallow embedding of the SQL migrations
    ([supabase-migration.sql], [supabase-migration-hunt.sql],
    [supabase-migration-discovery.sql]) and of the front-end functions
    that go with them ([WaitlistForm.handleSubmit], and [isStageRunning],
    [getStageOperations] and the polling of the admin pipeline page),
    with the properties the specification states about them and
    further properties of the code. The intake of company
    candidates into the discovery queue is backend code outside these
    sources; it is modelled from the specification, on top of the
    table the migration declares.

    Conventions.
    - A nullable SQL column is an [option]; [None] is SQL NULL.
    - SQL conditions are three-valued: [option bool], [None] is UNKNOWN.
      A WHERE clause keeps a row when its condition is TRUE, a CHECK
      constraint rejects a row when its condition is FALSE.
    - [TIMESTAMPTZ] is a number of microseconds since the epoch ([Z]).
    - [UUID] is its 128-bit value ([N]).
    - A [FLOAT] column that is only stored and checked against bounds
      holds a rational ([Q]). Where a function computes with [FLOAT]
      values they are [float8]: a finite value, an infinity or NaN,
      compared as the server compares them. What the server and the C
      library compute in double precision (the cosine distance, POWER,
      division, the cast from numeric) is a parameter of the function
      that uses it.
    - A statement that raises leaves the table as it was and returns the
      SQLSTATE of the error. *)

From Stdlib Require Import ZArith QArith Lia String List Bool.
From stdpp Require Import base option list sorting gmap strings.

Open Scope Z_scope.

(** ** SQL preliminaries *)

Module Sql.

Definition uuid := N.
Definition timestamptz := Z.

(** SQLSTATE codes raised by the statements modelled below. *)
Inductive sqlstate :=
| not_null_violation          (* 23502 *)
| foreign_key_violation       (* 23503 *)
| unique_violation            (* 23505 *)
| check_violation             (* 23514 *)
| data_exception              (* 22000: vector dimension mismatch *)
| numeric_value_out_of_range  (* 22003 *)
| division_by_zero            (* 22012 *)
| invalid_row_count_in_limit_clause (* 2201W *)
| insufficient_privilege.     (* 42501: row-level security *)

Definition sqlstate_code (e : sqlstate) : string :=
  match e with
  | not_null_violation => "23502"
  | foreign_key_violation => "23503"
  | unique_violation => "23505"
  | check_violation => "23514"
  | data_exception => "22000"
  | numeric_value_out_of_range => "22003"
  | division_by_zero => "22012"
  | invalid_row_count_in_limit_clause => "2201W"
  | insufficient_privilege => "42501"
  end.

Inductive result (A : Type) :=
| Ok (a : A)
| Raise (e : sqlstate).
Arguments Ok {A} a.
Arguments Raise {A} e.

(** Steps are sequenced in the error monad: the first that raises
    ends the statement. *)
Definition and_then {A B} (m : result A) (k : A -> result B) : result B :=
  match m with
  | Ok a => k a
  | Raise e => Raise e
  end.

Notation "'let*' x ':=' m 'in' k" := (and_then m (fun x => k))
  (at level 10, x pattern, m at level 100, k at level 200).

(** Three-valued logic. *)
Definition tv := option bool.

Definition tv_and (a b : tv) : tv :=
  match a, b with
  | Some false, _ | _, Some false => Some false
  | Some true, Some true => Some true
  | _, _ => None
  end.

Definition tv_or (a b : tv) : tv :=
  match a, b with
  | Some true, _ | _, Some true => Some true
  | Some false, Some false => Some false
  | _, _ => None
  end.

(** WHERE keeps a row only when the condition is TRUE. *)
Definition is_true (c : tv) : bool :=
  match c with Some true => true | _ => false end.

(** CHECK rejects a row only when the condition is FALSE. *)
Definition check_passes (c : tv) : bool :=
  match c with Some false => false | _ => true end.

(** [x = y] on nullable operands. *)
Definition tv_eq {A} (eqb : A -> A -> bool) (x y : option A) : tv :=
  match x, y with
  | Some a, Some b => Some (eqb a b)
  | _, _ => None
  end.

(** [x IN (v1, ..., vn)]: the disjunction of the equalities. *)
Definition tv_in {A} (eqb : A -> A -> bool) (x : option A)
           (vs : list (option A)) : tv :=
  fold_right (fun v acc => tv_or (tv_eq eqb x v) acc) (Some false) vs.

(** [x >= y] on nullable integers and on nullable floats. *)
Definition tv_geZ (x y : option Z) : tv :=
  match x, y with
  | Some a, Some b => Some (b <=? a)
  | _, _ => None
  end.

Definition tv_geQ (x y : option Q) : tv :=
  match x, y with
  | Some a, Some b => Some (Qle_bool b a)
  | _, _ => None
  end.

Definition tv_leQ (x y : option Q) : tv := tv_geQ y x.

(** [INTEGER] is 32-bit; arithmetic out of its range raises. *)
Definition int4_min : Z := -2147483648.
Definition int4_max : Z := 2147483647.
Definition in_int4 (z : Z) : bool := (int4_min <=? z) && (z <=? int4_max).

(** [x + y] on nullable [INTEGER]s. *)
Definition int4_add (x y : option Z) : result (option Z) :=
  match x, y with
  | Some a, Some b =>
      if in_int4 (a + b) then Ok (Some (a + b))
      else Raise numeric_value_out_of_range
  | _, _ => Ok None
  end.

(** [ORDER BY]: a sort by the given order; which of two rows that the
    order does not tell apart comes first is left open by SQL, and is
    here whatever the merge sort makes of it. *)
Definition order_by {A} (R : relation A) `{!RelDecision R} (l : list A) : list A :=
  merge_sort R l.

(** [LIMIT n]. The count is evaluated before the first row is asked
    for: NULL is no limit, a negative count raises. *)
Definition row_count (n : option Z) : result (option nat) :=
  match n with
  | None => Ok None
  | Some k =>
      if k <? 0 then Raise invalid_row_count_in_limit_clause
      else Ok (Some (Z.to_nat k))
  end.

Definition take_rows {A} (count : option nat) (l : list A) : list A :=
  match count with
  | None => l
  | Some k => take k l
  end.

(** Statements applied to every row of a table stop at the first row
    that raises. *)
Fixpoint for_each {A B} (f : A -> result B) (l : list A) : result (list B) :=
  match l with
  | [] => Ok []
  | x :: rest =>
      let* y := f x in
      let* ys := for_each f rest in
      Ok (y :: ys)
  end.

(** Ascending order of a nullable column, NULLs last (the default of
    [ORDER BY ... ASC]). *)
Definition asc_nulls_last (x y : option Z) : Prop :=
  match x, y with
  | Some a, Some b => a <= b
  | Some _, None => True
  | None, Some _ => False
  | None, None => True
  end.

#[export] Instance asc_nulls_last_dec : RelDecision asc_nulls_last.
Proof.
  intros [a|] [b|]; simpl; [apply Z_le_dec | left; exact I | right; tauto | left; exact I].
Defined.

(** [FLOAT], that is double precision: a finite value, held as the
    rational it stands for, an infinity, or NaN. *)
Inductive float8 :=
| Finite (q : Q)
| Infinity
| MinusInfinity
| NaN.

(** [x <= y] on [FLOAT]s. The server orders NaN above every other
    value, infinity included, and equal to itself, so that a
    comparison always has an answer. *)
Definition float8_le (x y : float8) : bool :=
  match x, y with
  | _, NaN => true
  | NaN, _ => false
  | MinusInfinity, _ => true
  | _, MinusInfinity => false
  | _, Infinity => true
  | Infinity, _ => false
  | Finite a, Finite b => Qle_bool a b
  end.

(** [x >= y] *)
Definition float8_ge (x y : float8) : bool := float8_le y x.

(** [x - y], for a finite [x]: NaN when [y] is. Between finite values
    the difference is taken exactly. *)
Definition float8_mi (x y : float8) : float8 :=
  match x, y with
  | NaN, _ | _, NaN => NaN
  | Finite a, Finite b => Finite (a - b)
  | Infinity, Infinity | MinusInfinity, MinusInfinity => NaN
  | Infinity, _ | _, MinusInfinity => Infinity
  | MinusInfinity, _ | _, Infinity => MinusInfinity
  end.

(** [x >= y] on nullable [FLOAT]s. *)
Definition tv_ge_float8 (x y : option float8) : tv :=
  match x, y with
  | Some a, Some b => Some (float8_ge a b)
  | _, _ => None
  end.

End Sql.

Export Sql.

(** ** The waitlist table and the sign-up form *)

Module Waitlist.

(** CREATE TABLE waitlist (
      id UUID DEFAULT gen_random_uuid() PRIMARY KEY,
      name TEXT NOT NULL,
      email TEXT UNIQUE NOT NULL,
      created_at TIMESTAMPTZ DEFAULT NOW()) *)
Record row := {
  id : uuid;
  name : string;
  email : string;
  created_at : option timestamptz;
}.

Abbreviation table := (list row).

Definition has_id (t : table) (i : uuid) : bool :=
  existsb (fun r => N.eqb (id r) i) t.

Definition has_email (t : table) (e : string) : bool :=
  existsb (fun r => String.eqb (email r) e) t.

(** INSERT INTO waitlist (name, email) VALUES (...) RETURNING id.
    [gen_id] is what [gen_random_uuid()] yields and [now] what [NOW()]
    yields for this statement.

    The table has row-level security enabled. Its policy "Allow
    anonymous inserts" lets every new row in (WITH CHECK (true)).
    RETURNING needs the new row to be readable by the role that issues
    the statement as well, and the migration has no policy for that.
    [can_read_back] says whether the role may read the row
    ([anon_can_read_back] for the client of the form); when it may
    not the statement raises before any constraint is looked at.

    NOT NULL is checked next, then the unique indexes (primary key,
    then email). *)
Definition insert (can_read_back : bool) (gen_id : uuid) (now : timestamptz)
           (new_name new_email : option string) (t : table)
  : result (table * row) :=
  if negb can_read_back then Raise insufficient_privilege
  else
    match new_name, new_email with
    | None, _ | _, None => Raise not_null_violation
    | Some n, Some e =>
        if has_id t gen_id then Raise unique_violation
        else if has_email t e then Raise unique_violation
        else
          let r := {| id := gen_id; name := n; email := e; created_at := Some now |} in
          Ok (t ++ [r], r)
    end.

(** The client of [lib/supabase.ts] is created with the anon key, and
    [supabase-migration.sql] gives that role the policy for INSERT and
    none for SELECT: the role may not read the row it inserts. *)
Definition anon_can_read_back : bool := false.

(** The state of the table after the statement. *)
Definition table_after (t : table) (res : result (table * row)) : table :=
  match res with
  | Ok (t', _) => t'
  | Raise _ => t
  end.

(** The two unique indexes of the table. *)
Definition keys_unique (t : table) : Prop :=
  NoDup (id <$> t) /\ NoDup (email <$> t).

(** Number of rows that carry a given email. *)
Definition count_email (t : table) (e : string) : nat :=
  length (filter (fun r => email r = e) t).

End Waitlist.

Module WaitlistForm.
Import Waitlist.

Definition msg_duplicate : string := "This email is already on the waitlist!".
Definition msg_generic : string := "Something went wrong. Please try again.".

(** What [await getSupabase().from('waitlist').insert(..).select('id').single()]
    resolves to: [{ data, error }], the error carrying the SQLSTATE
    in its [code]. *)
Record PostgrestError := { code : string }.
Record response := {
  data : option uuid;
  error : option PostgrestError;
}.

Definition respond (res : result (table * row)) : response :=
  match res with
  | Ok (_, r) => {| data := Some (id r); error := None |}
  | Raise e => {| data := None; error := Some {| code := sqlstate_code e |} |}
  end.

(** The component's state, and the calls made to the [onSuccess] prop. *)
Record form := {
  name_input : string;
  email_input : string;
  isLoading : bool;
  error_message : string;
  onSuccess_calls : list uuid;
}.

Definition setError (m : string) (f : form) : form :=
  {| name_input := name_input f; email_input := email_input f;
     isLoading := isLoading f; error_message := m;
     onSuccess_calls := onSuccess_calls f |}.

Definition setIsLoading (b : bool) (f : form) : form :=
  {| name_input := name_input f; email_input := email_input f;
     isLoading := b; error_message := error_message f;
     onSuccess_calls := onSuccess_calls f |}.

Definition onSuccess (i : uuid) (f : form) : form :=
  {| name_input := name_input f; email_input := email_input f;
     isLoading := isLoading f; error_message := error_message f;
     onSuccess_calls := onSuccess_calls f ++ [i] |}.

(** The body of the [try] block once the response is there. Reading
    [data.id] of a null [data] throws, which the [catch] turns into
    the generic message. *)
Definition after_response (resp : response) (f : form) : form :=
  match error resp with
  | Some insertError =>
      if String.eqb (code insertError) "23505"
      then setError msg_duplicate f
      else setError msg_generic f
  | None =>
      match data resp with
      | Some i => onSuccess i f
      | None => setError msg_generic f
      end
  end.

(** [handleSubmit]: the table and the form before, the table and the
    form after. The request is taken to reach the database and the
    response to come back. *)
Definition handleSubmit (can_read_back : bool) (gen_id : uuid) (now : timestamptz)
           (t : table) (f : form) : table * form :=
  let f1 := setIsLoading true (setError "" f) in
  let res := insert can_read_back gen_id now
                    (Some (name_input f1)) (Some (email_input f1)) t in
  let f2 := after_response (respond res) f1 in
  (table_after t res, setIsLoading false f2).

End WaitlistForm.

(** ** The vector extension *)

Module Pgvector.

(** A vector value: its components, in order. The extension stores
    finite single-precision numbers; they are idealised as rationals. *)
Abbreviation vector := (list Q).

Definition vector_dims (v : vector) : Z := Z.of_nat (length v).

(** A column of type [vector(n)]: storing a value of another dimension
    raises ("expected n dimensions, not m"); NULL is stored as it is. *)
Definition coerce_vector (n : Z) (v : option vector) : result (option vector) :=
  match v with
  | None => Ok None
  | Some x =>
      if vector_dims x =? n then Ok (Some x) else Raise data_exception
  end.

(** The dimension declared for both embedding columns. *)
Definition EMBEDDING_DIM : Z := 384.

End Pgvector.

(** ** The canonical jobs table *)

Module Jobs.
Import Pgvector.

(** CREATE TABLE jobs. Columns declared NOT NULL or PRIMARY KEY are not
    options: a statement that supplies NULL for one of them raises and
    stores nothing. *)
Record row := {
  id : uuid;
  company_id : option uuid;
  raw_job_id : option uuid;
  title : string;
  description : option string;
  source_url : string;
  role_family : string;
  role_specialization : option string;
  seniority : option string;
  location_type : option string;
  locations : option (list string);
  skills : option (list string);
  min_salary : option Z;
  max_salary : option Z;
  employment_type : option string;
  posted_at : option timestamptz;
  freshness_score : option Q;
  embedding : option vector;
  is_active : option bool;
  created_at : option timestamptz;
  updated_at : option timestamptz;
}.

Abbreviation table := (list row).

(** The CHECK constraints, as the three-valued conditions they are. *)
Definition role_family_values : list (option string) :=
  Some <$> ["software_engineering"; "infrastructure"; "data"; "product"; "design";
            "engineering_management"; "sales"; "marketing"; "operations"; "finance";
            "legal"; "people"; "customer_success"; "other"]%string.

Definition seniority_values : list (option string) :=
  (Some <$> ["intern"; "junior"; "mid"; "senior"; "staff"; "principal";
             "director"; "vp"; "c_level"]%string) ++ [None].

Definition location_type_values : list (option string) :=
  (Some <$> ["remote"; "hybrid"; "onsite"]%string) ++ [None].

Definition employment_type_values : list (option string) :=
  (Some <$> ["full_time"; "part_time"; "contract"; "freelance"; "internship"]%string)
    ++ [None].

Definition role_family_check (r : row) : tv :=
  tv_in String.eqb (Some (role_family r)) role_family_values.

Definition seniority_check (r : row) : tv :=
  tv_in String.eqb (seniority r) seniority_values.

Definition location_type_check (r : row) : tv :=
  tv_in String.eqb (location_type r) location_type_values.

Definition employment_type_check (r : row) : tv :=
  tv_in String.eqb (employment_type r) employment_type_values.

(** CHECK (freshness_score >= 0 AND freshness_score <= 1) *)
Definition freshness_score_check (r : row) : tv :=
  tv_and (tv_geQ (freshness_score r) (Some 0%Q))
         (tv_leQ (freshness_score r) (Some 1%Q)).

Definition checks_pass (r : row) : bool :=
  check_passes (role_family_check r)
  && check_passes (seniority_check r)
  && check_passes (location_type_check r)
  && check_passes (employment_type_check r)
  && check_passes (freshness_score_check r).

(** The two [INTEGER] columns hold 32-bit values. *)
Definition nullable_in_int4 (z : option Z) : bool :=
  match z with
  | None => true
  | Some v => in_int4 v
  end.

Definition integers_fit (r : row) : bool :=
  nullable_in_int4 (min_salary r) && nullable_in_int4 (max_salary r).

(** PRIMARY KEY (id) and UNIQUE (company_id, source_url). A unique
    constraint takes two rows to collide only when none of the
    compared columns is NULL. *)
Definition collides (new old : row) : bool :=
  N.eqb (id new) (id old)
  || is_true (tv_and (tv_eq N.eqb (company_id new) (company_id old))
                     (Some (String.eqb (source_url new) (source_url old)))).

(** REFERENCES: a NULL key refers to nothing and passes. *)
Definition references (ids : list uuid) (key : option uuid) : bool :=
  match key with
  | None => true
  | Some i => bool_decide (i ∈ ids)
  end.

(** What a row has to pass before it is stored, next to the rows
    [others] it must not collide with. [companies] and [raw_jobs] are
    the ids present in the two referenced tables. *)
Definition check_row (companies raw_jobs : list uuid) (others : table) (new : row)
  : result row :=
  let* _ := coerce_vector EMBEDDING_DIM (embedding new) in
  if negb (integers_fit new) then Raise numeric_value_out_of_range
  else if negb (checks_pass new) then Raise check_violation
  else if existsb (collides new) others then Raise unique_violation
  else if negb (references companies (company_id new)
                && references raw_jobs (raw_job_id new))
       then Raise foreign_key_violation
  else Ok new.

(** INSERT INTO jobs VALUES (new), defaults already filled in. *)
Definition insert (companies raw_jobs : list uuid) (new : row) (t : table)
  : result table :=
  let* r := check_row companies raw_jobs t new in
  Ok (t ++ [r]).

(** The trigger function [update_updated_at_column]:
    NEW.updated_at = NOW(); RETURN NEW. *)
Definition update_updated_at_column (now : timestamptz) (NEW : row) : row :=
  {| id := id NEW; company_id := company_id NEW; raw_job_id := raw_job_id NEW;
     title := title NEW; description := description NEW; source_url := source_url NEW;
     role_family := role_family NEW; role_specialization := role_specialization NEW;
     seniority := seniority NEW; location_type := location_type NEW;
     locations := locations NEW; skills := skills NEW;
     min_salary := min_salary NEW; max_salary := max_salary NEW;
     employment_type := employment_type NEW; posted_at := posted_at NEW;
     freshness_score := freshness_score NEW; embedding := embedding NEW;
     is_active := is_active NEW; created_at := created_at NEW;
     updated_at := Some now |}.

(** UPDATE jobs SET (every column) = new WHERE id = i. The BEFORE UPDATE
    trigger runs on the new row before it is checked and stored. *)
Definition update (now : timestamptz) (companies raw_jobs : list uuid)
           (i : uuid) (new : row) (t : table) : result table :=
  match list_find (fun r => id r = i) t with
  | None => Ok t
  | Some (k, _) =>
      let* r := check_row companies raw_jobs (delete k t) (update_updated_at_column now new) in
      Ok (<[k := r]> t)
  end.

(** DELETE FROM jobs WHERE id = i. *)
Definition delete_job (i : uuid) (t : table) : table :=
  filter (fun r => id r ≠ i) t.

(** company_id ... ON DELETE CASCADE: what deleting company [c] does here. *)
Definition on_company_deleted (c : uuid) (t : table) : table :=
  filter (fun r => company_id r ≠ Some c) t.

(** raw_job_id ... ON DELETE SET NULL: what deleting raw job [x] does
    here; being an update, it fires the trigger. *)
Definition clear_raw_job (now : timestamptz) (r : row) : row :=
  update_updated_at_column now
    {| id := id r; company_id := company_id r; raw_job_id := None;
       title := title r; description := description r; source_url := source_url r;
       role_family := role_family r; role_specialization := role_specialization r;
       seniority := seniority r; location_type := location_type r;
       locations := locations r; skills := skills r;
       min_salary := min_salary r; max_salary := max_salary r;
       employment_type := employment_type r; posted_at := posted_at r;
       freshness_score := freshness_score r; embedding := embedding r;
       is_active := is_active r; created_at := created_at r;
       updated_at := updated_at r |}.

Definition on_raw_job_deleted (now : timestamptz) (x : uuid) (t : table) : table :=
  (fun r => if decide (raw_job_id r = Some x) then clear_raw_job now r else r) <$> t.

(** The states of the table: what the statements above make of the
    empty table, when every row written by an insert or an update is one
    of [W]. With [W] true of every row these are all the states the
    schema admits. *)
Inductive reachable_with (W : row -> Prop) : table -> Prop :=
| reach_empty : reachable_with W []
| reach_insert t companies raw_jobs new t' :
    reachable_with W t -> W new ->
    insert companies raw_jobs new t = Ok t' -> reachable_with W t'
| reach_update t now companies raw_jobs i new t' :
    reachable_with W t -> W new ->
    update now companies raw_jobs i new t = Ok t' -> reachable_with W t'
| reach_delete t i :
    reachable_with W t -> reachable_with W (delete_job i t)
| reach_company_deleted t c :
    reachable_with W t -> reachable_with W (on_company_deleted c t)
| reach_raw_job_deleted t now x :
    reachable_with W t -> reachable_with W (on_raw_job_deleted now x t).

Definition reachable : table -> Prop := reachable_with (fun _ => True).

(** The salary order the specification asks for. *)
Definition salary_ordered (r : row) : Prop :=
  match min_salary r, max_salary r with
  | Some lo, Some hi => lo <= hi
  | _, _ => True
  end.

(** An embedding, when there is one, has the declared dimension. *)
Definition embedding_has_dim (n : Z) (e : option vector) : Prop :=
  match e with
  | Some v => vector_dims v = n
  | None => True
  end.

End Jobs.

(** ** The companies table and [seed_company] *)

Module Companies.

(** CREATE TABLE companies, with the columns the later migrations add
    (discovery: website_url ... funding_stage; maintenance:
    last_maintenance_at; pipeline runs: crawl_attempts). *)
Record row := {
  id : uuid;
  name : string;
  domain : option string;
  careers_url : option string;
  ats_type : option string;
  ats_identifier : option string;
  crawl_priority : option Z;
  last_crawled_at : option timestamptz;
  is_active : option bool;
  created_at : option timestamptz;
  website_url : option string;
  discovery_source : option string;
  discovered_at : option timestamptz;
  country : option string;
  location : option string;
  description : option string;
  industry : option string;
  employee_count : option Z;
  funding_stage : option string;
  last_maintenance_at : option timestamptz;
  crawl_attempts : option Z;
}.

Abbreviation table := (list row).

(** CHECK (ats_type IN ('greenhouse', 'lever', 'ashby', 'workday',
    'custom', NULL)) *)
Definition ats_type_values : list (option string) :=
  (Some <$> ["greenhouse"; "lever"; "ashby"; "workday"; "custom"]%string) ++ [None].

Definition ats_type_check (r : row) : tv :=
  tv_in String.eqb (ats_type r) ats_type_values.

(** CHECK (crawl_priority >= 0 AND crawl_priority <= 100) *)
Definition crawl_priority_check (r : row) : tv :=
  tv_and (tv_geZ (crawl_priority r) (Some 0)) (tv_geZ (Some 100) (crawl_priority r)).

(** CHECK (country IS NULL OR length(country) = 2) *)
Definition country_check (r : row) : tv :=
  match country r with
  | None => Some true
  | Some c => Some (Nat.eqb (String.length c) 2)
  end.

Definition checks_pass (r : row) : bool :=
  check_passes (ats_type_check r)
  && check_passes (crawl_priority_check r)
  && check_passes (country_check r).

(** PRIMARY KEY (id) and UNIQUE (domain), the latter among the rows
    whose domain is not NULL. *)
Definition keys_unique (t : table) : Prop :=
  NoDup (id <$> t) /\ NoDup (omap domain t).

(** What the schema makes sure of in every state of the table. *)
Definition valid (t : table) : Prop :=
  keys_unique t /\ Forall (fun r => checks_pass r = true) t.

(** The row proposed for insertion by [seed_company]: the six columns
    it names, the declared defaults for the others. *)
Definition proposed (gen_id : uuid) (now : timestamptz) (p_name : string)
           (p_domain p_careers_url p_ats_type p_ats_identifier : option string)
           (p_priority : option Z) : row :=
  {| id := gen_id; name := p_name; domain := p_domain;
     careers_url := p_careers_url; ats_type := p_ats_type;
     ats_identifier := p_ats_identifier; crawl_priority := p_priority;
     last_crawled_at := None; is_active := Some true; created_at := Some now;
     website_url := None; discovery_source := None; discovered_at := None;
     country := None; location := None; description := None; industry := None;
     employee_count := None; funding_stage := None;
     last_maintenance_at := None; crawl_attempts := Some 0 |}.

(** DO UPDATE SET name = EXCLUDED.name, careers_url = EXCLUDED.careers_url,
      ats_type = EXCLUDED.ats_type, ats_identifier = EXCLUDED.ats_identifier,
      crawl_priority = EXCLUDED.crawl_priority *)
Definition do_update (EXCLUDED old : row) : row :=
  {| id := id old; name := name EXCLUDED; domain := domain old;
     careers_url := careers_url EXCLUDED; ats_type := ats_type EXCLUDED;
     ats_identifier := ats_identifier EXCLUDED;
     crawl_priority := crawl_priority EXCLUDED;
     last_crawled_at := last_crawled_at old; is_active := is_active old;
     created_at := created_at old;
     website_url := website_url old; discovery_source := discovery_source old;
     discovered_at := discovered_at old; country := country old;
     location := location old; description := description old;
     industry := industry old; employee_count := employee_count old;
     funding_stage := funding_stage old;
     last_maintenance_at := last_maintenance_at old;
     crawl_attempts := crawl_attempts old |}.

(** ON CONFLICT (domain): the row already there stands in the way of
    the proposed one when their domains are equal, which is never so
    of a NULL. *)
Definition conflicts (EXCLUDED old : row) : Prop :=
  is_true (tv_eq String.eqb (domain EXCLUDED) (domain old)) = true.

#[export] Instance conflicts_dec EXCLUDED old : Decision (conflicts EXCLUDED old).
Proof. unfold conflicts. apply _. Defined.

(** seed_company(p_name, p_domain, p_careers_url, p_ats_type,
    p_ats_identifier, p_priority), called by a role that row-level
    security lets through (the service role): the table after the call
    and the id returned. [gen_id] is what [gen_random_uuid()] yields
    and [now] what [NOW()] yields.

    An [INTEGER] argument holds a 32-bit value. The proposed row is
    checked (NOT NULL, then CHECK) before the unique index on [domain]
    is consulted. When a row stands in the way it is updated and
    checked again, and its id returned; otherwise the proposed row is
    inserted, unless its id is taken. *)
Definition seed_company (gen_id : uuid) (now : timestamptz)
           (p_name p_domain p_careers_url p_ats_type p_ats_identifier : option string)
           (p_priority : option Z) (t : table) : result (table * uuid) :=
  if negb (Jobs.nullable_in_int4 p_priority) then Raise numeric_value_out_of_range
  else
    match p_name with
    | None => Raise not_null_violation
    | Some n =>
        let EXCLUDED := proposed gen_id now n p_domain p_careers_url p_ats_type
                                 p_ats_identifier p_priority in
        if negb (checks_pass EXCLUDED) then Raise check_violation
        else
          match list_find (conflicts EXCLUDED) t with
          | Some (k, old) =>
              let new := do_update EXCLUDED old in
              if negb (checks_pass new) then Raise check_violation
              else Ok (<[k := new]> t, id new)
          | None =>
              if existsb (fun old => N.eqb gen_id (id old)) t
              then Raise unique_violation
              else Ok (t ++ [EXCLUDED], gen_id)
          end
    end.

(** The call that leaves the last argument out: p_priority defaults
    to 50. *)
Definition DEFAULT_priority : Z := 50.

Definition seed_company_default (gen_id : uuid) (now : timestamptz)
           (p_name p_domain p_careers_url p_ats_type p_ats_identifier : option string)
           (t : table) : result (table * uuid) :=
  seed_company gen_id now p_name p_domain p_careers_url p_ats_type p_ats_identifier
               (Some DEFAULT_priority) t.

(** What the caller may pass as a priority without the call raising. *)
Definition priority_in_range (p : option Z) : Prop :=
  match p with
  | None => True
  | Some z => 0 <= z <= 100
  end.

End Companies.

(** ** The keys of the jobs table *)

Module JobsKeys.
Import Jobs.

(** The pair of columns UNIQUE (company_id, source_url) is on, for the
    rows whose company_id is not NULL. *)
Definition company_url (r : row) : option (uuid * string) :=
  match company_id r with
  | Some c => Some (c, source_url r)
  | None => None
  end.

(** PRIMARY KEY (id) and UNIQUE (company_id, source_url), as far as
    the latter reaches. *)
Definition keys_unique (t : table) : Prop :=
  NoDup (id <$> t) /\ NoDup (omap company_url t).

End JobsKeys.

(** ** The functions of the hunt migration *)

Module HuntFunctions.
Import Pgvector Jobs.

Section Freshness.

(** The steps of [calculate_freshness_score] that the server and the C
    library carry out, each with a rounding of its own: the division
    of two [numeric] values, the cast of a [numeric] to [FLOAT], the
    division of two [FLOAT]s, and [pow]. *)
Variable numeric_div : Q -> Q -> Q.
Variable numeric_to_float8 : Q -> float8.
Variable float8_div : float8 -> float8 -> float8.
Variable pow : float8 -> float8 -> float8.

(** EXTRACT(EPOCH FROM (NOW() - posted)): the seconds between the two
    times, to the microsecond. *)
Definition epoch (now posted : timestamptz) : Q := (now - posted) # 1000000.

(** days_old := EXTRACT(EPOCH FROM (NOW() - posted)) / 86400.0: the
    age in days, a fraction included, as assigned to a [FLOAT]. *)
Definition days_old (now posted : timestamptz) : float8 :=
  numeric_to_float8 (numeric_div (epoch now posted) 86400).

Definition is_zero (x : float8) : bool :=
  match x with Finite q => Qeq_bool q 0 | _ => false end.

Definition is_infinite (x : float8) : bool :=
  match x with Infinity | MinusInfinity => true | _ => false end.

Definition is_nan (x : float8) : bool :=
  match x with NaN => true | _ => false end.

(** [days_old / half_life_days], the integer taken to [FLOAT]: a zero
    divisor raises, and so does a quotient out of the range of double
    precision. *)
Definition divide_by_half_life (x : float8) (half_life_days : Z) : result float8 :=
  if (half_life_days =? 0) && negb (is_nan x) then Raise division_by_zero
  else
    let quotient := float8_div x (Finite (inject_Z half_life_days)) in
    if is_infinite quotient && negb (is_infinite x)
    then Raise numeric_value_out_of_range
    else if is_zero quotient && negb (is_zero x)
    then Raise numeric_value_out_of_range
    else Ok quotient.

(** [POWER(0.5, y)]. Of a finite [y] it is what [pow] makes of it,
    unless that is out of the range of double precision, zero
    included: the server then raises "value out of range". *)
Definition POWER_of_half (y : float8) : result float8 :=
  match y with
  | NaN => Ok NaN
  | Infinity => Ok (Finite 0)
  | MinusInfinity => Ok Infinity
  | Finite _ =>
      match pow (Finite (1 # 2)) y with
      | Finite p =>
          if Qeq_bool p 0 then Raise numeric_value_out_of_range else Ok (Finite p)
      | Infinity | MinusInfinity | NaN => Raise numeric_value_out_of_range
      end
  end.

(** The default of the second parameter. *)
Definition DEFAULT_half_life_days : Z := 7.

(** calculate_freshness_score(posted, half_life_days). [now] is what
    [NOW()] yields. A NULL half-life makes the result NULL. *)
Definition calculate_freshness_score (now : timestamptz)
           (posted : option timestamptz) (half_life_days : option Z)
  : result (option float8) :=
  match posted with
  | None => Ok (Some (Finite (1 # 2)))
  | Some p =>
      match half_life_days with
      | None => Ok None
      | Some h =>
          let* exponent := divide_by_half_life (days_old now p) h in
          let* score := POWER_of_half exponent in
          Ok (Some score)
      end
  end.

(** The call that leaves the second argument out. *)
Definition calculate_freshness_score_default (now : timestamptz)
           (posted : option timestamptz) : result (option float8) :=
  calculate_freshness_score now posted (Some DEFAULT_half_life_days).

End Freshness.

(** [idx_jobs_embedding] is an approximate index (ivfflat, 100 lists):
    a query answered from it sees the rows in the lists it probes for
    the target and no others. A sequential scan sees every row. *)
Definition sequential_scan : option vector -> table -> row -> bool :=
  fun _ _ _ => true.

(** ORDER BY j.embedding <=> target_embedding: ascending, NaN last. *)
Definition by_distance (a b : row * float8) : Prop := float8_le a.2 b.2 = true.

#[export] Instance by_distance_dec : RelDecision by_distance.
Proof. intros a b. unfold by_distance. apply _. Defined.

(** The select list: j.id, 1 - (j.embedding <=> target_embedding). *)
Definition select_columns (h : row * float8) : uuid * float8 :=
  (id h.1, float8_mi (Finite 1) h.2).

Section Similarity.

(** [a <=> b] of the vector extension on two vectors of one dimension:
    their cosine distance in double precision, which is NaN when one
    of them is the zero vector. *)
Variable cosine_distance : vector -> vector -> float8.

(** Which rows of the table the plan chosen for the query gets to see,
    given the target: all of them ([sequential_scan]), or those the
    index yields. *)
Variable probed : option vector -> table -> row -> bool.

Definition examined (target_embedding : option vector) (jobs : table) : table :=
  filter (fun j => probed target_embedding jobs j = true) jobs.

(** [a <=> b] on nullable operands; vectors of different dimensions
    make it raise. *)
Definition cosine_distance_op (a b : option vector) : result (option float8) :=
  match a, b with
  | Some x, Some y =>
      if vector_dims x =? vector_dims y then Ok (Some (cosine_distance x y))
      else Raise data_exception
  | _, _ => Ok None
  end.

(** The defaults of the second and third parameters. *)
Definition DEFAULT_limit_count : Z := 10.
Definition DEFAULT_min_similarity : float8 := Finite (1 # 2).

(** The WHERE clause on one row of [jobs], its conjuncts in the order
    written, the later ones left alone once an earlier one is not TRUE.
    A row that passes is kept with its distance to the target. *)
Definition scan_job (target_embedding : option vector) (min_similarity : option float8)
           (j : row) : result (option (row * float8)) :=
  if negb (is_true (tv_eq Bool.eqb (is_active j) (Some true))) then Ok None
  else if negb (bool_decide (is_Some (embedding j))) then Ok None
  else
    let* d := cosine_distance_op (embedding j) target_embedding in
    match d with
    | Some dist =>
        if is_true (tv_ge_float8 (Some (float8_mi (Finite 1) dist)) min_similarity)
        then Ok (Some (j, dist))
        else Ok None
    | None => Ok None
    end.

(** find_similar_jobs(target_embedding, limit_count, min_similarity)
    over the rows of [jobs]: the job ids with their similarities.
    The row count of LIMIT is evaluated first; when it is zero no row
    is asked for. *)
Definition find_similar_jobs (jobs : table) (target_embedding : option vector)
           (limit_count : option Z) (min_similarity : option float8)
  : result (list (uuid * float8)) :=
  let* count := row_count limit_count in
  if bool_decide (count = Some 0%nat) then Ok []
  else
    let* scanned := for_each (scan_job target_embedding min_similarity)
                             (examined target_embedding jobs) in
    Ok (select_columns
          <$> take_rows count (order_by by_distance (omap (fun h => h) scanned))).

(** The call that leaves the second and the third argument out. *)
Definition find_similar_jobs_default (jobs : table) (target_embedding : option vector)
  : result (list (uuid * float8)) :=
  find_similar_jobs jobs target_embedding
                    (Some DEFAULT_limit_count) (Some DEFAULT_min_similarity).

End Similarity.

(** The order in which the rows come back, told by their similarities:
    decreasing, the rows whose similarity is NaN last. *)
Definition decreasing_nan_last (a b : float8) : Prop :=
  b = NaN \/ (a <> NaN /\ float8_le b a = true).

End HuntFunctions.

(** ** The candidate profiles table *)

Module CandidateProfiles.
Import Pgvector.

(** CREATE TABLE candidate_profiles. *)
Record row := {
  id : uuid;
  waitlist_id : option uuid;
  email : string;
  name : option string;
  role_families : option (list string);
  seniority : option string;
  min_salary : option Z;
  locations : option (list string);
  location_types : option (list string);
  role_types : option (list string);
  skills : option (list string);
  exclusions : option (list string);
  embedding : option vector;
  last_matched_at : option timestamptz;
  last_notified_at : option timestamptz;
  is_active : option bool;
  created_at : option timestamptz;
  updated_at : option timestamptz;
}.

Abbreviation table := (list row).

(** [a <@ ARRAY[...]]: every element of [a] is among the listed ones;
    NULL for a NULL array. *)
Definition contained_in (a : option (list string)) (allowed : list string) : tv :=
  match a with
  | None => None
  | Some xs => Some (forallb (fun x => existsb (String.eqb x) allowed) xs)
  end.

Definition seniority_check (r : row) : tv :=
  tv_in String.eqb (seniority r) Jobs.seniority_values.

Definition location_types_check (r : row) : tv :=
  contained_in (location_types r) ["remote"; "hybrid"; "onsite"]%string.

Definition role_types_check (r : row) : tv :=
  contained_in (role_types r) ["permanent"; "contract"; "freelance"]%string.

Definition checks_pass (r : row) : bool :=
  check_passes (seniority_check r)
  && check_passes (location_types_check r)
  && check_passes (role_types_check r).

(** PRIMARY KEY (id), UNIQUE (waitlist_id), UNIQUE (email). *)
Definition collides (new old : row) : bool :=
  N.eqb (id new) (id old)
  || is_true (tv_eq N.eqb (waitlist_id new) (waitlist_id old))
  || String.eqb (email new) (email old).

(** [waitlist] is the list of ids present in the waitlist table. *)
Definition check_row (waitlist : list uuid) (others : table) (new : row) : result row :=
  let* _ := coerce_vector EMBEDDING_DIM (embedding new) in
  if negb (Jobs.nullable_in_int4 (min_salary new)) then Raise numeric_value_out_of_range
  else if negb (checks_pass new) then Raise check_violation
  else if existsb (collides new) others then Raise unique_violation
  else if negb (Jobs.references waitlist (waitlist_id new))
       then Raise foreign_key_violation
  else Ok new.

(** INSERT INTO candidate_profiles VALUES (new), defaults filled in. *)
Definition insert (waitlist : list uuid) (new : row) (t : table) : result table :=
  let* r := check_row waitlist t new in
  Ok (t ++ [r]).

(** The trigger function [update_updated_at_column] on this table. *)
Definition update_updated_at_column (now : timestamptz) (NEW : row) : row :=
  {| id := id NEW; waitlist_id := waitlist_id NEW; email := email NEW;
     name := name NEW; role_families := role_families NEW;
     seniority := seniority NEW; min_salary := min_salary NEW;
     locations := locations NEW; location_types := location_types NEW;
     role_types := role_types NEW; skills := skills NEW;
     exclusions := exclusions NEW; embedding := embedding NEW;
     last_matched_at := last_matched_at NEW;
     last_notified_at := last_notified_at NEW; is_active := is_active NEW;
     created_at := created_at NEW; updated_at := Some now |}.

(** UPDATE candidate_profiles SET (every column) = new WHERE id = i. *)
Definition update (now : timestamptz) (waitlist : list uuid)
           (i : uuid) (new : row) (t : table) : result table :=
  match list_find (fun r => id r = i) t with
  | None => Ok t
  | Some (k, _) =>
      let* r := check_row waitlist (delete k t) (update_updated_at_column now new) in
      Ok (<[k := r]> t)
  end.

(** DELETE FROM candidate_profiles WHERE id = i. *)
Definition delete_profile (i : uuid) (t : table) : table :=
  filter (fun r => id r ≠ i) t.

(** waitlist_id ... ON DELETE SET NULL: what deleting waitlist entry [w]
    does here. *)
Definition clear_waitlist (now : timestamptz) (r : row) : row :=
  update_updated_at_column now
    {| id := id r; waitlist_id := None; email := email r;
       name := name r; role_families := role_families r;
       seniority := seniority r; min_salary := min_salary r;
       locations := locations r; location_types := location_types r;
       role_types := role_types r; skills := skills r;
       exclusions := exclusions r; embedding := embedding r;
       last_matched_at := last_matched_at r;
       last_notified_at := last_notified_at r; is_active := is_active r;
       created_at := created_at r; updated_at := updated_at r |}.

Definition on_waitlist_deleted (now : timestamptz) (w : uuid) (t : table) : table :=
  (fun r => if decide (waitlist_id r = Some w) then clear_waitlist now r else r) <$> t.

(** The states of the table. *)
Inductive reachable : table -> Prop :=
| reach_empty : reachable []
| reach_insert t waitlist new t' :
    reachable t -> insert waitlist new t = Ok t' -> reachable t'
| reach_update t now waitlist i new t' :
    reachable t -> update now waitlist i new t = Ok t' -> reachable t'
| reach_delete t i :
    reachable t -> reachable (delete_profile i t)
| reach_waitlist_deleted t now w :
    reachable t -> reachable (on_waitlist_deleted now w t).

End CandidateProfiles.

(** ** The matches table *)

Module Matches.

(** CREATE TABLE matches. *)
Record row := {
  id : uuid;
  candidate_id : option uuid;
  job_id : option uuid;
  score : Q;
  hard_match : option bool;
  match_reasons : option string;
  shown_at : option timestamptz;
  clicked_at : option timestamptz;
  applied_at : option timestamptz;
  dismissed_at : option timestamptz;
  created_at : option timestamptz;
}.

Abbreviation table := (list row).

(** CHECK (score >= 0 AND score <= 1) *)
Definition score_check (r : row) : tv :=
  tv_and (tv_geQ (Some (score r)) (Some 0%Q)) (tv_leQ (Some (score r)) (Some 1%Q)).

(** PRIMARY KEY (id) and UNIQUE (candidate_id, job_id): two rows
    collide on the latter only when their candidate ids are equal and
    their job ids are equal, which is never so of a NULL. *)
Definition collides (new old : row) : bool :=
  N.eqb (id new) (id old)
  || is_true (tv_and (tv_eq N.eqb (candidate_id new) (candidate_id old))
                     (tv_eq N.eqb (job_id new) (job_id old))).

(** [candidates] and [jobs] are the ids present in the two referenced
    tables. *)
Definition check_row (candidates jobs : list uuid) (others : table) (new : row)
  : result row :=
  if negb (check_passes (score_check new)) then Raise check_violation
  else if existsb (collides new) others then Raise unique_violation
  else if negb (Jobs.references candidates (candidate_id new)
                && Jobs.references jobs (job_id new))
       then Raise foreign_key_violation
  else Ok new.

(** INSERT INTO matches VALUES (new), defaults filled in. *)
Definition insert (candidates jobs : list uuid) (new : row) (t : table)
  : result table :=
  let* r := check_row candidates jobs t new in
  Ok (t ++ [r]).

(** UPDATE matches SET (every column) = new WHERE id = i. *)
Definition update (candidates jobs : list uuid) (i : uuid) (new : row) (t : table)
  : result table :=
  match list_find (fun r => id r = i) t with
  | None => Ok t
  | Some (k, _) =>
      let* r := check_row candidates jobs (delete k t) new in
      Ok (<[k := r]> t)
  end.

(** DELETE FROM matches WHERE id = i. *)
Definition delete_match (i : uuid) (t : table) : table :=
  filter (fun r => id r ≠ i) t.

(** Both references are ON DELETE CASCADE. *)
Definition on_candidate_deleted (c : uuid) (t : table) : table :=
  filter (fun r => candidate_id r ≠ Some c) t.

Definition on_job_deleted (j : uuid) (t : table) : table :=
  filter (fun r => job_id r ≠ Some j) t.

(** The states of the table. *)
Inductive reachable : table -> Prop :=
| reach_empty : reachable []
| reach_insert t candidates jobs new t' :
    reachable t -> insert candidates jobs new t = Ok t' -> reachable t'
| reach_update t candidates jobs i new t' :
    reachable t -> update candidates jobs i new t = Ok t' -> reachable t'
| reach_delete t i :
    reachable t -> reachable (delete_match i t)
| reach_candidate_deleted t c :
    reachable t -> reachable (on_candidate_deleted c t)
| reach_job_deleted t j :
    reachable t -> reachable (on_job_deleted j t).

(** The pair of columns the unique constraint is on. *)
Definition pair (r : row) : option uuid * option uuid :=
  (candidate_id r, job_id r).

(** The same pair, for the rows in which neither column is NULL. *)
Definition present_pair (r : row) : option (uuid * uuid) :=
  match candidate_id r, job_id r with
  | Some c, Some j => Some (c, j)
  | _, _ => None
  end.

Definition present_pairs (t : table) : list (uuid * uuid) :=
  omap present_pair t.

End Matches.

(** ** The views of the hunt migration *)

(** [a JOIN b ON cond]: the pairs of rows for which the condition is
    TRUE. The order in which a view lists its rows is left open by
    SQL; it is here the order of the nested loop. *)
Definition inner_join {A B} (on : A -> B -> tv) (l : list A) (r : list B)
  : list (A * B) :=
  a ← l; b ← r; if is_true (on a b) then [(a, b)] else [].

(** CREATE VIEW job_feed *)
Module JobFeed.

Record row := {
  id : uuid;
  title : string;
  role_family : string;
  role_specialization : option string;
  seniority : option string;
  location_type : option string;
  locations : option (list string);
  skills : option (list string);
  min_salary : option Z;
  max_salary : option Z;
  employment_type : option string;
  source_url : string;
  posted_at : option timestamptz;
  freshness_score : option Q;
  created_at : option timestamptz;
  company_id : uuid;
  company_name : string;
  company_domain : option string;
}.

(** ON j.company_id = c.id *)
Definition on_company (j : Jobs.row) (c : Companies.row) : tv :=
  tv_eq N.eqb (Jobs.company_id j) (Some (Companies.id c)).

(** WHERE j.is_active = TRUE AND c.is_active = TRUE *)
Definition where_active (jc : Jobs.row * Companies.row) : tv :=
  tv_and (tv_eq Bool.eqb (Jobs.is_active jc.1) (Some true))
         (tv_eq Bool.eqb (Companies.is_active jc.2) (Some true)).

(** The select list. *)
Definition select_columns (jc : Jobs.row * Companies.row) : row :=
  let (j, c) := jc in
  {| id := Jobs.id j; title := Jobs.title j; role_family := Jobs.role_family j;
     role_specialization := Jobs.role_specialization j;
     seniority := Jobs.seniority j; location_type := Jobs.location_type j;
     locations := Jobs.locations j; skills := Jobs.skills j;
     min_salary := Jobs.min_salary j; max_salary := Jobs.max_salary j;
     employment_type := Jobs.employment_type j; source_url := Jobs.source_url j;
     posted_at := Jobs.posted_at j; freshness_score := Jobs.freshness_score j;
     created_at := Jobs.created_at j;
     company_id := Companies.id c; company_name := Companies.name c;
     company_domain := Companies.domain c |}.

Definition job_feed (jobs : Jobs.table) (companies : Companies.table) : list row :=
  select_columns
    <$> filter (fun jc => is_true (where_active jc) = true)
               (inner_join on_company jobs companies).

End JobFeed.

(** CREATE VIEW candidate_matches *)
Module CandidateMatches.

Record row := {
  match_id : uuid;
  candidate_id : option uuid;
  score : Q;
  hard_match : option bool;
  match_reasons : option string;
  shown_at : option timestamptz;
  clicked_at : option timestamptz;
  matched_at : option timestamptz;
  job_id : uuid;
  job_title : string;
  role_family : string;
  seniority : option string;
  location_type : option string;
  locations : option (list string);
  source_url : string;
  posted_at : option timestamptz;
  company_id : uuid;
  company_name : string;
  company_domain : option string;
}.

(** ON m.job_id = j.id *)
Definition on_job (m : Matches.row) (j : Jobs.row) : tv :=
  tv_eq N.eqb (Matches.job_id m) (Some (Jobs.id j)).

(** ON j.company_id = c.id *)
Definition on_company (mj : Matches.row * Jobs.row) (c : Companies.row) : tv :=
  tv_eq N.eqb (Jobs.company_id mj.2) (Some (Companies.id c)).

(** WHERE j.is_active = TRUE *)
Definition where_active (mjc : Matches.row * Jobs.row * Companies.row) : tv :=
  tv_eq Bool.eqb (Jobs.is_active mjc.1.2) (Some true).

(** The select list. *)
Definition select_columns (mjc : Matches.row * Jobs.row * Companies.row) : row :=
  let '(m, j, c) := mjc in
  {| match_id := Matches.id m; candidate_id := Matches.candidate_id m;
     score := Matches.score m; hard_match := Matches.hard_match m;
     match_reasons := Matches.match_reasons m; shown_at := Matches.shown_at m;
     clicked_at := Matches.clicked_at m; matched_at := Matches.created_at m;
     job_id := Jobs.id j; job_title := Jobs.title j;
     role_family := Jobs.role_family j; seniority := Jobs.seniority j;
     location_type := Jobs.location_type j; locations := Jobs.locations j;
     source_url := Jobs.source_url j; posted_at := Jobs.posted_at j;
     company_id := Companies.id c; company_name := Companies.name c;
     company_domain := Companies.domain c |}.

Definition candidate_matches (matches : Matches.table) (jobs : Jobs.table)
           (companies : Companies.table) : list row :=
  select_columns
    <$> filter (fun mjc => is_true (where_active mjc) = true)
               (inner_join on_company (inner_join on_job matches jobs) companies).

End CandidateMatches.

(** ** The discovery queue *)

Module DiscoveryQueue.

(** status TEXT ... CHECK (status IN ('pending', 'processing',
    'completed', 'failed', 'skipped', 'review')): a status that is not
    NULL is one of these six. *)
Inductive status_value :=
| pending | processing | completed | failed | skipped | review.

#[export] Instance status_value_eq_dec : EqDecision status_value.
Proof. solve_decision. Defined.

(** CREATE TABLE discovery_queue. *)
Record row := {
  id : uuid;
  name : string;
  domain : option string;
  careers_url : option string;
  website_url : option string;
  source : string;
  source_url : option string;
  location : option string;
  country : option string;
  description : option string;
  industry : option string;
  employee_count : option Z;
  funding_stage : option string;
  ats_type : option string;
  ats_identifier : option string;
  status : option status_value;
  error_message : option string;
  retry_count : option Z;
  created_at : option timestamptz;
  processed_at : option timestamptz;
  company_id : option uuid;
}.

Abbreviation table := (list row).

(** CHECK (country IS NULL OR length(country) = 2) *)
Definition country_check (r : row) : tv :=
  match country r with
  | None => Some true
  | Some c => Some (Nat.eqb (String.length c) 2)
  end.

Definition integers_fit (r : row) : bool :=
  Jobs.nullable_in_int4 (employee_count r) && Jobs.nullable_in_int4 (retry_count r).

(** What a row has to pass before it is stored. The primary key is the
    only unique constraint of the table. *)
Definition check_row (companies : list uuid) (others : table) (new : row)
  : result row :=
  if negb (integers_fit new) then Raise numeric_value_out_of_range
  else if negb (check_passes (country_check new)) then Raise check_violation
  else if existsb (fun old => N.eqb (id new) (id old)) others then Raise unique_violation
  else if negb (Jobs.references companies (company_id new))
       then Raise foreign_key_violation
  else Ok new.

(** INSERT INTO discovery_queue VALUES (new), defaults filled in. *)
Definition insert (companies : list uuid) (new : row) (t : table) : result table :=
  let* r := check_row companies t new in
  Ok (t ++ [r]).

(** UPDATE discovery_queue SET (every column) = new WHERE id = i. *)
Definition update (companies : list uuid) (i : uuid) (new : row) (t : table)
  : result table :=
  match list_find (fun r => id r = i) t with
  | None => Ok t
  | Some (k, _) =>
      let* r := check_row companies (delete k t) new in
      Ok (<[k := r]> t)
  end.

(** SET status = 'processing', processed_at = NOW() *)
Definition start_processing (now : timestamptz) (r : row) : row :=
  {| id := id r; name := name r; domain := domain r;
     careers_url := careers_url r; website_url := website_url r;
     source := source r; source_url := source_url r;
     location := location r; country := country r;
     description := description r; industry := industry r;
     employee_count := employee_count r; funding_stage := funding_stage r;
     ats_type := ats_type r; ats_identifier := ats_identifier r;
     status := Some processing;
     error_message := error_message r; retry_count := retry_count r;
     created_at := created_at r; processed_at := Some now;
     company_id := company_id r |}.

(** ORDER BY created_at ASC *)
Definition by_created_at (a b : row) : Prop :=
  asc_nulls_last (created_at a) (created_at b).

#[export] Instance by_created_at_dec : RelDecision by_created_at.
Proof. intros a b. unfold by_created_at. apply _. Defined.

(** The scalar subquery
      SELECT id FROM discovery_queue WHERE status = 'pending'
      ORDER BY created_at ASC LIMIT 1 FOR UPDATE SKIP LOCKED
    in a session that runs alone, so that no row is locked by another:
    NULL when no row is pending. *)
Definition next_pending_id (t : table) : option uuid :=
  id <$> head (order_by by_created_at (filter (fun r => status r = Some pending) t)).

(** get_next_discovery_item(): the table after the UPDATE, and the rows
    it returns. *)
Definition get_next_discovery_item (now : timestamptz) (t : table)
  : table * list row :=
  let chosen := next_pending_id t in
  ((fun r => if decide (Some (id r) = chosen) then start_processing now r else r) <$> t,
   start_processing now <$> filter (fun r => Some (id r) = chosen) t).

(** SET status = 'completed', company_id = new_company_id,
        processed_at = NOW() *)
Definition complete_row (now : timestamptz) (new_company_id : option uuid) (r : row)
  : row :=
  {| id := id r; name := name r; domain := domain r;
     careers_url := careers_url r; website_url := website_url r;
     source := source r; source_url := source_url r;
     location := location r; country := country r;
     description := description r; industry := industry r;
     employee_count := employee_count r; funding_stage := funding_stage r;
     ats_type := ats_type r; ats_identifier := ats_identifier r;
     status := Some completed;
     error_message := error_message r; retry_count := retry_count r;
     created_at := created_at r; processed_at := Some now;
     company_id := new_company_id |}.

(** complete_discovery_item(item_id, new_company_id). [companies] are
    the ids present in the companies table. *)
Definition complete_discovery_item (now : timestamptz) (companies : list uuid)
           (item_id new_company_id : option uuid) (t : table) : result table :=
  for_each (fun r =>
              if decide (Some (id r) = item_id) then
                if Jobs.references companies new_company_id
                then Ok (complete_row now new_company_id r)
                else Raise foreign_key_violation
              else Ok r) t.

(** SET status = CASE WHEN retry_count >= 3 THEN 'failed' ELSE 'pending' END,
        error_message = error_msg,
        retry_count = retry_count + 1,
        processed_at = NOW()
    Every right-hand side reads the row as it was before the update. *)
Definition fail_row (now : timestamptz) (error_msg : option string) (r : row)
  : result row :=
  let* incremented := int4_add (retry_count r) (Some 1) in
  Ok {| id := id r; name := name r; domain := domain r;
        careers_url := careers_url r; website_url := website_url r;
        source := source r; source_url := source_url r;
        location := location r; country := country r;
        description := description r; industry := industry r;
        employee_count := employee_count r; funding_stage := funding_stage r;
        ats_type := ats_type r; ats_identifier := ats_identifier r;
        status := Some (if is_true (tv_geZ (retry_count r) (Some 3))
                        then failed else pending);
        error_message := error_msg; retry_count := incremented;
        created_at := created_at r; processed_at := Some now;
        company_id := company_id r |}.

(** fail_discovery_item(item_id, error_msg) *)
Definition fail_discovery_item (now : timestamptz)
           (item_id : option uuid) (error_msg : option string) (t : table)
  : result table :=
  for_each (fun r => if decide (Some (id r) = item_id)
                     then fail_row now error_msg r else Ok r) t.

(** One call of [fail_discovery_item] on the same item after another,
    each at its own time and with its own message. *)
Fixpoint fail_repeatedly (calls : list (timestamptz * option string))
         (item_id : option uuid) (t : table) : result table :=
  match calls with
  | [] => Ok t
  | (now, error_msg) :: rest =>
      let* t' := fail_discovery_item now item_id error_msg t in
      fail_repeatedly rest item_id t'
  end.

(** The calls a queue worker makes, and a run of them. *)
Inductive call :=
| GetNext (now : timestamptz)
| Complete (now : timestamptz) (companies : list uuid)
           (item_id new_company_id : option uuid)
| Fail (now : timestamptz) (item_id : option uuid) (error_msg : option string).

Definition run_call (c : call) (t : table) : result table :=
  match c with
  | GetNext now => Ok (get_next_discovery_item now t).1
  | Complete now companies item_id new_company_id =>
      complete_discovery_item now companies item_id new_company_id t
  | Fail now item_id error_msg => fail_discovery_item now item_id error_msg t
  end.

Fixpoint run_calls (cs : list call) (t : table) : result table :=
  match cs with
  | [] => Ok t
  | c :: rest =>
      let* t' := run_call c t in
      run_calls rest t'
  end.

(** How often a run reports the failure of item [i]. *)
Definition is_failure_of (i : uuid) (c : call) : bool :=
  match c with
  | Fail _ (Some j) _ => N.eqb i j
  | _ => false
  end.

Definition failures_of (i : uuid) (cs : list call) : Z :=
  Z.of_nat (length (List.filter (is_failure_of i) cs)).

End DiscoveryQueue.

(** ** [get_discovery_stats] and what the worker calls leave alone *)

Module DiscoveryStats.
Import DiscoveryQueue.

(** RETURNS TABLE (source TEXT, total_discovered BIGINT, completed BIGINT,
    pending BIGINT, failed BIGINT) *)
Record row := {
  source : string;
  total_discovered : Z;
  completed : Z;
  pending : Z;
  failed : Z;
}.

(** COUNT( * ) FILTER (WHERE dq.status = v): the rows of the group for
    which the condition is TRUE, which it is not of a NULL status. *)
Definition count_status (v : DiscoveryQueue.status_value) (g : DiscoveryQueue.table) : Z :=
  Z.of_nat (length (filter (fun r => DiscoveryQueue.status r = Some v) g)).

(** GROUP BY dq.source: one group for each source that occurs. *)
Definition group_by_source (t : DiscoveryQueue.table)
  : list (string * DiscoveryQueue.table) :=
  (fun s => (s, filter (fun r => DiscoveryQueue.source r = s) t))
    <$> remove_dups (DiscoveryQueue.source <$> t).

(** The select list, on one group. *)
Definition aggregate (g : string * DiscoveryQueue.table) : row :=
  {| source := g.1;
     total_discovered := Z.of_nat (length g.2);
     completed := count_status DiscoveryQueue.completed g.2;
     pending := count_status DiscoveryQueue.pending g.2;
     failed := count_status DiscoveryQueue.failed g.2 |}.

(** ORDER BY total_discovered DESC *)
Definition by_total_desc (a b : row) : Prop :=
  total_discovered b <= total_discovered a.

#[export] Instance by_total_desc_dec : RelDecision by_total_desc.
Proof. intros a b. unfold by_total_desc. apply _. Defined.

(** get_discovery_stats() *)
Definition get_discovery_stats (t : DiscoveryQueue.table) : list row :=
  order_by by_total_desc (aggregate <$> group_by_source t).

(** The sum of a column of counts. *)
Definition sum_counts (l : list Z) : Z := foldr Z.add 0 l.

(** The columns of a queue item that say what was discovered, as
    opposed to how far its processing has got. *)
Definition discovered (r : DiscoveryQueue.row) :=
  (DiscoveryQueue.id r, DiscoveryQueue.name r, DiscoveryQueue.domain r,
   DiscoveryQueue.careers_url r, DiscoveryQueue.website_url r,
   DiscoveryQueue.source r, DiscoveryQueue.source_url r,
   DiscoveryQueue.location r, DiscoveryQueue.country r,
   DiscoveryQueue.description r, DiscoveryQueue.industry r,
   DiscoveryQueue.employee_count r, DiscoveryQueue.funding_stage r,
   DiscoveryQueue.ats_type r, DiscoveryQueue.ats_identifier r,
   DiscoveryQueue.created_at r).

End DiscoveryStats.

(** ** Intake of company candidates into the discovery queue *)

Module DiscoveryIntake.
Import DiscoveryQueue.

(** Modelled from the spec: the company candidate a discovery source
    produces (section 4.2): a name, an optional domain, careers and
    website address, free-form metadata, and the tag of its source. The
    sources themselves are backend code that is not part of the
    sources embedded here. *)
Record candidate := {
  c_name : string;
  c_domain : option string;
  c_careers_url : option string;
  c_website_url : option string;
  c_location : option string;
  c_country : option string;
  c_industry : option string;
  c_employee_count : option Z;
  c_funding_stage : option string;
  c_source : string;
}.

(** A candidate whose country and head count the table will take. *)
Definition candidate_fits (c : candidate) : bool :=
  Jobs.nullable_in_int4 (c_employee_count c)
  && match c_country c with
     | None => true
     | Some x => Nat.eqb (String.length x) 2
     end.

Section Intake.

(** How a domain and how a name are normalised is left open by the
    specification. *)
Variables normalize_domain normalize_name : string -> string.

(** Modelled from the spec: the deduplication key, "computed from
    normalized domain (fallback: normalized name)". The orchestrator
    that computes it is backend code that is not part of the sources
    embedded here. *)
Definition dedup_key (domain : option string) (name : string) : string :=
  match domain with
  | Some d => normalize_domain d
  | None => normalize_name name
  end.

Definition row_key (r : row) : string := dedup_key (domain r) (name r).
Definition candidate_key (c : candidate) : string := dedup_key (c_domain c) (c_name c).

(** The row a candidate makes when it is new to the queue: the
    candidate's fields, and the defaults of the table for the rest. *)
Definition new_item (gen_id : uuid) (now : timestamptz) (c : candidate) : row :=
  {| id := gen_id; name := c_name c; domain := c_domain c;
     careers_url := c_careers_url c; website_url := c_website_url c;
     source := c_source c; source_url := None;
     location := c_location c; country := c_country c;
     description := None; industry := c_industry c;
     employee_count := c_employee_count c; funding_stage := c_funding_stage c;
     ats_type := None; ats_identifier := None;
     status := Some pending; error_message := None; retry_count := Some 0;
     created_at := Some now; processed_at := None; company_id := None |}.

(** Modelled from the spec: "the newer metadata enriches the older row
    when non-null". A value of the newer candidate that is not NULL
    takes the place of the older one; a NULL leaves it. *)
Definition enrich {A} (newer older : option A) : option A :=
  match newer with
  | Some v => Some v
  | None => older
  end.

Definition merge (c : candidate) (old : row) : row :=
  {| id := id old; name := name old; domain := domain old;
     careers_url := careers_url old; website_url := website_url old;
     source := source old; source_url := source_url old;
     location := enrich (c_location c) (location old);
     country := enrich (c_country c) (country old);
     description := description old;
     industry := enrich (c_industry c) (industry old);
     employee_count := enrich (c_employee_count c) (employee_count old);
     funding_stage := enrich (c_funding_stage c) (funding_stage old);
     ats_type := ats_type old; ats_identifier := ats_identifier old;
     status := status old; error_message := error_message old;
     retry_count := retry_count old;
     created_at := created_at old; processed_at := processed_at old;
     company_id := company_id old |}.

(** Modelled from the spec: the orchestrator's insertion of a candidate
    into the discovery queue (section 4.2), backend code that is not
    part of the sources embedded here. A candidate whose key is already
    in the queue is merged into the row that has it; any other becomes
    a new row. Both go through the statements of the table. *)
Definition enqueue (companies : list uuid) (gen_id : uuid) (now : timestamptz)
           (c : candidate) (t : table) : result table :=
  match list_find (fun r => row_key r = candidate_key c) t with
  | Some (_, old) => update companies (id old) (merge c old) t
  | None => insert companies (new_item gen_id now c) t
  end.

End Intake.

End DiscoveryIntake.

(** ** The admin pipeline page: [isStageRunning] *)

Module PipelinePage.

(** type StageType = 'discovery' | 'crawl' | 'enrich' | 'embeddings' *)
Inductive StageType := discovery | crawl | enrich | embeddings.

Definition stage_string (s : StageType) : string :=
  match s with
  | discovery => "discovery"
  | crawl => "crawl"
  | enrich => "enrich"
  | embeddings => "embeddings"
  end.

(** The fields of [RunningPipelineRun] that the function reads. *)
Record RunningPipelineRun := {
  run_id : string;
  stage : string;
  status : string;
}.

(** [s.startsWith(p)] *)
Definition startsWith (s p : string) : bool := String.prefix p s.

Section Registry.
(** [OperationStatus] is declared in the API client; the function
    only reads the keys of the record that holds it. *)
Context {OperationStatus : Type}.

(** [Object.keys(o)]. The order in which a JavaScript object lists
    its keys is its insertion order; the loops below only ask
    whether some key qualifies, so any enumeration serves. *)
Definition Object_keys (o : gmap string OperationStatus) : list string :=
  (map_to_list o).*1.

(** First loop: returns [true] when one of its [return true] fires. *)
Fixpoint ops_loop (stageId : string) (keys : list string) : bool :=
  match keys with
  | [] => false
  | opType :: rest =>
      if String.eqb opType stageId then true
      else if startsWith opType (stageId ++ "_") then true
      else if String.eqb opType "full_pipeline" then true
      else ops_loop stageId rest
  end.

(** Second loop, over the database pipeline runs. *)
Fixpoint runs_loop (stageId : string) (runs : list RunningPipelineRun) : bool :=
  match runs with
  | [] => false
  | run :: rest =>
      if negb (String.eqb (status run) "running") then runs_loop stageId rest
      else if String.eqb (stage run) stageId then true
      else if startsWith (stage run) (stageId ++ "_") then true
      else if String.eqb (stage run) "detect_ats" && String.eqb stageId "discovery" then true
      else if String.eqb (stage run) "custom_crawl" && String.eqb stageId "crawl" then true
      else runs_loop stageId rest
  end.

Definition isStageRunning (stageId : StageType)
           (runningOps : gmap string OperationStatus)
           (runningRuns : list RunningPipelineRun) : bool :=
  if ops_loop (stage_string stageId) (Object_keys runningOps) then true
  else if runs_loop (stage_string stageId) runningRuns then true
  else false.

End Registry.

End PipelinePage.

(** ** The admin pipeline page: what runs in a stage, and the polling *)

Module PipelineStatus.
Import PipelinePage.

Section Registry.
Context {OperationStatus : Type}.

(** [Object.entries(o)], in the order of [Object_keys]: an enumeration
    of the record, not necessarily in the order in which JavaScript
    lists it. What is stated below of the collected operations is
    their number, which no order changes. *)
Definition Object_entries (o : gmap string OperationStatus)
  : list (string * OperationStatus) :=
  map_to_list o.

(** First loop of [getStageOperations]: what it pushes on [ops]. *)
Fixpoint ops_of (stageId : string) (entries : list (string * OperationStatus))
  : list OperationStatus :=
  match entries with
  | [] => []
  | (opType, op) :: rest =>
      if String.eqb opType stageId || startsWith opType (stageId ++ "_")
      then op :: ops_of stageId rest
      else ops_of stageId rest
  end.

(** Second loop: what it pushes on [runs]. *)
Fixpoint runs_of (stageId : string) (runningRuns : list RunningPipelineRun)
  : list RunningPipelineRun :=
  match runningRuns with
  | [] => []
  | run :: rest =>
      if negb (String.eqb (status run) "running") then runs_of stageId rest
      else if String.eqb (stage run) stageId || startsWith (stage run) (stageId ++ "_")
           then run :: runs_of stageId rest
      else if String.eqb (stage run) "detect_ats" && String.eqb stageId "discovery"
           then run :: runs_of stageId rest
      else if String.eqb (stage run) "custom_crawl" && String.eqb stageId "crawl"
           then run :: runs_of stageId rest
      else runs_of stageId rest
  end.

(** getStageOperations(stageId, runningOps, runningRuns): the pair
    [{ ops, runs }]. *)
Definition getStageOperations (stageId : StageType)
           (runningOps : gmap string OperationStatus)
           (runningRuns : list RunningPipelineRun)
  : list OperationStatus * list RunningPipelineRun :=
  (ops_of (stage_string stageId) (Object_entries runningOps),
   runs_of (stage_string stageId) runningRuns).

(** [StageCard]: const concurrentCount = stageOps.length + stageRuns.length *)
Definition concurrentCount (stageId : StageType)
           (runningOps : gmap string OperationStatus)
           (runningRuns : list RunningPipelineRun) : nat :=
  let (stageOps, stageRuns) := getStageOperations stageId runningOps runningRuns in
  (length stageOps + length stageRuns)%nat.

(** [loadStatus], "Find first running stage": the loop over the four
    stage ids, left at the first stage that runs. *)
Fixpoint first_running (stages : list StageType)
         (runningOps : gmap string OperationStatus)
         (runningRuns : list RunningPipelineRun) : option StageType :=
  match stages with
  | [] => None
  | stageId :: rest =>
      if isStageRunning stageId runningOps runningRuns then Some stageId
      else first_running rest runningOps runningRuns
  end.

Definition STAGE_ORDER : list StageType := [discovery; crawl; enrich; embeddings].

(** [loadStatus], "Auto-expand if a stage is running", once the
    status has been fetched: the stage it passes to
    [setExpandedStage], if it calls it. The [expandedStage] it tests
    is the one the callback closed over when it was created, the
    state of the render it belongs to, which is not the state at the
    time the status arrives when the state has been set since. *)
Definition loadStatus_expands (expandedStage : option StageType)
           (runningOps : gmap string OperationStatus)
           (runningRuns : list RunningPipelineRun) : option StageType :=
  match expandedStage with
  | Some _ => None
  | None => first_running STAGE_ORDER runningOps runningRuns
  end.

(** [handleRunStage(stage)] once the request to run the stage has
    gone through: [setExpandedStage(stage)], then [await loadStatus()].
    The handler and its [loadStatus] belong to the render of the
    click, whose [expandedStage] is the argument here; the status is
    the one [loadStatus] fetches. Of the calls of [setExpandedStage]
    the last one stands: the stage whose card is expanded in the end. *)
Definition handleRunStage_expands (expandedStage : option StageType)
           (stage : StageType)
           (runningOps : gmap string OperationStatus)
           (runningRuns : list RunningPipelineRun) : StageType :=
  match loadStatus_expands expandedStage runningOps runningRuns with
  | Some stageId => stageId
  | None => stage
  end.

(** The auto-refresh effect:
    hasRunningOps = Object.keys(runningOps).length > 0
                    || runningRuns.some(r => r.status === 'running');
    interval = hasRunningOps ? 2000 : 10000 *)
Definition hasRunningOps (runningOps : gmap string OperationStatus)
           (runningRuns : list RunningPipelineRun) : bool :=
  (0 <? length (Object_keys runningOps))%nat
  || existsb (fun r => String.eqb (status r) "running") runningRuns.

Definition interval (runningOps : gmap string OperationStatus)
           (runningRuns : list RunningPipelineRun) : Z :=
  if hasRunningOps runningOps runningRuns then 2000 else 10000.

(** The period of the timer the effect sets, in milliseconds; with
    auto-refresh switched off it sets none. *)
Definition auto_refresh_timer (autoRefresh : bool)
           (runningOps : gmap string OperationStatus)
           (runningRuns : list RunningPipelineRun) : option Z :=
  if negb autoRefresh then None else Some (interval runningOps runningRuns).

(** The counts of the page header. *)
Definition runningOpCount (runningOps : gmap string OperationStatus) : nat :=
  length (Object_keys runningOps).

Definition runningRunCount (runningRuns : list RunningPipelineRun) : nat :=
  length (List.filter (fun r => String.eqb (status r) "running") runningRuns).

Definition isRunning (runningOps : gmap string OperationStatus)
           (runningRuns : list RunningPipelineRun) : bool :=
  (0 <? runningOpCount runningOps)%nat || (0 <? runningRunCount runningRuns)%nat.

Definition totalRunningCount (runningOps : gmap string OperationStatus)
           (runningRuns : list RunningPipelineRun) : nat :=
  (runningOpCount runningOps + runningRunCount runningRuns)%nat.

End Registry.

End PipelineStatus.

(** ** Sample data *)

Module Samples.
Import Pgvector.

(** A waitlist with one entry, and a form filled in with its email. *)
Definition ada : Waitlist.row :=
  {| Waitlist.id := 1%N; Waitlist.name := "Ada";
     Waitlist.email := "ada@example.org"; Waitlist.created_at := Some 0 |}.

Definition ada_again : WaitlistForm.form :=
  {| WaitlistForm.name_input := "Ada L.";
     WaitlistForm.email_input := "ada@example.org";
     WaitlistForm.isLoading := false; WaitlistForm.error_message := "";
     WaitlistForm.onSuccess_calls := [] |}.

(** A job with nothing but what the table requires. *)
Definition plain_job (i : uuid) (url : string) : Jobs.row :=
  {| Jobs.id := i; Jobs.company_id := None; Jobs.raw_job_id := None;
     Jobs.title := "Engineer"; Jobs.description := None; Jobs.source_url := url;
     Jobs.role_family := "software_engineering"; Jobs.role_specialization := None;
     Jobs.seniority := None; Jobs.location_type := None;
     Jobs.locations := None; Jobs.skills := None;
     Jobs.min_salary := None; Jobs.max_salary := None;
     Jobs.employment_type := None; Jobs.posted_at := None;
     Jobs.freshness_score := None; Jobs.embedding := None;
     Jobs.is_active := Some true; Jobs.created_at := Some 0;
     Jobs.updated_at := Some 0 |}.

Definition job_with (i : uuid) (active : option bool) (e : option vector) : Jobs.row :=
  let j := plain_job i "https://example.org/jobs" in
  {| Jobs.id := i; Jobs.company_id := None; Jobs.raw_job_id := None;
     Jobs.title := Jobs.title j; Jobs.description := None;
     Jobs.source_url := Jobs.source_url j;
     Jobs.role_family := Jobs.role_family j; Jobs.role_specialization := None;
     Jobs.seniority := None; Jobs.location_type := None;
     Jobs.locations := None; Jobs.skills := None;
     Jobs.min_salary := None; Jobs.max_salary := None;
     Jobs.employment_type := None; Jobs.posted_at := None;
     Jobs.freshness_score := None; Jobs.embedding := e;
     Jobs.is_active := active; Jobs.created_at := Some 0;
     Jobs.updated_at := Some 0 |}.

(** A job whose salary bounds are the wrong way round, and one whose
    bounds are in order. *)
Definition job_with_salaries (i : uuid) (lo hi : option Z) : Jobs.row :=
  let j := plain_job i "https://example.org/jobs" in
  {| Jobs.id := i; Jobs.company_id := None; Jobs.raw_job_id := None;
     Jobs.title := Jobs.title j; Jobs.description := None;
     Jobs.source_url := Jobs.source_url j;
     Jobs.role_family := Jobs.role_family j; Jobs.role_specialization := None;
     Jobs.seniority := None; Jobs.location_type := None;
     Jobs.locations := None; Jobs.skills := None;
     Jobs.min_salary := lo; Jobs.max_salary := hi;
     Jobs.employment_type := None; Jobs.posted_at := None;
     Jobs.freshness_score := None; Jobs.embedding := None;
     Jobs.is_active := Some true; Jobs.created_at := Some 0;
     Jobs.updated_at := Some 0 |}.

Definition inverted_job : Jobs.row :=
  job_with_salaries 1%N (Some 200000) (Some 100000).

Definition ordered_job : Jobs.row :=
  job_with_salaries 1%N (Some 100000) (Some 200000).

(** A job embedded in 384 dimensions, and one embedded in three. *)
Definition embedded_job : Jobs.row :=
  job_with 1%N (Some true) (Some (repeat 0%Q 384)).

Definition short_embedded_job : Jobs.row :=
  job_with 2%N (Some true) (Some [1; 0; 0]%Q).

(** A candidate profile embedded in 384 dimensions. *)
Definition embedded_profile : CandidateProfiles.row :=
  {| CandidateProfiles.id := 1%N; CandidateProfiles.waitlist_id := None;
     CandidateProfiles.email := "ada@example.org";
     CandidateProfiles.name := None; CandidateProfiles.role_families := None;
     CandidateProfiles.seniority := None; CandidateProfiles.min_salary := None;
     CandidateProfiles.locations := None;
     CandidateProfiles.location_types := Some ["remote"%string];
     CandidateProfiles.role_types := None; CandidateProfiles.skills := None;
     CandidateProfiles.exclusions := None;
     CandidateProfiles.embedding := Some (repeat 0%Q 384);
     CandidateProfiles.last_matched_at := None;
     CandidateProfiles.last_notified_at := None;
     CandidateProfiles.is_active := Some true;
     CandidateProfiles.created_at := Some 0;
     CandidateProfiles.updated_at := Some 0 |}.

(** Two matches for job 7 that name no candidate, and two that name
    candidate 3. *)
Definition match_of (i : uuid) (c j : option uuid) : Matches.row :=
  {| Matches.id := i; Matches.candidate_id := c; Matches.job_id := j;
     Matches.score := 1 # 2; Matches.hard_match := Some false;
     Matches.match_reasons := None; Matches.shown_at := None;
     Matches.clicked_at := None; Matches.applied_at := None;
     Matches.dismissed_at := None; Matches.created_at := Some 0 |}.

Definition orphan_matches : Matches.table :=
  [match_of 1%N None (Some 7%N); match_of 2%N None (Some 7%N)].

Definition first_match : Matches.row := match_of 1%N (Some 3%N) (Some 7%N).
Definition second_match : Matches.row := match_of 2%N (Some 3%N) (Some 7%N).

(** Queue items, and a queue in which the second item created is the
    oldest one still pending. *)
Definition queue_item (i : uuid) (created : timestamptz)
           (st : DiscoveryQueue.status_value) (retries : Z) : DiscoveryQueue.row :=
  {| DiscoveryQueue.id := i; DiscoveryQueue.name := "Acme";
     DiscoveryQueue.domain := Some "acme.test"%string;
     DiscoveryQueue.careers_url := None; DiscoveryQueue.website_url := None;
     DiscoveryQueue.source := "seed"; DiscoveryQueue.source_url := None;
     DiscoveryQueue.location := None; DiscoveryQueue.country := None;
     DiscoveryQueue.description := None; DiscoveryQueue.industry := None;
     DiscoveryQueue.employee_count := None; DiscoveryQueue.funding_stage := None;
     DiscoveryQueue.ats_type := None; DiscoveryQueue.ats_identifier := None;
     DiscoveryQueue.status := Some st; DiscoveryQueue.error_message := None;
     DiscoveryQueue.retry_count := Some retries;
     DiscoveryQueue.created_at := Some created;
     DiscoveryQueue.processed_at := None; DiscoveryQueue.company_id := None |}.

Definition small_queue : DiscoveryQueue.table :=
  [ queue_item 1%N 30 DiscoveryQueue.pending 0;
    queue_item 2%N 10 DiscoveryQueue.completed 0;
    queue_item 3%N 20 DiscoveryQueue.pending 0 ].

Definition four_failures : list (timestamptz * option string) :=
  [ (100, Some "timeout"%string); (200, Some "timeout"%string);
    (300, Some "timeout"%string); (400, Some "timeout"%string) ].

Definition five_failures : list (timestamptz * option string) :=
  four_failures ++ [ (500, Some "timeout"%string) ].

(** A pending item with a retry count of the writer's choosing: NULL,
    or any integer. *)
Definition counted_item (i : uuid) (retries : option Z) : DiscoveryQueue.row :=
  {| DiscoveryQueue.id := i; DiscoveryQueue.name := "Acme";
     DiscoveryQueue.domain := Some "acme.test"%string;
     DiscoveryQueue.careers_url := None; DiscoveryQueue.website_url := None;
     DiscoveryQueue.source := "seed"; DiscoveryQueue.source_url := None;
     DiscoveryQueue.location := None; DiscoveryQueue.country := None;
     DiscoveryQueue.description := None; DiscoveryQueue.industry := None;
     DiscoveryQueue.employee_count := None; DiscoveryQueue.funding_stage := None;
     DiscoveryQueue.ats_type := None; DiscoveryQueue.ats_identifier := None;
     DiscoveryQueue.status := Some DiscoveryQueue.pending;
     DiscoveryQueue.error_message := None;
     DiscoveryQueue.retry_count := retries;
     DiscoveryQueue.created_at := Some 0;
     DiscoveryQueue.processed_at := None; DiscoveryQueue.company_id := None |}.

(** The same company found twice by the same source, the second time
    with a country and a head count, and without a location. *)
Definition acme_first : DiscoveryIntake.candidate :=
  {| DiscoveryIntake.c_name := "Acme";
     DiscoveryIntake.c_domain := Some "acme.test"%string;
     DiscoveryIntake.c_careers_url := None;
     DiscoveryIntake.c_website_url := None;
     DiscoveryIntake.c_location := Some "Berlin"%string;
     DiscoveryIntake.c_country := None;
     DiscoveryIntake.c_industry := Some "tools"%string;
     DiscoveryIntake.c_employee_count := None;
     DiscoveryIntake.c_funding_stage := None;
     DiscoveryIntake.c_source := "seed" |}.

Definition acme_second : DiscoveryIntake.candidate :=
  {| DiscoveryIntake.c_name := "Acme Inc.";
     DiscoveryIntake.c_domain := Some "acme.test"%string;
     DiscoveryIntake.c_careers_url := None;
     DiscoveryIntake.c_website_url := None;
     DiscoveryIntake.c_location := None;
     DiscoveryIntake.c_country := Some "DE"%string;
     DiscoveryIntake.c_industry := Some "hardware"%string;
     DiscoveryIntake.c_employee_count := Some 40;
     DiscoveryIntake.c_funding_stage := None;
     DiscoveryIntake.c_source := "seed" |}.

(** A vector of the declared dimension that lies in the plane of the
    first two axes, and the zero vector. *)
Definition in_plane (x y : Q) : vector := x :: y :: repeat 0%Q 382.

Definition zero_vector : vector := repeat 0%Q 384.

(** The cosine distance of two vectors that have length one or are
    zero: one minus their inner product, and NaN, the quotient of zero
    by zero, when one of them is the zero vector. *)
Definition is_zero_vector (v : vector) : bool := forallb (fun x => Qeq_bool x 0%Q) v.

Definition unit_cosine_distance (a b : vector) : float8 :=
  if is_zero_vector a || is_zero_vector b then NaN
  else Finite (1 - foldr Qplus 0 (zip_with Qmult a b))%Q.

(** Five jobs embedded in that plane: two active ones near the first
    axis, an active one on the second axis, an inactive one, one not
    embedded. *)
Definition plane_jobs : Jobs.table :=
  [ job_with 1%N (Some true) (Some (in_plane 0 1));
    job_with 2%N (Some true) (Some (in_plane (3 # 5) (4 # 5)));
    job_with 3%N (Some false) (Some (in_plane 1 0));
    job_with 4%N (Some true) None;
    job_with 5%N (Some true) (Some (in_plane 1 0)) ]%Q.

Definition plane_rows : list (uuid * float8) :=
  Eval vm_compute in
    match HuntFunctions.find_similar_jobs unit_cosine_distance
            HuntFunctions.sequential_scan plane_jobs
            (Some (in_plane 1 0)%Q) (Some 10) (Some (Finite (1 # 2))) with
    | Ok rows => rows
    | Raise _ => []
    end.

(** An index scan that misses the second job. *)
Definition misses_second_job : option vector -> Jobs.table -> Jobs.row -> bool :=
  fun _ _ j => negb (N.eqb (Jobs.id j) 2).

(** The steps of double precision where they are exact: a quotient of
    numerics that comes out even, a numeric that is a whole number, a
    quotient of two doubles that is a whole number, and a power of one
    half with a whole exponent, which is a double down to 2^-1074 and
    rounds to zero beyond. Elsewhere they are not meant. *)
Definition exact_numeric_div (a b : Q) : Q := Qred (a / b).

Definition exact_numeric_to_float8 (q : Q) : float8 := Finite q.

Definition exact_float8_div (x y : float8) : float8 :=
  match x, y with
  | Finite a, Finite b => Finite (Qred (a / b))
  | _, _ => NaN
  end.

Definition pow_of_half (x y : float8) : float8 :=
  match x, y with
  | Finite b, Finite e =>
      if Qeq_bool b (1 # 2) && (0 <=? Qnum e) && (Qden e =? 1)%positive then
        if Qnum e <=? 1074 then Finite (Qred (Qpower (1 # 2) (Qnum e)))
        else Finite 0%Q
      else NaN
  | _, _ => NaN
  end.

(** A day in microseconds. *)
Definition day : Z := 86400000000.

(** A company that is in the table with its domain, inactive. *)
Definition acme_company : Companies.row :=
  {| Companies.id := 1%N; Companies.name := "Acme";
     Companies.domain := Some "acme.test"%string;
     Companies.careers_url := None; Companies.ats_type := None;
     Companies.ats_identifier := None; Companies.crawl_priority := Some 50;
     Companies.last_crawled_at := Some 5; Companies.is_active := Some false;
     Companies.created_at := Some 0;
     Companies.website_url := None; Companies.discovery_source := None;
     Companies.discovered_at := None; Companies.country := Some "DE"%string;
     Companies.location := None; Companies.description := None;
     Companies.industry := None; Companies.employee_count := None;
     Companies.funding_stage := None; Companies.last_maintenance_at := None;
     Companies.crawl_attempts := Some 0 |}.

(** Three jobs, two of them of the company above: an active one and
    an inactive one; the third has no company. A match for the first. *)
Definition job_at (i : uuid) (company : option uuid) (active : option bool) : Jobs.row :=
  {| Jobs.id := i; Jobs.company_id := company; Jobs.raw_job_id := None;
     Jobs.title := "Engineer"; Jobs.description := None;
     Jobs.source_url := "https://acme.test/jobs";
     Jobs.role_family := "software_engineering"; Jobs.role_specialization := None;
     Jobs.seniority := None; Jobs.location_type := None;
     Jobs.locations := None; Jobs.skills := None;
     Jobs.min_salary := None; Jobs.max_salary := None;
     Jobs.employment_type := None; Jobs.posted_at := None;
     Jobs.freshness_score := None; Jobs.embedding := None;
     Jobs.is_active := active; Jobs.created_at := Some 0;
     Jobs.updated_at := Some 0 |}.

Definition acme_jobs : Jobs.table :=
  [ job_at 11%N (Some 1%N) (Some true);
    job_at 12%N (Some 1%N) (Some false);
    job_at 13%N None (Some true) ].

Definition acme_match : Matches.row := match_of 1%N (Some 3%N) (Some 11%N).

(** A second company, active, and the table that holds both. *)
Definition globex_company : Companies.row :=
  {| Companies.id := 2%N; Companies.name := "Globex";
     Companies.domain := Some "globex.test"%string;
     Companies.careers_url := Some "https://globex.test/careers"%string;
     Companies.ats_type := Some "lever"%string;
     Companies.ats_identifier := Some "globex"%string;
     Companies.crawl_priority := Some 70;
     Companies.last_crawled_at := None; Companies.is_active := Some true;
     Companies.created_at := Some 0;
     Companies.website_url := None; Companies.discovery_source := None;
     Companies.discovered_at := None; Companies.country := None;
     Companies.location := None; Companies.description := None;
     Companies.industry := None; Companies.employee_count := None;
     Companies.funding_stage := None; Companies.last_maintenance_at := None;
     Companies.crawl_attempts := Some 0 |}.

Definition two_companies : Companies.table := [acme_company; globex_company].

(** That table after the first company has been seeded again, under a
    new name and with its careers page. *)
Definition two_companies_reseeded : Companies.table :=
  <[0%nat := Companies.do_update
               (Companies.proposed 3%N 10 "Acme Inc." (Some "acme.test"%string)
                  (Some "https://acme.test/careers"%string)
                  (Some "greenhouse"%string) (Some "acme"%string) (Some 80))
               acme_company]> two_companies.

(** A catalogue of five jobs, each at a URL of its own: two active
    jobs and an inactive one of the active company, an active job of
    the inactive company, and an active job without a company. *)
Definition job_of (i : uuid) (company : option uuid) (url : string)
           (active : option bool) : Jobs.row :=
  {| Jobs.id := i; Jobs.company_id := company; Jobs.raw_job_id := None;
     Jobs.title := "Engineer"; Jobs.description := None; Jobs.source_url := url;
     Jobs.role_family := "software_engineering"; Jobs.role_specialization := None;
     Jobs.seniority := None; Jobs.location_type := None;
     Jobs.locations := None; Jobs.skills := None;
     Jobs.min_salary := None; Jobs.max_salary := None;
     Jobs.employment_type := None; Jobs.posted_at := None;
     Jobs.freshness_score := None; Jobs.embedding := None;
     Jobs.is_active := active; Jobs.created_at := Some 0;
     Jobs.updated_at := Some 0 |}.

Definition catalogue : Jobs.table :=
  [ job_of 21%N (Some 2%N) "https://globex.test/jobs/1" (Some true);
    job_of 22%N (Some 2%N) "https://globex.test/jobs/2" (Some true);
    job_of 23%N (Some 2%N) "https://globex.test/jobs/3" (Some false);
    job_of 24%N (Some 1%N) "https://acme.test/jobs/1" (Some true);
    job_of 25%N None "https://example.org/jobs/1" (Some true) ].

(** Two candidate profiles, each linked to a waitlist entry of its own. *)
Definition profile_of (i : uuid) (w : option uuid) (e : string)
  : CandidateProfiles.row :=
  {| CandidateProfiles.id := i; CandidateProfiles.waitlist_id := w;
     CandidateProfiles.email := e;
     CandidateProfiles.name := None; CandidateProfiles.role_families := None;
     CandidateProfiles.seniority := None; CandidateProfiles.min_salary := None;
     CandidateProfiles.locations := None;
     CandidateProfiles.location_types := Some ["remote"%string];
     CandidateProfiles.role_types := None; CandidateProfiles.skills := None;
     CandidateProfiles.exclusions := None;
     CandidateProfiles.embedding := None;
     CandidateProfiles.last_matched_at := None;
     CandidateProfiles.last_notified_at := None;
     CandidateProfiles.is_active := Some true;
     CandidateProfiles.created_at := Some 0;
     CandidateProfiles.updated_at := Some 0 |}.

Definition two_profiles : CandidateProfiles.table :=
  [ profile_of 1%N (Some 1%N) "ada@example.org";
    profile_of 2%N (Some 2%N) "grace@example.org" ].

End Samples.

(** * Properties *)

(** ** Lists and the error monad *)

Module ListFacts.

Lemma and_then_Ok {A B} (m : result A) (k : A -> result B) b :
  and_then m k = Ok b -> exists a, m = Ok a /\ k a = Ok b.
Proof. destruct m as [a|e]; simpl; [eauto | discriminate]. Qed.

Lemma for_each_Ok {A B} (f : A -> result B) l ys :
  for_each f l = Ok ys -> Forall2 (fun x y => f x = Ok y) l ys.
Proof.
  revert ys. induction l as [|x l IH]; intros ys H; simpl in H.
  - injection H as <-. constructor.
  - apply and_then_Ok in H as (y & Hy & H).
    apply and_then_Ok in H as (ys' & Hys & H).
    injection H as <-. constructor; auto.
Qed.


(** The row at position [k], what replacing it and what removing it
    make of the list. *)
Lemma split_at {A} (t : list A) k old :
  t !! k = Some old ->
  exists l1 l2, t = l1 ++ old :: l2 /\
                (forall new, <[k := new]> t = l1 ++ new :: l2) /\
                delete k t = l1 ++ l2.
Proof.
  intros Hk. exists (take k t), (drop (S k) t).
  assert (Hlt : (k < length t)%nat) by (eapply lookup_lt_Some; eauto).
  split_and!.
  - by rewrite take_drop_middle.
  - intros new. by apply insert_take_drop.
  - by apply delete_take_drop.
Qed.

Lemma for_each_app {A B} (f : A -> result B) l1 l2 ys1 ys2 :
  for_each f l1 = Ok ys1 -> for_each f l2 = Ok ys2 ->
  for_each f (l1 ++ l2) = Ok (ys1 ++ ys2).
Proof.
  revert ys1. induction l1 as [|x l1 IH]; intros ys1 H1 H2; simpl in *.
  - by injection H1 as <-.
  - destruct (f x) as [y|]; [|discriminate]. simpl in *.
    destruct (for_each f l1) as [ys|]; [|discriminate]. simpl in *.
    injection H1 as <-. by rewrite (IH ys eq_refl H2).
Qed.

Lemma for_each_id {A} (f : A -> result A) l :
  Forall (fun x => f x = Ok x) l -> for_each f l = Ok l.
Proof.
  induction 1 as [|x l Hx _ IH]; simpl; [done|]. by rewrite Hx, IH.
Qed.

Lemma filter_none {A} (P : A -> Prop) `{!forall x, Decision (P x)} (l : list A) :
  Forall (fun x => ~ P x) l -> filter P l = [].
Proof.
  induction 1 as [|x l Hx _ IH]; [done|]. by rewrite filter_cons_False.
Qed.

Lemma list_find_fresh {A} (P : A -> Prop) `{!forall x, Decision (P x)} (l : list A) :
  Forall (fun x => ~ P x) l -> list_find P l = None.
Proof. apply list_find_None. Qed.

(** The least element of a sorted list comes first. *)
Lemma head_order_by {A} (R : relation A) `{!RelDecision R}
      `{!Reflexive R} `{!Transitive R} `{!Total R} (l : list A) x :
  head (order_by R l) = Some x -> x ∈ l /\ forall y, y ∈ l -> R x y.
Proof.
  unfold order_by. intros Hhead.
  pose proof (StronglySorted_merge_sort R l) as Hsorted.
  pose proof (merge_sort_Permutation R l) as Hperm.
  destruct (merge_sort R l) as [|z rest]; [discriminate|].
  injection Hhead as ->. split.
  - rewrite <- Hperm. apply list_elem_of_here.
  - intros y Hy. rewrite <- Hperm in Hy.
    apply StronglySorted_cons in Hsorted as [Hall _].
    apply elem_of_cons in Hy as [->|Hy]; [reflexivity|].
    by eapply Forall_forall in Hall.
Qed.

Lemma head_order_by_None {A} (R : relation A) `{!RelDecision R} (l : list A) :
  head (order_by R l) = None -> l = [].
Proof.
  unfold order_by. intros Hhead.
  pose proof (merge_sort_Permutation R l) as Hperm.
  destruct (merge_sort R l); [|discriminate].
  by apply Permutation_nil_l in Hperm.
Qed.

Lemma omap_middle {A B} (f : A -> option B) (l1 l2 : list A) x :
  omap f (l1 ++ x :: l2) ≡ₚ omap f [x] ++ omap f (l1 ++ l2).
Proof.
  rewrite !omap_app. change (x :: l2) with ([x] ++ l2). rewrite omap_app.
  rewrite !(assoc_L (++)). f_equiv. apply (comm (++)).
Qed.

Lemma NoDup_omap_filter {A B} (f : A -> option B) (P : A -> Prop)
      `{!forall x, Decision (P x)} (l : list A) :
  NoDup (omap f l) -> NoDup (omap f (filter P l)).
Proof.
  induction l as [|x l IH]; [done|]. intros Hnd.
  assert (Hsub : forall y, y ∈ omap f (filter P l) -> y ∈ omap f l).
  { intros y (z & [_ Hz]%list_elem_of_filter & Hy)%list_elem_of_omap.
    apply list_elem_of_omap. eauto. }
  destruct (decide (P x)) as [HP|HP].
  - rewrite filter_cons_True by done. simpl in *.
    destruct (f x) as [y|]; [|auto].
    apply NoDup_cons in Hnd as [Hy Hnd]. apply NoDup_cons. split; auto.
  - rewrite filter_cons_False by done. simpl in Hnd.
    destruct (f x) as [y|]; [|auto].
    apply NoDup_cons in Hnd as [_ Hnd]. auto.
Qed.

Lemma StronglySorted_take {A} (R : relation A) k (l : list A) :
  StronglySorted R l -> StronglySorted R (take k l).
Proof.
  intros H. rewrite <- (take_drop k l) in H.
  by apply StronglySorted_app in H as (_ & H & _).
Qed.

End ListFacts.

(** ** Facts about the waitlist and its form *)

Module WaitlistFacts.
Import Waitlist WaitlistForm Samples.

Lemma has_email_spec t e :
  has_email t e = true <-> exists r, r ∈ t /\ email r = e.
Proof.
  unfold has_email. rewrite existsb_exists. split.
  - intros (r & Hin & Heq). exists r. split; [by apply list_elem_of_In|].
    by apply String.eqb_eq.
  - intros (r & Hin & Heq). exists r. split; [by apply list_elem_of_In|].
    by apply String.eqb_eq.
Qed.

Lemma has_id_spec t i :
  has_id t i = true <-> exists r, r ∈ t /\ id r = i.
Proof.
  unfold has_id. rewrite existsb_exists. split.
  - intros (r & Hin & Heq). exists r. split; [by apply list_elem_of_In|].
    by apply N.eqb_eq.
  - intros (r & Hin & Heq). exists r. split; [by apply list_elem_of_In|].
    by apply N.eqb_eq.
Qed.

(** An email that is already there makes the insert raise: 23505 when
    the statement gets as far as the unique index. *)
Lemma insert_existing_email can_read_back gen_id now n e t :
  has_email t e = true ->
  insert can_read_back gen_id now (Some n) (Some e) t
    = Raise (if can_read_back then unique_violation else insufficient_privilege).
Proof.
  intros He. unfold insert. destruct can_read_back; simpl; [|done].
  rewrite He. by destruct (has_id t gen_id).
Qed.

(** The two unique indexes hold of every table built by [insert]. *)
Lemma insert_keeps_keys_unique can_read_back gen_id now n e t :
  keys_unique t ->
  keys_unique (table_after t (insert can_read_back gen_id now n e t)).
Proof.
  intros [Hid Hem]. unfold insert.
  destruct can_read_back; [|done]. simpl.
  destruct n as [n|]; [|done]. destruct e as [e|]; [|done].
  destruct (has_id t gen_id) eqn:Hi; [done|].
  destruct (has_email t e) eqn:He; [done|].
  simpl. unfold keys_unique. rewrite !fmap_app. simpl. split.
  - apply NoDup_app. split_and!; [done| |apply NoDup_singleton].
    intros i Hin ->%list_elem_of_singleton.
    apply list_elem_of_fmap in Hin as (r & Hr & Hin).
    assert (has_id t gen_id = true) by (apply has_id_spec; eauto).
    congruence.
  - apply NoDup_app. split_and!; [done| |apply NoDup_singleton].
    intros i Hin ->%list_elem_of_singleton.
    apply list_elem_of_fmap in Hin as (r & Hr & Hin).
    assert (has_email t e = true) by (apply has_email_spec; eauto).
    congruence.
Qed.

(** When the submitted email is already on the waitlist, the insert
    raises, [handleSubmit] does not call [onSuccess], and the table
    stays as it was, so that no further row carries that email. For a
    client whose role may read the row back, what the insert raises is
    the unique violation, code 23505, and [handleSubmit] ends with the
    message 'This email is already on the waitlist!'. *)
Lemma duplicate_email_is_reported can_read_back gen_id now (t : table) (f : form) :
  (exists r, r ∈ t /\ email r = email_input f) ->
  (exists e, insert can_read_back gen_id now
                    (Some (name_input f)) (Some (email_input f)) t = Raise e) /\
  (handleSubmit can_read_back gen_id now t f).1 = t /\
  count_email (handleSubmit can_read_back gen_id now t f).1 (email_input f)
    = count_email t (email_input f) /\
  onSuccess_calls (handleSubmit can_read_back gen_id now t f).2 = onSuccess_calls f /\
  isLoading (handleSubmit can_read_back gen_id now t f).2 = false /\
  (can_read_back = true ->
   insert can_read_back gen_id now (Some (name_input f)) (Some (email_input f)) t
     = Raise unique_violation /\
   sqlstate_code unique_violation = "23505" /\
   error_message (handleSubmit can_read_back gen_id now t f).2
     = "This email is already on the waitlist!").
Proof.
  intros Hex. apply has_email_spec in Hex.
  pose proof (insert_existing_email can_read_back gen_id now (name_input f) _ t Hex)
    as Hins.
  unfold handleSubmit. cbn [name_input email_input setIsLoading setError fst snd].
  rewrite Hins.
  destruct can_read_back; split_and!; eauto;
    first [discriminate | intros _; split_and!; reflexivity].
Qed.

Lemma count_email_absent t e : has_email t e = false -> count_email t e = 0%nat.
Proof.
  unfold count_email, has_email. induction t as [|r t IH]; [done|].
  intros H. simpl in H. apply orb_false_elim in H as [Hr Ht].
  apply String.eqb_neq in Hr.
  rewrite filter_cons_False by done. by apply IH.
Qed.

(** A new email, by contrast, reaches [onSuccess] with the new id. *)
Lemma new_email_succeeds gen_id now (t : table) (f : form) :
  has_id t gen_id = false -> has_email t (email_input f) = false ->
  onSuccess_calls (handleSubmit true gen_id now t f).2 = onSuccess_calls f ++ [gen_id] /\
  error_message (handleSubmit true gen_id now t f).2 = "" /\
  count_email (handleSubmit true gen_id now t f).1 (email_input f) = 1%nat.
Proof.
  intros Hi He.
  set (r := {| id := gen_id; name := name_input f; email := email_input f;
               created_at := Some now |}).
  assert (Hrun : handleSubmit true gen_id now t f =
                 (t ++ [r], setIsLoading false (onSuccess gen_id
                              (setIsLoading true (setError "" f))))).
  { unfold handleSubmit, insert.
    cbn [name_input email_input setIsLoading setError negb].
    rewrite Hi, He. reflexivity. }
  rewrite Hrun. split_and!; [reflexivity..|].
  cbn [fst]. unfold count_email. rewrite filter_app, length_app.
  fold (count_email t (email_input f)). rewrite count_email_absent by done.
  rewrite filter_cons_True by done. reflexivity.
Qed.

(** A role that may not read the row back gets the generic message,
    whatever the email. *)
Lemma unreadable_row_generic_message gen_id now (t : table) (f : form) :
  error_message (handleSubmit false gen_id now t f).2 = msg_generic /\
  (handleSubmit false gen_id now t f).1 = t.
Proof. split; reflexivity. Qed.

(** C9, on the code. The form's client is the anon role, which may
    insert into the waitlist and not read it. Its INSERT ... RETURNING
    is stopped by row-level security before the unique index on the
    email is looked at: a submission of an email that is on the
    waitlist fails with the code 42501, not 23505, and [handleSubmit]
    shows 'Something went wrong. Please try again.' where the branch
    for 23505, which shows 'This email is already on the waitlist!',
    is never reached. [onSuccess] is not called and no second row is
    stored. It is so for every table and every submission. *)
Theorem duplicate_email_gets_generic_message :
  (exists r, r ∈ [ada] /\ email r = email_input ada_again) /\
  insert anon_can_read_back 2%N 10 (Some (name_input ada_again))
         (Some (email_input ada_again)) [ada]
    = Raise insufficient_privilege /\
  sqlstate_code insufficient_privilege = "42501"%string /\
  error_message (handleSubmit anon_can_read_back 2%N 10 [ada] ada_again).2
    = "Something went wrong. Please try again."%string /\
  onSuccess_calls (handleSubmit anon_can_read_back 2%N 10 [ada] ada_again).2 = [] /\
  (handleSubmit anon_can_read_back 2%N 10 [ada] ada_again).1 = [ada] /\
  (forall gen_id now (t : table) (f : form),
     insert anon_can_read_back gen_id now (Some (name_input f))
            (Some (email_input f)) t
       = Raise insufficient_privilege /\
     error_message (handleSubmit anon_can_read_back gen_id now t f).2 = msg_generic /\
     onSuccess_calls (handleSubmit anon_can_read_back gen_id now t f).2
       = onSuccess_calls f /\
     (handleSubmit anon_can_read_back gen_id now t f).1 = t) /\
  (forall f, error_message (after_response (respond (Raise unique_violation)) f)
             = msg_duplicate).
Proof.
  split_and!; try reflexivity.
  - exists ada. split; [apply list_elem_of_here | reflexivity].
  - intros gen_id now t f. split_and!; reflexivity.
Qed.

End WaitlistFacts.

(** ** Facts about the jobs table *)

Module JobsFacts.
Import Pgvector Jobs.

(** What [check_row] has checked of a row it lets through. *)
Lemma jobs_check_row_Ok companies raw_jobs others new r :
  check_row companies raw_jobs others new = Ok r ->
  r = new /\ embedding_has_dim EMBEDDING_DIM (embedding new) /\
  integers_fit new = true /\ checks_pass new = true /\
  existsb (collides new) others = false.
Proof.
  unfold check_row, coerce_vector, embedding_has_dim.
  destruct (embedding new) as [v|]; simpl.
  - destruct (vector_dims v =? EMBEDDING_DIM) eqn:Hd; simpl; [|discriminate].
    destruct (integers_fit new); simpl; [|discriminate].
    destruct (checks_pass new); simpl; [|discriminate].
    destruct (existsb _ _); simpl; [discriminate|].
    destruct (_ && _); simpl; [|discriminate].
    intros [= <-]. split_and!; try done. by apply Z.eqb_eq.
  - destruct (integers_fit new); simpl; [|discriminate].
    destruct (checks_pass new); simpl; [|discriminate].
    destruct (existsb _ _); simpl; [discriminate|].
    destruct (_ && _); simpl; [|discriminate].
    intros [= <-]. done.
Qed.

(** An embedding of another dimension is not let through. *)
Lemma jobs_wrong_dimension companies raw_jobs others new v :
  embedding new = Some v -> vector_dims v <> EMBEDDING_DIM ->
  check_row companies raw_jobs others new = Raise data_exception.
Proof.
  intros He Hd. unfold check_row, coerce_vector. rewrite He.
  apply Z.eqb_neq in Hd. by rewrite Hd.
Qed.

(** Induction over the states of the table, for properties of single
    rows. *)
Lemma reachable_with_Forall (W P : row -> Prop) :
  (forall companies raw_jobs others new,
     W new -> check_row companies raw_jobs others new = Ok new -> P new) ->
  (forall now companies raw_jobs others new,
     W new ->
     check_row companies raw_jobs others (update_updated_at_column now new)
       = Ok (update_updated_at_column now new) ->
     P (update_updated_at_column now new)) ->
  (forall now r, P r -> P (clear_raw_job now r)) ->
  forall t, reachable_with W t -> Forall P t.
Proof.
  intros Hins Hupd Hclear t. induction 1 as
    [ | t companies raw_jobs new t' _ IH HW Hrun
      | t now companies raw_jobs i new t' _ IH HW Hrun
      | t i _ IH | t c _ IH | t now x _ IH ].
  - constructor.
  - unfold insert in Hrun.
    destruct (check_row companies raw_jobs t new) as [r|] eqn:Hadm; [|discriminate].
    injection Hrun as <-. pose proof (jobs_check_row_Ok _ _ _ _ _ Hadm) as [-> _].
    apply Forall_app. split; [done|]. repeat constructor. eauto.
  - unfold update in Hrun.
    destruct (list_find _ t) as [[k old]|]; [|by injection Hrun as <-].
    destruct (check_row _ _ _ _) as [r|] eqn:Hadm; [|discriminate].
    injection Hrun as <-. pose proof (jobs_check_row_Ok _ _ _ _ _ Hadm) as [-> _].
    apply Forall_insert; eauto.
  - apply Forall_forall. intros r [_ Hr]%list_elem_of_filter.
    by eapply Forall_forall in IH.
  - apply Forall_forall. intros r [_ Hr]%list_elem_of_filter.
    by eapply Forall_forall in IH.
  - unfold on_raw_job_deleted. apply Forall_fmap.
    eapply Forall_impl; [exact IH|]. intros r Hr. simpl.
    destruct (decide _); auto.
Qed.

Lemma reachable_with_weaken (W : row -> Prop) t :
  reachable_with W t -> reachable t.
Proof.
  unfold reachable. induction 1.
  - apply reach_empty.
  - by eapply reach_insert.
  - by eapply reach_update.
  - by apply reach_delete.
  - by apply reach_company_deleted.
  - by apply reach_raw_job_deleted.
Qed.

(** Every stored embedding has 384 components. *)
Lemma jobs_embedding_dim t :
  reachable t -> Forall (fun r => embedding_has_dim EMBEDDING_DIM (embedding r)) t.
Proof.
  apply reachable_with_Forall.
  - intros companies raw_jobs others new _ Hadm. by apply jobs_check_row_Ok in Hadm as (_ & ? & _).
  - intros now companies raw_jobs others new _ Hadm.
    by apply jobs_check_row_Ok in Hadm as (_ & ? & _).
  - intros now r Hr. exact Hr.
Qed.

(** Counterexample to C3 as stated: the table takes a job whose lower
    salary bound exceeds the upper one. *)
Lemma salary_order_not_enforced :
  insert [] [] Samples.inverted_job [] = Ok [Samples.inverted_job] /\
  reachable [Samples.inverted_job] /\
  ~ Forall salary_ordered [Samples.inverted_job].
Proof.
  assert (Hins : insert [] [] Samples.inverted_job [] = Ok [Samples.inverted_job])
    by (vm_compute; reflexivity).
  split_and!; [exact Hins | |].
  - exact (reach_insert _ [] [] [] Samples.inverted_job _ (reach_empty _) I Hins).
  - intros H. apply Forall_inv in H. unfold salary_ordered in H. simpl in H. lia.
Qed.

(** C3, as the table has it. The schema puts no constraint on the two
    salary columns together; the order of the bounds is kept whenever
    every row written by an insert or an update has its bounds in
    order: then every row of every state has min_salary absent,
    max_salary absent, or min_salary <= max_salary. *)
Theorem salary_order_kept_by_ordered_writes (t : table) :
  reachable_with salary_ordered t -> Forall salary_ordered t.
Proof.
  apply reachable_with_Forall.
  - intros; assumption.
  - intros now companies raw_jobs others new Hnew _. exact Hnew.
  - intros now r Hr. exact Hr.
Qed.

Lemma salary_order_kept_by_ordered_writes_witness :
  reachable_with salary_ordered [Samples.ordered_job] /\
  Forall salary_ordered [Samples.ordered_job].
Proof.
  assert (H : reachable_with salary_ordered [Samples.ordered_job]).
  { apply reach_insert with (t := []) (companies := []) (raw_jobs := [])
                            (new := Samples.ordered_job);
      [apply reach_empty | | vm_compute; reflexivity].
    unfold salary_ordered. simpl. lia. }
  split; [exact H | exact (salary_order_kept_by_ordered_writes _ H)].
Defined.

End JobsFacts.

(** ** Facts about [find_similar_jobs] *)

Module SimilarityFacts.
Import Pgvector Jobs HuntFunctions ListFacts.

Ltac sql_simpl := cbn -[float8_mi float8_ge float8_le Z.eqb].

(** The server's order on [FLOAT]s is a total preorder. *)
Lemma float8_le_refl x : float8_le x x = true.
Proof. destruct x; simpl; try done. apply Qle_bool_iff, Qle_refl. Qed.

Lemma float8_le_trans x y z :
  float8_le x y = true -> float8_le y z = true -> float8_le x z = true.
Proof.
  destruct x, y, z; simpl; try done.
  rewrite !Qle_bool_iff. apply Qle_trans.
Qed.

Lemma float8_le_total x y : float8_le x y = true \/ float8_le y x = true.
Proof.
  destruct x as [a| | |], y as [b| | |]; simpl; auto.
  rewrite !Qle_bool_iff.
  destruct (Qlt_le_dec a b) as [H|H]; [left; by apply Qlt_le_weak | by right].
Qed.

(** NaN is at least every value; nothing but NaN is at least NaN. *)
Lemma float8_ge_NaN m : float8_ge NaN m = true.
Proof. by destruct m. Qed.

Lemma float8_le_NaN_inv x : float8_le NaN x = true -> x = NaN.
Proof. by destruct x. Qed.


(** A larger distance is a smaller similarity, and a distance that is
    NaN a similarity that is NaN. *)
Lemma similarity_antitone (d1 d2 : float8) :
  float8_le d1 d2 = true ->
  decreasing_nan_last (float8_mi (Finite 1) d1) (float8_mi (Finite 1) d2).
Proof.
  unfold decreasing_nan_last.
  destruct d1 as [a| | |], d2 as [b| | |]; simpl; intros H; try done;
    try (by left); try (by right).
  right. split; [done|]. apply Qle_bool_iff. apply Qle_bool_iff in H.
  apply Qplus_le_compat; [apply Qle_refl | by apply Qopp_le_compat].
Qed.

(** [LIMIT]. *)
Lemma row_count_Ok n count :
  row_count n = Ok count ->
  match n with
  | Some z => 0 <= z /\ count = Some (Z.to_nat z)
  | None => count = None
  end.
Proof.
  unfold row_count. destruct n as [z|].
  - destruct (z <? 0) eqn:Hz; [discriminate|]. intros [= <-]. split; [lia | done].
  - by intros [= <-].
Qed.

Lemma length_take_rows {A} count (l : list A) n :
  count = Some n -> (length (take_rows count l) <= n)%nat.
Proof. intros ->. simpl. rewrite length_take. lia. Qed.

Lemma elem_of_take_rows {A} count (l : list A) x :
  x ∈ take_rows count l -> x ∈ l.
Proof.
  destruct count as [k|]; simpl; [|done].
  intros (i & Hin%list_elem_of_lookup_2 & _)%elem_of_take. done.
Qed.

Section Similarity.
Variable cosine_distance : vector -> vector -> float8.
Variable probed : option vector -> table -> row -> bool.

#[local] Instance by_distance_trans : Transitive by_distance.
Proof. intros a b c. unfold by_distance. apply float8_le_trans. Qed.

#[local] Instance by_distance_total : Total by_distance.
Proof. intros a b. unfold by_distance. apply float8_le_total. Qed.

(** The rows the plan sees are rows of the table. *)
Lemma examined_spec target (jobs : table) j :
  j ∈ examined probed target jobs <-> j ∈ jobs /\ probed target jobs j = true.
Proof. unfold examined. rewrite list_elem_of_filter. tauto. Qed.

(** What passing the WHERE clause means for a row. *)
Lemma scan_job_Some target min_similarity j h :
  scan_job cosine_distance target min_similarity j = Ok (Some h) ->
  h.1 = j /\ is_active j = Some true /\
  exists e tg m,
    embedding j = Some e /\ target = Some tg /\ min_similarity = Some m /\
    vector_dims e = vector_dims tg /\
    h.2 = cosine_distance e tg /\
    float8_ge (float8_mi (Finite 1) h.2) m = true.
Proof.
  unfold scan_job, cosine_distance_op.
  destruct (is_active j) as [[|]|]; sql_simpl; try discriminate.
  destruct (embedding j) as [e|]; sql_simpl; [|discriminate].
  destruct target as [tg|]; sql_simpl; [|discriminate].
  destruct (vector_dims e =? vector_dims tg) eqn:Hdims; [|discriminate].
  destruct min_similarity as [m|]; [|discriminate]. sql_simpl.
  destruct (float8_ge (float8_mi (Finite 1) (cosine_distance e tg)) m) eqn:Hge;
    [|discriminate].
  intros [= <-]. sql_simpl. apply Z.eqb_eq in Hdims. eauto 12.
Qed.

(** And the other way round. *)
Lemma scan_job_passes j e tg m :
  is_active j = Some true -> embedding j = Some e ->
  vector_dims e = vector_dims tg ->
  float8_ge (float8_mi (Finite 1) (cosine_distance e tg)) m = true ->
  scan_job cosine_distance (Some tg) (Some m) j = Ok (Some (j, cosine_distance e tg)).
Proof.
  intros Hact He Hdims Hge. unfold scan_job, cosine_distance_op.
  rewrite Hact, He. sql_simpl.
  rewrite Hdims, Z.eqb_refl. sql_simpl. by rewrite Hge.
Qed.

(** The rows that come out of the scan are rows the plan has seen and
    that passed the WHERE clause. *)
Lemma scanned_hits (rows : table) target min_similarity scanned h :
  for_each (scan_job cosine_distance target min_similarity) rows = Ok scanned ->
  h ∈ omap (fun x => x) scanned ->
  exists j, j ∈ rows /\
            scan_job cosine_distance target min_similarity j = Ok (Some h).
Proof.
  intros Hscan%for_each_Ok Hin.
  apply list_elem_of_omap in Hin as (o & Hin & ->).
  apply list_elem_of_lookup in Hin as [k Hk].
  destruct (Forall2_lookup_r _ _ _ _ _ Hscan Hk) as (j & Hj & Hf).
  exists j. split; [|done]. apply list_elem_of_lookup. eauto.
Qed.

(** A row that passes the WHERE clause comes out of the scan. *)
Lemma passing_job_is_scanned (rows : table) target min_similarity scanned j h :
  for_each (scan_job cosine_distance target min_similarity) rows = Ok scanned ->
  j ∈ rows ->
  scan_job cosine_distance target min_similarity j = Ok (Some h) ->
  h ∈ omap (fun x => x) scanned.
Proof.
  intros Hscan%for_each_Ok Hj Hpass.
  apply list_elem_of_lookup in Hj as [k Hk].
  destruct (Forall2_lookup_l _ _ _ _ _ Hscan Hk) as (o & Ho & Hf).
  rewrite Hpass in Hf. injection Hf as <-.
  apply list_elem_of_omap. exists (Some h). split; [|done].
  apply list_elem_of_lookup. eauto.
Qed.

(** The two ways in which the function returns. *)
Lemma find_similar_jobs_Ok (jobs : table) target limit_count min_similarity rows :
  find_similar_jobs cosine_distance probed jobs target limit_count min_similarity
    = Ok rows ->
  exists count,
    row_count limit_count = Ok count /\
    ((count = Some 0%nat /\ rows = []) \/
     (count <> Some 0%nat /\
      exists scanned,
        for_each (scan_job cosine_distance target min_similarity)
                 (examined probed target jobs) = Ok scanned /\
        rows = select_columns
                 <$> take_rows count (order_by by_distance (omap (fun h => h) scanned)))).
Proof.
  unfold find_similar_jobs. intros H.
  apply and_then_Ok in H as (count & Hcount & H). exists count. split; [done|].
  destruct (bool_decide (count = Some 0%nat)) eqn:Hzero.
  - apply bool_decide_eq_true in Hzero. injection H as <-. by left.
  - apply bool_decide_eq_false in Hzero.
    apply and_then_Ok in H as (scanned & Hscan & H). injection H as <-.
    right. eauto.
Qed.

(** What the rows that come back are. *)
Lemma find_similar_jobs_rows (jobs : table) target limit_count min_similarity rows :
  find_similar_jobs cosine_distance probed jobs target limit_count min_similarity
    = Ok rows ->
  (forall job_id similarity, (job_id, similarity) ∈ rows ->
     exists j e tg m,
       j ∈ jobs /\ probed target jobs j = true /\ id j = job_id /\
       is_active j = Some true /\
       embedding j = Some e /\ target = Some tg /\
       similarity = float8_mi (Finite 1) (cosine_distance e tg) /\
       min_similarity = Some m /\ float8_ge similarity m = true) /\
  StronglySorted decreasing_nan_last rows.*2 /\
  (forall n, limit_count = Some n -> Z.of_nat (length rows) <= n).
Proof.
  intros H. apply find_similar_jobs_Ok in H as (count & Hcount & H).
  apply row_count_Ok in Hcount.
  destruct H as [[-> ->]|(Hcount' & scanned & Hscan & ->)].
  { split_and!.
    - intros ? ? Hin. by apply elem_of_nil in Hin.
    - constructor.
    - intros n ->. simpl. lia. }
  split_and!.
  - intros job_id similarity Hin.
    apply list_elem_of_fmap in Hin as (h & Hh & Hin).
    apply elem_of_take_rows in Hin. unfold order_by in Hin.
    rewrite merge_sort_Permutation in Hin.
    destruct (scanned_hits _ _ _ _ _ Hscan Hin) as (j & Hj & Hpass).
    apply examined_spec in Hj as [Hj Hprobed].
    apply scan_job_Some in Hpass
        as (Hj1 & Hact & e & tg & m & He & Ht & Hm & _ & Hd & Hge).
    unfold select_columns in Hh. injection Hh as -> ->.
    exists j, e, tg, m. rewrite Hj1, <- Hd. split_and!; done.
  - rewrite <- list_fmap_compose.
    apply (StronglySorted_fmap _ by_distance).
    { intros a b Hab. simpl. by apply similarity_antitone. }
    assert (Hsorted : StronglySorted by_distance
                        (order_by by_distance (omap (fun h => h) scanned))).
    { unfold order_by. apply StronglySorted_merge_sort; apply _. }
    destruct count as [k|]; simpl; [by apply StronglySorted_take | done].
  - intros n Hn. rewrite Hn in Hcount. destruct Hcount as [Hpos ->].
    rewrite length_fmap.
    pose proof (length_take_rows (Some (Z.to_nat n))
                  (order_by by_distance (omap (fun h => h) scanned)) _ eq_refl).
    lia.
Qed.


(** A row that the scan gets to and that passes the threshold is kept. *)
Lemma seen_job_is_kept (rows : table) tg m scanned j e :
  for_each (scan_job cosine_distance (Some tg) (Some m)) rows = Ok scanned ->
  j ∈ rows -> is_active j = Some true -> embedding j = Some e ->
  float8_ge (float8_mi (Finite 1) (cosine_distance e tg)) m = true ->
  (j, cosine_distance e tg) ∈ omap (fun h => h) scanned.
Proof.
  intros Hscan Hj Hact He Hge.
  assert (Hdims : vector_dims e = vector_dims tg).
  { pose proof (for_each_Ok _ _ _ Hscan) as Hall.
    apply list_elem_of_lookup in Hj as [k Hk].
    destruct (Forall2_lookup_l _ _ _ _ _ Hall Hk) as (o & _ & Hf).
    revert Hf. unfold scan_job, cosine_distance_op. rewrite Hact, He. sql_simpl.
    destruct (vector_dims e =? vector_dims tg) eqn:Hd; [|discriminate].
    intros _. by apply Z.eqb_eq. }
  eapply passing_job_is_scanned; [exact Hscan | exact Hj |].
  by apply scan_job_passes.
Qed.

(** Without a limit, no row that the plan has seen and that passes the
    WHERE clause is left out. *)
Lemma find_similar_jobs_complete (jobs : table) target min_similarity rows j e tg m :
  find_similar_jobs cosine_distance probed jobs target None min_similarity
    = Ok rows ->
  j ∈ jobs -> probed target jobs j = true ->
  is_active j = Some true -> embedding j = Some e ->
  target = Some tg -> min_similarity = Some m ->
  float8_ge (float8_mi (Finite 1) (cosine_distance e tg)) m = true ->
  (id j, float8_mi (Finite 1) (cosine_distance e tg)) ∈ rows.
Proof.
  intros H Hj Hprobed Hact He -> -> Hge.
  apply find_similar_jobs_Ok in H as (count & Hcount & H).
  apply row_count_Ok in Hcount. subst count.
  destruct H as [[? _]|(_ & scanned & Hscan & ->)]; [done|].
  assert (Hex : j ∈ examined probed (Some tg) jobs) by by apply examined_spec.
  apply list_elem_of_fmap. exists (j, cosine_distance e tg). split; [done|].
  simpl. unfold order_by. rewrite merge_sort_Permutation.
  by eapply seen_job_is_kept.
Qed.

End Similarity.

Example plane_rows_ids : Samples.plane_rows.*1 = [5%N; 2%N].
Proof. reflexivity. Qed.

(** C1, on the code. A target that is the zero vector has no cosine
    similarity to any job: the distance is NaN, and the server takes
    one minus NaN to be at least any threshold. [find_similar_jobs]
    then returns every active job that has an embedding, up to the
    limit, with NaN for its similarity: three of the five sample jobs
    at the threshold 2, which no cosine similarity reaches, and the
    same three with the defaults. So it is for every operator, plan
    and threshold: a row whose distance to the target is NaN passes
    the WHERE clause. *)
Theorem zero_target_passes_every_threshold :
  (exists rows,
     find_similar_jobs Samples.unit_cosine_distance sequential_scan Samples.plane_jobs
                       (Some Samples.zero_vector) (Some 10) (Some (Finite 2))
       = Ok rows /\
     rows ≡ₚ [(1%N, NaN); (2%N, NaN); (5%N, NaN)]) /\
  (exists rows,
     find_similar_jobs_default Samples.unit_cosine_distance sequential_scan
                               Samples.plane_jobs (Some Samples.zero_vector)
       = Ok rows /\
     rows ≡ₚ [(1%N, NaN); (2%N, NaN); (5%N, NaN)]) /\
  (forall cosine_distance j e tg m,
     is_active j = Some true -> embedding j = Some e ->
     vector_dims e = vector_dims tg ->
     cosine_distance e tg = NaN ->
     scan_job cosine_distance (Some tg) (Some m) j = Ok (Some (j, NaN))).
Proof.
  assert (Hperm : [(5%N, NaN); (1%N, NaN); (2%N, NaN)]
                  ≡ₚ [(1%N, NaN); (2%N, NaN); (5%N, NaN)]).
  { change ([(5%N, NaN)] ++ [(1%N, NaN); (2%N, NaN)]
            ≡ₚ [(1%N, NaN); (2%N, NaN)] ++ [(5%N, NaN)]).
    apply (comm (++)). }
  split_and!.
  - eexists. split; [vm_compute; reflexivity | exact Hperm].
  - eexists. split; [vm_compute; reflexivity | exact Hperm].
  - intros cosine_distance j e tg m Hact He Hdims Hnan.
    rewrite <- Hnan. apply scan_job_passes; try done.
    rewrite Hnan. apply float8_ge_NaN.
Qed.

End SimilarityFacts.

(** ** Facts about [calculate_freshness_score] *)

Module FreshnessFacts.
Import HuntFunctions.

Section Freshness.
Variable numeric_div : Q -> Q -> Q.
Variable numeric_to_float8 : Q -> float8.
Variable float8_div : float8 -> float8 -> float8.
Variable pow : float8 -> float8 -> float8.

(** Without a posting date the score is 0.5, whatever the half-life. *)
Lemma freshness_of_unknown_date now half_life_days :
  calculate_freshness_score numeric_div numeric_to_float8 float8_div pow
                            now None half_life_days
    = Ok (Some (Finite (1 # 2))).
Proof. reflexivity. Qed.

(** Where the power underflows to zero the function raises. *)
Lemma freshness_underflow now posted h exponent :
  divide_by_half_life float8_div (days_old numeric_div numeric_to_float8 now posted) h
    = Ok (Finite exponent) ->
  pow (Finite (1 # 2)) (Finite exponent) = Finite 0 ->
  calculate_freshness_score numeric_div numeric_to_float8 float8_div pow
                            now (Some posted) (Some h)
    = Raise numeric_value_out_of_range.
Proof.
  intros Hdiv Hpow. unfold calculate_freshness_score. rewrite Hdiv. simpl.
  by rewrite Hpow.
Qed.

End Freshness.

(** C2, on the code. A job posted 7525 days before [NOW()] has, at the
    default half-life of 7 days, the exponent 1075, and one half to
    that power is below the least double: POWER underflows, and the
    call raises "value out of range" where 0.5^(age_days / 7) is
    asked for. A week-old job scores one half, and one of 7518 days
    the least double, 2^-1074. *)
Theorem freshness_of_old_job_raises :
  calculate_freshness_score_default
    Samples.exact_numeric_div Samples.exact_numeric_to_float8
    Samples.exact_float8_div Samples.pow_of_half
    (7525 * Samples.day) (Some 0)
    = Raise numeric_value_out_of_range /\
  sqlstate_code numeric_value_out_of_range = "22003"%string /\
  calculate_freshness_score_default
    Samples.exact_numeric_div Samples.exact_numeric_to_float8
    Samples.exact_float8_div Samples.pow_of_half
    (7 * Samples.day) (Some 0)
    = Ok (Some (Finite (1 # 2))) /\
  calculate_freshness_score_default
    Samples.exact_numeric_div Samples.exact_numeric_to_float8
    Samples.exact_float8_div Samples.pow_of_half
    (7518 * Samples.day) (Some 0)
    = Ok (Some (Finite (1 # 2 ^ 1074))).
Proof. split_and!; vm_compute; reflexivity. Qed.

End FreshnessFacts.

(** ** Facts about the candidate profiles table and the embeddings *)

Module CandidateProfilesFacts.
Import Pgvector CandidateProfiles.

Lemma profiles_check_row_Ok waitlist others new r :
  check_row waitlist others new = Ok r ->
  r = new /\ Jobs.embedding_has_dim EMBEDDING_DIM (embedding new).
Proof.
  unfold check_row, coerce_vector, Jobs.embedding_has_dim.
  destruct (embedding new) as [v|]; simpl.
  - destruct (vector_dims v =? EMBEDDING_DIM) eqn:Hd; simpl; [|discriminate].
    repeat (destruct (negb _); simpl; [discriminate|]).
    destruct (existsb _ _); simpl; [discriminate|].
    destruct (negb _); simpl; [discriminate|].
    intros [= <-]. split; [done|]. by apply Z.eqb_eq.
  - repeat (destruct (negb _); simpl; [discriminate|]).
    destruct (existsb _ _); simpl; [discriminate|].
    destruct (negb _); simpl; [discriminate|].
    intros [= <-]. done.
Qed.

Lemma profiles_wrong_dimension waitlist others new v :
  embedding new = Some v -> vector_dims v <> EMBEDDING_DIM ->
  check_row waitlist others new = Raise data_exception.
Proof.
  intros He Hd. unfold check_row, coerce_vector. rewrite He.
  apply Z.eqb_neq in Hd. by rewrite Hd.
Qed.

Lemma profiles_embedding_dim t :
  reachable t ->
  Forall (fun r => Jobs.embedding_has_dim EMBEDDING_DIM (embedding r)) t.
Proof.
  induction 1 as
    [ | t waitlist new t' _ IH Hrun
      | t now waitlist i new t' _ IH Hrun
      | t i _ IH | t now w _ IH ].
  - constructor.
  - unfold insert in Hrun.
    destruct (check_row waitlist t new) as [r|] eqn:Hadm; [|discriminate].
    injection Hrun as <-. apply profiles_check_row_Ok in Hadm as [-> Hdim].
    apply Forall_app. split; [done|]. by repeat constructor.
  - unfold update in Hrun.
    destruct (list_find _ t) as [[k old]|]; [|by injection Hrun as <-].
    destruct (check_row _ _ _) as [r|] eqn:Hadm; [|discriminate].
    injection Hrun as <-. apply profiles_check_row_Ok in Hadm as [-> Hdim].
    by apply Forall_insert.
  - apply Forall_forall. intros r [_ Hr]%list_elem_of_filter.
    by eapply Forall_forall in IH.
  - unfold on_waitlist_deleted. apply Forall_fmap.
    eapply Forall_impl; [exact IH|]. intros r Hr. simpl.
    destruct (decide _); auto.
Qed.

End CandidateProfilesFacts.

Module EmbeddingFacts.
Import Pgvector.

(** C8. In every state of the jobs table and of the candidate profiles
    table, an embedding that a row holds has exactly 384 components; an
    insert or an update that brings an embedding of another dimension
    raises and stores nothing. *)
Theorem embeddings_have_384_dimensions :
  (forall t r v, Jobs.reachable t -> r ∈ t ->
     Jobs.embedding r = Some v -> length v = 384%nat) /\
  (forall t r v, CandidateProfiles.reachable t -> r ∈ t ->
     CandidateProfiles.embedding r = Some v -> length v = 384%nat) /\
  (forall companies raw_jobs new t v,
     Jobs.embedding new = Some v -> length v <> 384%nat ->
     Jobs.insert companies raw_jobs new t = Raise data_exception) /\
  (forall now companies raw_jobs i new t v,
     Jobs.embedding new = Some v -> length v <> 384%nat ->
     (exists r, r ∈ t /\ Jobs.id r = i) ->
     Jobs.update now companies raw_jobs i new t = Raise data_exception) /\
  (forall waitlist new t v,
     CandidateProfiles.embedding new = Some v -> length v <> 384%nat ->
     CandidateProfiles.insert waitlist new t = Raise data_exception) /\
  (forall now waitlist i new t v,
     CandidateProfiles.embedding new = Some v -> length v <> 384%nat ->
     (exists r, r ∈ t /\ CandidateProfiles.id r = i) ->
     CandidateProfiles.update now waitlist i new t = Raise data_exception).
Proof.
  assert (Hlen : forall v : vector, length v <> 384%nat -> vector_dims v <> EMBEDDING_DIM).
  { intros v Hv. unfold vector_dims, EMBEDDING_DIM. lia. }
  split_and!.
  - intros t r v Hreach Hr He.
    apply JobsFacts.jobs_embedding_dim in Hreach.
    eapply Forall_forall in Hreach; [|exact Hr]. rewrite He in Hreach.
    unfold Jobs.embedding_has_dim, vector_dims, EMBEDDING_DIM in Hreach. lia.
  - intros t r v Hreach Hr He.
    apply CandidateProfilesFacts.profiles_embedding_dim in Hreach.
    eapply Forall_forall in Hreach; [|exact Hr]. rewrite He in Hreach.
    unfold Jobs.embedding_has_dim, vector_dims, EMBEDDING_DIM in Hreach. lia.
  - intros companies raw_jobs new t v He Hv. unfold Jobs.insert.
    by rewrite (JobsFacts.jobs_wrong_dimension _ _ _ _ v He (Hlen v Hv)).
  - intros now companies raw_jobs i new t v He Hv (r & Hr & Hi). unfold Jobs.update.
    destruct (list_find _ t) as [[k old]|] eqn:Hfind.
    + by rewrite (JobsFacts.jobs_wrong_dimension _ _ _
                    (Jobs.update_updated_at_column now new) v He (Hlen v Hv)).
    + apply list_find_None in Hfind. eapply Forall_forall in Hfind; [|exact Hr]. done.
  - intros waitlist new t v He Hv. unfold CandidateProfiles.insert.
    by rewrite (CandidateProfilesFacts.profiles_wrong_dimension _ _ _ v He (Hlen v Hv)).
  - intros now waitlist i new t v He Hv (r & Hr & Hi). unfold CandidateProfiles.update.
    destruct (list_find _ t) as [[k old]|] eqn:Hfind.
    + by rewrite (CandidateProfilesFacts.profiles_wrong_dimension _ _
                    (CandidateProfiles.update_updated_at_column now new) v He (Hlen v Hv)).
    + apply list_find_None in Hfind. eapply Forall_forall in Hfind; [|exact Hr]. done.
Qed.

Lemma embeddings_have_384_dimensions_witness :
  Jobs.reachable [Samples.embedded_job] /\
  CandidateProfiles.reachable [Samples.embedded_profile] /\
  (forall v, Jobs.embedding Samples.embedded_job = Some v -> length v = 384%nat) /\
  (forall v, CandidateProfiles.embedding Samples.embedded_profile = Some v ->
             length v = 384%nat) /\
  Jobs.insert [] [] Samples.short_embedded_job [Samples.embedded_job]
    = Raise data_exception.
Proof.
  assert (Hj : Jobs.reachable [Samples.embedded_job]).
  { apply Jobs.reach_insert with (t := []) (companies := []) (raw_jobs := [])
                                 (new := Samples.embedded_job);
      [apply Jobs.reach_empty | exact I | vm_compute; reflexivity]. }
  assert (Hp : CandidateProfiles.reachable [Samples.embedded_profile]).
  { apply CandidateProfiles.reach_insert with (t := []) (waitlist := [])
                                              (new := Samples.embedded_profile);
      [apply CandidateProfiles.reach_empty | vm_compute; reflexivity]. }
  destruct embeddings_have_384_dimensions as (Hjobs & Hprofiles & Hins & _).
  split_and!; [exact Hj | exact Hp | | |].
  - intros v. apply (Hjobs _ _ _ Hj). apply list_elem_of_here.
  - intros v. apply (Hprofiles _ _ _ Hp). apply list_elem_of_here.
  - apply (Hins [] [] Samples.short_embedded_job _ [1; 0; 0]%Q); [reflexivity|].
    simpl. lia.
Defined.

End EmbeddingFacts.

(** ** Facts about the matches table *)

Module MatchesFacts.
Import Matches ListFacts.

Lemma matches_check_row_Ok candidates jobs others new r :
  check_row candidates jobs others new = Ok r ->
  r = new /\ existsb (collides new) others = false.
Proof.
  unfold check_row.
  destruct (negb _); [discriminate|].
  destruct (existsb _ _); [discriminate|].
  destruct (negb _); [discriminate|].
  intros [= <-]. done.
Qed.

(** Two rows with the same present pair collide. *)
Lemma collides_present new old p :
  present_pair new = Some p -> present_pair old = Some p ->
  collides new old = true.
Proof.
  unfold present_pair, collides.
  destruct (candidate_id new) as [c|], (job_id new) as [j|]; try discriminate.
  destruct (candidate_id old) as [c'|], (job_id old) as [j'|]; try discriminate.
  intros [= <-] [= -> ->]. simpl. rewrite !N.eqb_refl. simpl.
  apply orb_true_r.
Qed.

(** A row that collides with none of [others] has a pair that none of
    them has. *)
Lemma fresh_pair new others p :
  existsb (collides new) others = false ->
  present_pair new = Some p -> p ∉ present_pairs others.
Proof.
  intros Hnone Hp Hin. unfold present_pairs in Hin.
  apply list_elem_of_omap in Hin as (old & Hold & Hq).
  assert (existsb (collides new) others = true); [|congruence].
  apply existsb_exists. exists old. split; [by apply list_elem_of_In|].
  by eapply collides_present.
Qed.

Lemma present_pairs_app (l1 l2 : table) :
  present_pairs (l1 ++ l2) = present_pairs l1 ++ present_pairs l2.
Proof. apply omap_app. Qed.

Lemma present_pairs_middle (l1 l2 : table) x :
  present_pairs (l1 ++ x :: l2) ≡ₚ present_pairs [x] ++ present_pairs (l1 ++ l2).
Proof. apply omap_middle. Qed.

Lemma NoDup_present_pairs_cons (r : row) (l : list (uuid * uuid)) :
  NoDup l -> (forall p, present_pair r = Some p -> p ∉ l) ->
  NoDup (present_pairs [r] ++ l).
Proof.
  intros Hl Hr. unfold present_pairs. simpl. destruct (present_pair r) as [p|]; simpl; [|done].
  apply NoDup_cons. split; auto.
Qed.

(** The unique constraint, as far as it reaches: among the rows that
    name both a candidate and a job, no pair occurs twice. *)
Lemma reachable_present_pairs_unique t :
  reachable t -> NoDup (present_pairs t).
Proof.
  induction 1 as
    [ | t candidates jobs new t' _ IH Hrun
      | t candidates jobs i new t' _ IH Hrun
      | t i _ IH | t c _ IH | t j _ IH ].
  - constructor.
  - unfold insert in Hrun.
    destruct (check_row candidates jobs t new) as [r|] eqn:Hadm; [|discriminate].
    injection Hrun as <-. apply matches_check_row_Ok in Hadm as [-> Hnone].
    rewrite present_pairs_app, (comm (++)). apply NoDup_present_pairs_cons; [done|].
    intros p Hp. by eapply fresh_pair.
  - unfold update in Hrun.
    destruct (list_find _ t) as [[k old]|] eqn:Hfind; [|by injection Hrun as <-].
    destruct (check_row _ _ _ _) as [r|] eqn:Hadm; [|discriminate].
    injection Hrun as <-. apply matches_check_row_Ok in Hadm as [-> Hnone].
    apply list_find_Some in Hfind as (Hk & _).
    destruct (split_at t k old Hk) as (l1 & l2 & -> & -> & Hdel).
    rewrite Hdel in Hnone. rewrite present_pairs_middle in IH |- *.
    apply NoDup_app in IH as (_ & _ & IH).
    apply NoDup_present_pairs_cons; [done|].
    intros p Hp. by eapply fresh_pair.
  - by apply NoDup_omap_filter.
  - by apply NoDup_omap_filter.
  - by apply NoDup_omap_filter.
Qed.

(** Counterexample to C4 as stated: the table takes two matches for
    the same job that both name no candidate. *)
Lemma null_pair_stored_twice :
  insert [] [7%N] (Samples.match_of 2%N None (Some 7%N))
         [Samples.match_of 1%N None (Some 7%N)] = Ok Samples.orphan_matches /\
  reachable Samples.orphan_matches /\
  ~ NoDup (pair <$> Samples.orphan_matches).
Proof.
  assert (H1 : insert [] [7%N] (Samples.match_of 1%N None (Some 7%N)) []
               = Ok [Samples.match_of 1%N None (Some 7%N)])
    by (vm_compute; reflexivity).
  assert (H2 : insert [] [7%N] (Samples.match_of 2%N None (Some 7%N))
                      [Samples.match_of 1%N None (Some 7%N)]
               = Ok Samples.orphan_matches)
    by (vm_compute; reflexivity).
  split_and!; [exact H2 | |].
  - exact (reach_insert _ _ _ _ _ (reach_insert _ _ _ _ _ reach_empty H1) H2).
  - intros Hnd. simpl in Hnd. apply NoDup_cons in Hnd as [Hnotin _].
    apply Hnotin. apply list_elem_of_here.
Qed.

(** C4, as the table has it. In every state of the matches table, each
    pair of a candidate id and a job id that are both present occurs in
    at most one row, and an insert of a second match for such a pair
    raises and leaves the table as it was. *)
Theorem present_match_pairs_unique :
  (forall t, reachable t -> NoDup (present_pairs t)) /\
  (forall candidates jobs new old t c j,
     old ∈ t ->
     candidate_id old = Some c -> job_id old = Some j ->
     candidate_id new = Some c -> job_id new = Some j ->
     exists e, insert candidates jobs new t = Raise e /\
               (check_passes (score_check new) = true -> e = unique_violation)).
Proof.
  split; [apply reachable_present_pairs_unique|].
  intros candidates jobs new old t c j Hold Hc Hj Hc' Hj'.
  assert (Hcol : existsb (collides new) t = true).
  { apply existsb_exists. exists old. split; [by apply list_elem_of_In|].
    apply (collides_present _ _ (c, j)); unfold present_pair.
    - by rewrite Hc', Hj'.
    - by rewrite Hc, Hj. }
  unfold insert, check_row. rewrite Hcol.
  destruct (check_passes (score_check new)); simpl; eauto.
  eexists. split; [reflexivity | discriminate].
Qed.

Lemma present_match_pairs_unique_witness :
  reachable [Samples.first_match] /\
  NoDup (present_pairs [Samples.first_match]) /\
  insert [3%N] [7%N] Samples.second_match [Samples.first_match]
    = Raise unique_violation.
Proof.
  assert (H : reachable [Samples.first_match]).
  { apply reach_insert with (t := []) (candidates := [3%N]) (jobs := [7%N])
                            (new := Samples.first_match);
      [apply reach_empty | vm_compute; reflexivity]. }
  destruct present_match_pairs_unique as [Hunique Hinsert].
  split_and!; [exact H | exact (Hunique _ H) |].
  destruct (Hinsert [3%N] [7%N] Samples.second_match Samples.first_match
                    [Samples.first_match] 3%N 7%N)
    as (e & -> & He); try reflexivity.
  - apply list_elem_of_here.
  - by rewrite He.
Defined.

End MatchesFacts.

(** ** Facts about the discovery queue functions *)

Module DiscoveryQueueFacts.
Import DiscoveryQueue ListFacts.

#[local] Instance by_created_at_refl : Reflexive by_created_at.
Proof.
  intros r. unfold by_created_at, asc_nulls_last.
  destruct (created_at r); [lia | exact I].
Qed.

#[local] Instance by_created_at_trans : Transitive by_created_at.
Proof.
  intros a b c. unfold by_created_at, asc_nulls_last.
  destruct (created_at a), (created_at b), (created_at c); try tauto; lia.
Qed.

#[local] Instance by_created_at_total : Total by_created_at.
Proof.
  intros a b. unfold by_created_at, asc_nulls_last.
  destruct (created_at a), (created_at b); try tauto. lia.
Qed.

(** Under the primary key, the row at position [k] is the only one
    with its id. *)
Lemma split_by_id (t : table) k r :
  NoDup (id <$> t) -> t !! k = Some r ->
  exists l1 l2, t = l1 ++ r :: l2 /\
                (forall new, <[k := new]> t = l1 ++ new :: l2) /\
                Forall (fun x => id x <> id r) l1 /\
                Forall (fun x => id x <> id r) l2.
Proof.
  intros Hnd Hk. destruct (split_at t k r Hk) as (l1 & l2 & -> & Hins & _).
  exists l1, l2. rewrite fmap_app, fmap_cons in Hnd.
  apply NoDup_app in Hnd as (_ & Hdisj & Hnd).
  apply NoDup_cons in Hnd as [Hnotin _].
  split_and!; try done; apply Forall_forall; intros x Hx Heq.
  - apply (Hdisj (id x)); [by apply list_elem_of_fmap_2|].
    rewrite Heq. apply list_elem_of_here.
  - apply Hnotin. rewrite <- Heq. by apply list_elem_of_fmap_2.
Qed.

(** An UPDATE ... WHERE id = i that cannot raise touches that row only. *)
Lemma update_where_id (f : row -> row) (l1 l2 : table) r :
  Forall (fun x => id x <> id r) l1 -> Forall (fun x => id x <> id r) l2 ->
  (fun x => if decide (Some (id x) = Some (id r)) then f x else x) <$> (l1 ++ r :: l2)
    = l1 ++ f r :: l2.
Proof.
  intros H1 H2.
  assert (Hother : forall l : table, Forall (fun x => id x <> id r) l ->
            (fun x => if decide (Some (id x) = Some (id r)) then f x else x) <$> l = l).
  { induction 1 as [|x l Hx _ IH]; [done|]. rewrite fmap_cons, IH.
    destruct (decide _) as [Heq|_]; [|done]. by injection Heq. }
  rewrite fmap_app, fmap_cons, !Hother by done.
  by destruct (decide _).
Qed.

Lemma filter_where_id (l1 l2 : table) r :
  Forall (fun x => id x <> id r) l1 -> Forall (fun x => id x <> id r) l2 ->
  filter (fun x => Some (id x) = Some (id r)) (l1 ++ r :: l2) = [r].
Proof.
  intros H1 H2.
  assert (Hother : forall l : table, Forall (fun x => id x <> id r) l ->
            filter (fun x => Some (id x) = Some (id r)) l = []).
  { induction 1 as [|x l Hx _ IH]; [done|].
    rewrite filter_cons_False; [done|]. intros Heq. by injection Heq. }
  rewrite filter_app, filter_cons_True by done. by rewrite !Hother.
Qed.

(** The same for an UPDATE whose right-hand sides may raise. *)
Lemma for_each_where_id (f : row -> result row) (l1 l2 : table) r r' :
  Forall (fun x => id x <> id r) l1 -> Forall (fun x => id x <> id r) l2 ->
  f r = Ok r' ->
  for_each (fun x => if decide (Some (id x) = Some (id r)) then f x else Ok x)
           (l1 ++ r :: l2) = Ok (l1 ++ r' :: l2).
Proof.
  intros H1 H2 Hf.
  assert (Hother : forall l : table, Forall (fun x => id x <> id r) l ->
            for_each (fun x => if decide (Some (id x) = Some (id r)) then f x else Ok x) l
            = Ok l).
  { intros l Hl. apply for_each_id. eapply Forall_impl; [exact Hl|].
    intros x Hx. simpl. destruct (decide _) as [Heq|_]; [|done]. by injection Heq. }
  apply for_each_app; [by apply Hother|].
  simpl. destruct (decide _); [|done]. rewrite Hf. simpl.
  by rewrite Hother.
Qed.

(** ** [get_next_discovery_item] *)

Lemma next_pending_id_None t :
  (forall r, r ∈ t -> status r <> Some pending) -> next_pending_id t = None.
Proof.
  intros Hnone. unfold next_pending_id.
  rewrite filter_none; [done|]. apply Forall_forall. auto.
Qed.

Lemma next_pending_id_Some t :
  (exists r, r ∈ t /\ status r = Some pending) ->
  exists r, next_pending_id t = Some (id r) /\ r ∈ t /\ status r = Some pending /\
            forall r', r' ∈ t -> status r' = Some pending -> by_created_at r r'.
Proof.
  intros (r0 & Hr0 & Hp0). unfold next_pending_id.
  destruct (head _) as [r|] eqn:Hhead.
  - apply head_order_by in Hhead as [Hin Hmin]; [|apply _..].
    apply list_elem_of_filter in Hin as [Hp Hin].
    exists r. split_and!; try done.
    intros r' Hr' Hp'. apply Hmin. by apply list_elem_of_filter.
  - apply head_order_by_None in Hhead.
    assert (r0 ∈ filter (fun r => status r = Some pending) t)
      by by apply list_elem_of_filter.
    rewrite Hhead in H. by apply elem_of_nil in H.
Qed.

(** C6. In a queue whose ids are unique, [get_next_discovery_item]
    changes nothing and returns no row when no item is pending.
    Otherwise it turns exactly one item from 'pending' to 'processing':
    one that was created no later than any other pending item; it sets
    the item's processed_at to the current time and returns the item
    as updated, and that row only. *)
Theorem get_next_discovery_item_step (now : timestamptz) (t : table) :
  NoDup (id <$> t) ->
  ((forall r, r ∈ t -> status r <> Some pending) ->
   get_next_discovery_item now t = (t, [])) /\
  ((exists r, r ∈ t /\ status r = Some pending) ->
   exists k r,
     t !! k = Some r /\ status r = Some pending /\
     (forall r', r' ∈ t -> status r' = Some pending ->
                 asc_nulls_last (created_at r) (created_at r')) /\
     get_next_discovery_item now t
       = (<[k := start_processing now r]> t, [start_processing now r]) /\
     status (start_processing now r) = Some processing /\
     processed_at (start_processing now r) = Some now /\
     id (start_processing now r) = id r).
Proof.
  intros Hnd. split.
  - intros Hnone. unfold get_next_discovery_item.
    rewrite (next_pending_id_None t Hnone). f_equal.
    + rewrite <- (list_fmap_id t) at 2. apply list_fmap_ext.
      intros i x _. by destruct (decide _).
    + rewrite filter_none; [done|]. apply Forall_forall. done.
  - intros Hsome.
    destruct (next_pending_id_Some t Hsome) as (r & Hnext & Hin & Hp & Hmin).
    apply list_elem_of_lookup in Hin as [k Hk].
    exists k, r. split_and!; try done.
    unfold get_next_discovery_item. rewrite Hnext.
    destruct (split_by_id t k r Hnd Hk) as (l1 & l2 & -> & Hins & H1 & H2).
    rewrite Hins, update_where_id, filter_where_id by done. done.
Qed.

Lemma get_next_discovery_item_step_witness :
  NoDup (id <$> Samples.small_queue) /\
  (exists r, r ∈ Samples.small_queue /\ status r = Some pending) /\
  exists k r,
    Samples.small_queue !! k = Some r /\
    get_next_discovery_item 100 Samples.small_queue
      = (<[k := start_processing 100 r]> Samples.small_queue,
         [start_processing 100 r]).
Proof.
  assert (Hnd : NoDup (id <$> Samples.small_queue)).
  { apply (bool_decide_unpack (NoDup (id <$> Samples.small_queue))). vm_compute. exact I. }
  assert (Hsome : exists r, r ∈ Samples.small_queue /\ status r = Some pending).
  { exists (Samples.queue_item 1%N 30 pending 0).
    split; [apply list_elem_of_here | reflexivity]. }
  split; [exact Hnd|]. split; [exact Hsome|].
  destruct (proj2 (get_next_discovery_item_step 100 Samples.small_queue Hnd) Hsome)
    as (k & r & Hk & _ & _ & Hrun & _).
  exists k, r. split; [exact Hk | exact Hrun].
Defined.

Example small_queue_next :
  (get_next_discovery_item 100 Samples.small_queue).2
    = [start_processing 100 (Samples.queue_item 3%N 20 pending 0)].
Proof. vm_compute. reflexivity. Qed.

(** ** [fail_discovery_item] *)

Lemma fail_row_spec now error_msg r n :
  retry_count r = Some n -> int4_min <= n < int4_max ->
  exists r', fail_row now error_msg r = Ok r' /\
             status r' = Some (if 3 <=? n then failed else pending) /\
             retry_count r' = Some (n + 1) /\
             error_message r' = error_msg /\ processed_at r' = Some now /\
             id r' = id r.
Proof.
  intros Hn Hrange. unfold fail_row, int4_add. rewrite Hn.
  assert (in_int4 (n + 1) = true) as ->.
  { unfold in_int4, int4_min, int4_max in *. apply andb_true_intro. lia. }
  simpl. eexists. split; [reflexivity|]. simpl. by destruct (3 <=? n).
Qed.

Lemma fail_discovery_item_spec now error_msg (t : table) k r n :
  NoDup (id <$> t) -> t !! k = Some r ->
  retry_count r = Some n -> int4_min <= n < int4_max ->
  exists r', fail_discovery_item now (Some (id r)) error_msg t = Ok (<[k := r']> t) /\
             status r' = Some (if 3 <=? n then failed else pending) /\
             retry_count r' = Some (n + 1) /\
             error_message r' = error_msg /\ processed_at r' = Some now /\
             id r' = id r.
Proof.
  intros Hnd Hk Hn Hrange.
  destruct (fail_row_spec now error_msg r n Hn Hrange) as (r' & Hrow & Hspec).
  exists r'. split; [|exact Hspec].
  destruct (split_by_id t k r Hnd Hk) as (l1 & l2 & -> & Hins & H1 & H2).
  rewrite Hins. unfold fail_discovery_item. by apply for_each_where_id.
Qed.

(** The same for any retry count, NULL included: the comparison with
    the cap is then UNKNOWN and the sum NULL. *)
Lemma fail_discovery_item_any now error_msg (t : table) k r :
  NoDup (id <$> t) -> t !! k = Some r ->
  (forall n, retry_count r = Some n -> int4_min <= n < int4_max) ->
  exists r', fail_discovery_item now (Some (id r)) error_msg t = Ok (<[k := r']> t) /\
             status r' = Some (if is_true (tv_geZ (retry_count r) (Some 3))
                               then failed else pending) /\
             retry_count r' = Z.succ <$> retry_count r.
Proof.
  intros Hnd Hk Hrange. destruct (retry_count r) as [n|] eqn:Hn.
  - destruct (fail_discovery_item_spec now error_msg t k r n Hnd Hk Hn (Hrange n eq_refl))
      as (r' & Hrun & Hst & Hrc & _).
    exists r'. split_and!; [done | | by rewrite Hrc].
    rewrite Hst. simpl. by destruct (3 <=? n).
  - destruct (split_by_id t k r Hnd Hk) as (l1 & l2 & -> & Hins & H1 & H2).
    eexists. split.
    + rewrite Hins. unfold fail_discovery_item. apply for_each_where_id; [done..|].
      unfold fail_row. rewrite Hn. simpl. reflexivity.
    + simpl. done.
Qed.

Lemma insert_keeps_ids (t : table) k r r' :
  t !! k = Some r -> id r' = id r ->
  id <$> <[k := r']> t = id <$> t /\ <[k := r']> t !! k = Some r'.
Proof.
  intros Hk Hid. split.
  - rewrite list_fmap_insert, Hid. apply list_insert_id.
    by rewrite list_lookup_fmap, Hk.
  - apply list_lookup_insert_eq. by eapply lookup_lt_Some.
Qed.

Lemma fail_repeatedly_spec calls (t : table) k r n :
  NoDup (id <$> t) -> t !! k = Some r ->
  retry_count r = Some n -> 0 <= n -> n + Z.of_nat (length calls) <= int4_max ->
  calls <> [] ->
  exists r', fail_repeatedly calls (Some (id r)) t = Ok (<[k := r']> t) /\
             id r' = id r /\
             retry_count r' = Some (n + Z.of_nat (length calls)) /\
             status r' = Some (if 4 <=? n + Z.of_nat (length calls)
                               then failed else pending).
Proof.
  revert t r n. induction calls as [|[now msg] calls IH]; [done|].
  intros t r n Hnd Hk Hn Hpos Hmax _. simpl in Hmax |- *.
  destruct (fail_discovery_item_spec now msg t k r n Hnd Hk Hn)
    as (r1 & -> & Hst & Hrc & _ & _ & Hid).
  { unfold int4_min. lia. }
  simpl. destruct (insert_keeps_ids t k r r1 Hk Hid) as [Hids Hk1].
  destruct calls as [|call calls].
  - exists r1. simpl. split_and!; [done | done | by rewrite Hrc |].
    rewrite Hst. f_equal. change (Z.of_nat 1) with 1.
    destruct (3 <=? n) eqn:H3, (4 <=? n + 1) eqn:H4; try done; lia.
  - destruct (IH (<[k := r1]> t) r1 (n + 1)) as (r' & Hrun & Hid' & Hrc' & Hst').
    + by rewrite Hids.
    + exact Hk1.
    + exact Hrc.
    + lia.
    + simpl length in *. lia.
    + done.
    + exists r'. rewrite <- Hid, Hrun, list_insert_insert_eq.
      replace (n + Z.of_nat (S (length (call :: calls))))
        with (n + 1 + Z.of_nat (length (call :: calls))) by lia.
      split_and!; done.
Qed.

(** ** Runs of worker calls *)

(** What one call does to the row at a given position: a reported
    failure of that item counts, nothing else touches the count. *)
Lemma run_call_at c (t t' : table) k r :
  run_call c t = Ok t' -> t !! k = Some r ->
  exists r', t' !! k = Some r' /\ id r' = id r /\
    if is_failure_of (id r) c
    then int4_add (retry_count r) (Some 1) = Ok (retry_count r') /\
         status r' = Some (if is_true (tv_geZ (retry_count r) (Some 3))
                           then failed else pending)
    else retry_count r' = retry_count r.
Proof.
  intros Hrun Hk. destruct c as [now|now companies item new_company|now item msg];
    simpl in Hrun.
  - injection Hrun as <-. simpl. rewrite list_lookup_fmap, Hk. simpl.
    eexists. split; [reflexivity|]. by destruct (decide _).
  - apply for_each_Ok in Hrun.
    destruct (Forall2_lookup_l _ _ _ _ _ Hrun Hk) as (r' & Hk' & Hf).
    exists r'. split; [done|]. simpl in *.
    destruct (decide _); [|by injection Hf as <-].
    destruct (Jobs.references _ _); [|discriminate]. by injection Hf as <-.
  - apply for_each_Ok in Hrun.
    destruct (Forall2_lookup_l _ _ _ _ _ Hrun Hk) as (r' & Hk' & Hf).
    exists r'. split; [done|]. simpl in *.
    destruct item as [j|].
    + destruct (decide (Some (id r) = Some j)) as [Heq|Hne].
      * injection Heq as <-. rewrite N.eqb_refl.
        unfold fail_row in Hf.
        destruct (int4_add (retry_count r) (Some 1)) as [incremented|]; [|discriminate].
        simpl in Hf. injection Hf as <-. simpl. done.
      * injection Hf as <-. split; [done|].
        destruct (N.eqb (id r) j) eqn:Hj; [|done].
        apply N.eqb_eq in Hj. congruence.
    + destruct (decide _); [discriminate|]. by injection Hf as <-.
Qed.

(** Along any run of worker calls that goes through, the retry count of
    an item is the count it started with plus the number of its
    reported failures. *)
Lemma run_calls_retry_count cs (t t' : table) k r n :
  run_calls cs t = Ok t' -> t !! k = Some r -> retry_count r = Some n ->
  exists r', t' !! k = Some r' /\ id r' = id r /\
             retry_count r' = Some (n + failures_of (id r) cs).
Proof.
  revert t r n. induction cs as [|c cs IH]; intros t r n Hrun Hk Hn; simpl in Hrun.
  - injection Hrun as <-. exists r. unfold failures_of. simpl.
    rewrite Z.add_0_r. done.
  - apply and_then_Ok in Hrun as (t1 & Hc & Hrun).
    destruct (run_call_at c t t1 k r Hc Hk) as (r1 & Hk1 & Hid1 & Hstep).
    unfold failures_of. simpl.
    destruct (is_failure_of (id r) c).
    + destruct Hstep as [Hadd _]. rewrite Hn in Hadd. simpl in Hadd.
      destruct (in_int4 (n + 1)); [|discriminate]. injection Hadd as Hrc1.
      destruct (IH t1 r1 (n + 1) Hrun Hk1 (eq_sym Hrc1)) as (r' & Hk' & Hid' & Hrc').
      exists r'. split_and!; [done | congruence |].
      rewrite Hrc', Hid1. unfold failures_of. f_equal. simpl length. lia.
    + rewrite Hn in Hstep.
      destruct (IH t1 r1 n Hrun Hk1 Hstep) as (r' & Hk' & Hid' & Hrc').
      exists r'. split_and!; [done | congruence |].
      by rewrite Hrc', Hid1.
Qed.

(** However the calls of a run are interleaved, the failure that is
    reported when the item has already failed three times or more marks
    it 'failed', and an earlier one puts it back to 'pending'. *)
Lemma run_calls_then_fail cs now msg (t t' : table) k r n :
  run_calls (cs ++ [Fail now (Some (id r)) msg]) t = Ok t' ->
  t !! k = Some r -> retry_count r = Some n ->
  exists r', t' !! k = Some r' /\
             retry_count r' = Some (n + failures_of (id r) cs + 1) /\
             status r' = Some (if 3 <=? n + failures_of (id r) cs
                               then failed else pending).
Proof.
  intros Hrun Hk Hn.
  assert (Hsplit : exists t1, run_calls cs t = Ok t1 /\
                     fail_discovery_item now (Some (id r)) msg t1 = Ok t').
  { clear Hk Hn. revert t Hrun. induction cs as [|c cs IH]; intros t Hrun; simpl in *.
    - exists t. split; [done|].
      by destruct (fail_discovery_item now (Some (id r)) msg t).
    - apply and_then_Ok in Hrun as (t1 & Hc & Hrun). rewrite Hc. simpl. auto. }
  destruct Hsplit as (t1 & Hcs & Hlast).
  destruct (run_calls_retry_count cs t t1 k r n Hcs Hk Hn) as (r1 & Hk1 & Hid1 & Hrc1).
  destruct (run_call_at (Fail now (Some (id r)) msg) t1 t' k r1 Hlast Hk1)
    as (r' & Hk' & _ & Hstep).
  simpl in Hstep. rewrite Hid1, N.eqb_refl, Hrc1 in Hstep.
  destruct Hstep as [Hadd Hst]. simpl in Hadd.
  destruct (in_int4 _); [|discriminate]. injection Hadd as Hrc'.
  exists r'. split_and!; [done | done |].
  rewrite Hst. simpl. by destruct (3 <=? _).
Qed.

(** Counterexample to C5 as stated. The table takes an item whose
    retry count is NULL, and however often its failure is reported the
    item goes back to 'pending' with the count still NULL. An item
    whose count is below zero is still 'pending' after five failures.
    An item whose count is the largest INTEGER is marked neither way:
    the call raises. *)
Lemma retry_cap_needs_a_count :
  insert [] (Samples.counted_item 1%N None) [] = Ok [Samples.counted_item 1%N None] /\
  (exists r',
     fail_repeatedly Samples.five_failures (Some 1%N) [Samples.counted_item 1%N None]
       = Ok [r'] /\
     status r' = Some pending /\ retry_count r' = None) /\
  (exists r',
     fail_repeatedly Samples.five_failures (Some 1%N)
                     [Samples.counted_item 1%N (Some (-2))]
       = Ok [r'] /\
     status r' = Some pending /\ retry_count r' = Some 3) /\
  insert [] (Samples.counted_item 1%N (Some int4_max)) []
    = Ok [Samples.counted_item 1%N (Some int4_max)] /\
  fail_discovery_item 100 (Some 1%N) None [Samples.counted_item 1%N (Some int4_max)]
    = Raise numeric_value_out_of_range.
Proof.
  split_and!.
  - vm_compute. reflexivity.
  - eexists. split_and!; vm_compute; reflexivity.
  - eexists. split_and!; vm_compute; reflexivity.
  - vm_compute. reflexivity.
  - vm_compute. reflexivity.
Qed.

(** C5, as the function has it. For an item whose retry count is not
    NULL and below the largest INTEGER, [fail_discovery_item] sets the
    status to 'failed' exactly when the count has reached the cap of 3,
    and otherwise puts the item back to 'pending'; the retry count is
    incremented by one. An item that starts with a retry count of zero
    or more is therefore 'pending' after each failure that leaves the
    count at 3 or less and 'failed' from the failure that brings the
    count to 4 on: a new item fails for good at its fourth failure,
    after three retries. *)
Theorem fail_discovery_item_retry_cap :
  (forall now error_msg (t : table) k r n,
     NoDup (id <$> t) -> t !! k = Some r ->
     retry_count r = Some n -> int4_min <= n < int4_max ->
     exists r',
       fail_discovery_item now (Some (id r)) error_msg t = Ok (<[k := r']> t) /\
       (status r' = Some failed <-> 3 <= n) /\
       (status r' = Some pending <-> n < 3) /\
       retry_count r' = Some (n + 1)) /\
  (forall calls (t : table) k r n,
     NoDup (id <$> t) -> t !! k = Some r ->
     retry_count r = Some n -> 0 <= n -> n + Z.of_nat (length calls) <= int4_max ->
     calls <> [] ->
     exists r',
       fail_repeatedly calls (Some (id r)) t = Ok (<[k := r']> t) /\
       retry_count r' = Some (n + Z.of_nat (length calls)) /\
       (status r' = Some failed <-> 4 <= n + Z.of_nat (length calls)) /\
       (status r' = Some pending <-> n + Z.of_nat (length calls) <= 3)).
Proof.
  split.
  - intros now error_msg t k r n Hnd Hk Hn Hrange.
    destruct (fail_discovery_item_spec now error_msg t k r n Hnd Hk Hn Hrange)
      as (r' & Hrun & Hst & Hrc & _).
    exists r'. split_and!; [done | | | done]; rewrite Hst;
      destruct (3 <=? n) eqn:H3; split; intros; try done; lia.
  - intros calls t k r n Hnd Hk Hn Hpos Hmax Hcalls.
    destruct (fail_repeatedly_spec calls t k r n Hnd Hk Hn Hpos Hmax Hcalls)
      as (r' & Hrun & _ & Hrc & Hst).
    exists r'. split_and!; try done; rewrite Hst;
      destruct (4 <=? _) eqn:H4; split; intros; try done; lia.
Qed.

Lemma fail_discovery_item_retry_cap_witness :
  NoDup (id <$> Samples.small_queue) /\
  exists r',
    fail_repeatedly Samples.four_failures (Some 3%N) Samples.small_queue
      = Ok (<[2%nat := r']> Samples.small_queue) /\
    status r' = Some failed /\ retry_count r' = Some 4.
Proof.
  assert (Hnd : NoDup (id <$> Samples.small_queue)).
  { apply (bool_decide_unpack (NoDup (id <$> Samples.small_queue))). vm_compute. exact I. }
  split; [exact Hnd|].
  destruct (proj2 fail_discovery_item_retry_cap Samples.four_failures
                  Samples.small_queue 2%nat
                  (Samples.queue_item 3%N 20 pending 0) 0 Hnd)
    as (r' & Hrun & Hrc & Hfailed & _).
  - reflexivity.
  - reflexivity.
  - lia.
  - vm_compute. discriminate.
  - discriminate.
  - exists r'. split; [exact Hrun|]. split; [|exact Hrc].
    apply Hfailed. vm_compute. discriminate.
Defined.

(** The first three failures of a new item put it back in the queue. *)
Example three_failures_still_pending :
  exists t, fail_repeatedly (take 3 Samples.four_failures) (Some 3%N)
                            Samples.small_queue = Ok t /\
            (status <$> t) !! 2%nat = Some (Some pending).
Proof. eexists. split; vm_compute; reflexivity. Qed.

End DiscoveryQueueFacts.

(** ** Facts about the intake into the discovery queue *)

Module DiscoveryIntakeFacts.
Import DiscoveryQueue DiscoveryIntake ListFacts.

Lemma queue_check_row_Ok companies others new r :
  check_row companies others new = Ok r ->
  r = new /\ Forall (fun old => id old <> id new) others.
Proof.
  unfold check_row.
  destruct (negb _); [discriminate|].
  destruct (negb _); [discriminate|].
  destruct (existsb _ _) eqn:Hex; [discriminate|].
  destruct (negb _); [discriminate|].
  intros [= <-]. split; [done|].
  apply Forall_forall. intros old Hold Heq.
  assert (existsb (fun old => N.eqb (id new) (id old)) others = true); [|congruence].
  apply existsb_exists. exists old. split; [by apply list_elem_of_In|].
  apply N.eqb_eq. done.
Qed.

(** The table itself keeps two rows of one domain and one source apart:
    nothing in its declaration makes the pair unique. *)
Example table_takes_both :
  exists t1 t2,
    insert [] (Samples.queue_item 1%N 30 pending 0) [] = Ok t1 /\
    insert [] (Samples.queue_item 2%N 40 pending 0) t1 = Ok t2 /\
    length t2 = 2%nat /\
    Forall (fun r => domain r = Some "acme.test"%string /\ source r = "seed"%string) t2.
Proof.
  do 2 eexists. split_and!; [vm_compute; reflexivity.. | ].
  repeat constructor.
Qed.

Section Intake.
Variables normalize_domain normalize_name : string -> string.

Abbreviation key_of := (row_key normalize_domain normalize_name).
Abbreviation enqueue_ := (enqueue normalize_domain normalize_name).

(** The first of two insertions goes through when the generated id is
    new to the queue and the table takes the candidate's values. *)
Lemma enqueue_new_returns companies gen_id now c (t : table) :
  Forall (fun r => key_of r <> candidate_key normalize_domain normalize_name c) t ->
  Forall (fun r => id r <> gen_id) t ->
  candidate_fits c = true ->
  enqueue_ companies gen_id now c t = Ok (t ++ [new_item gen_id now c]).
Proof.
  intros Hfresh Hids [Hint Hcountry]%andb_prop. unfold enqueue.
  rewrite (list_find_fresh _ _ Hfresh).
  unfold insert, check_row, integers_fit, country_check. simpl.
  rewrite Hint. simpl.
  replace (check_passes _) with true by (by destruct (c_country c); rewrite ?Hcountry).
  simpl. replace (existsb _ t) with false; [done|].
  symmetry. apply not_true_is_false. intros (old & Hold & Heq)%existsb_exists.
  apply N.eqb_eq in Heq. eapply Forall_forall in Hids; [|by apply list_elem_of_In].
  done.
Qed.

(** So does the merge of a second candidate into the row the first one
    made. *)
Lemma enqueue_known_returns companies gen_id1 gen_id2 now1 now2 c1 c2 (t : table) :
  Forall (fun r => key_of r <> candidate_key normalize_domain normalize_name c2) t ->
  Forall (fun r => id r <> gen_id1) t ->
  key_of (new_item gen_id1 now1 c1) = candidate_key normalize_domain normalize_name c2 ->
  candidate_fits c1 = true -> candidate_fits c2 = true ->
  enqueue_ companies gen_id2 now2 c2 (t ++ [new_item gen_id1 now1 c1])
    = Ok (t ++ [merge c2 (new_item gen_id1 now1 c1)]).
Proof.
  intros Hfresh Hids Hkey [Hint1 Hcountry1]%andb_prop [Hint2 Hcountry2]%andb_prop.
  unfold enqueue.
  rewrite list_find_app_r by exact (list_find_fresh _ _ Hfresh).
  simpl. rewrite decide_True by done. simpl.
  unfold update.
  rewrite list_find_app_r by exact (list_find_fresh _ _ Hids).
  simpl. rewrite decide_True by done. simpl.
  rewrite (delete_middle t [] (new_item gen_id1 now1 c1)), app_nil_r.
  unfold check_row, integers_fit, country_check. simpl.
  replace (Jobs.nullable_in_int4 (enrich _ _)) with true
    by (by destruct (c_employee_count c2)).
  simpl.
  replace (check_passes _) with true
    by (destruct (c_country c2), (c_country c1); simpl; by rewrite ?Hcountry1, ?Hcountry2).
  simpl. replace (existsb _ t) with false.
  - simpl. replace (length t) with (length t + 0)%nat by lia.
    by rewrite insert_app_r.
  - symmetry. apply not_true_is_false. intros (old & Hold & Heq)%existsb_exists.
    apply N.eqb_eq in Heq. eapply Forall_forall in Hids; [|by apply list_elem_of_In].
    done.
Qed.

(** C7. When a candidate of some domain and source is put into a queue
    that does not know its key, and then a second candidate of the
    same domain and source, both insertions go through and the queue
    has gained exactly one row, the only one with that key. The row
    has the domain and the source of the two, and each item of its
    metadata is the second candidate's where that is not NULL and the
    first candidate's otherwise. *)
Theorem enqueue_twice_one_row companies gen_id1 gen_id2 now1 now2
        (c1 c2 : candidate) (d : string) (t : table) :
  c_domain c1 = Some d -> c_domain c2 = Some d -> c_source c1 = c_source c2 ->
  Forall (fun r => key_of r <> dedup_key normalize_domain normalize_name (Some d) (c_name c1)) t ->
  Forall (fun r => id r <> gen_id1) t ->
  candidate_fits c1 = true -> candidate_fits c2 = true ->
  exists t1 r,
    enqueue_ companies gen_id1 now1 c1 t = Ok t1 /\
    enqueue_ companies gen_id2 now2 c2 t1 = Ok (t ++ [r]) /\
    length (filter (fun x => key_of x = key_of r) (t ++ [r])) = 1%nat /\
    domain r = Some d /\ source r = c_source c1 /\
    location r = enrich (c_location c2) (c_location c1) /\
    country r = enrich (c_country c2) (c_country c1) /\
    industry r = enrich (c_industry c2) (c_industry c1) /\
    employee_count r = enrich (c_employee_count c2) (c_employee_count c1) /\
    funding_stage r = enrich (c_funding_stage c2) (c_funding_stage c1).
Proof.
  intros Hd1 Hd2 Hsrc Hfresh Hids Hfits1 Hfits2.
  assert (Hk1 : candidate_key normalize_domain normalize_name c1 = normalize_domain d)
    by (unfold candidate_key; by rewrite Hd1).
  assert (Hk2 : candidate_key normalize_domain normalize_name c2 = normalize_domain d)
    by (unfold candidate_key; by rewrite Hd2).
  assert (Hkey : key_of (new_item gen_id1 now1 c1) = normalize_domain d)
    by (unfold row_key; simpl; by rewrite Hd1).
  assert (Hkey' : key_of (merge c2 (new_item gen_id1 now1 c1)) = normalize_domain d)
    by (unfold row_key; simpl; by rewrite Hd1).
  simpl in Hfresh.
  exists (t ++ [new_item gen_id1 now1 c1]), (merge c2 (new_item gen_id1 now1 c1)).
  split_and!.
  - apply enqueue_new_returns; [by rewrite Hk1 | done | done].
  - apply enqueue_known_returns; [by rewrite Hk2 | done | by rewrite Hk2 | done | done].
  - rewrite Hkey', filter_app, filter_none by done.
    by rewrite filter_cons_True.
  - simpl. by rewrite Hd1.
  - done.
  - done.
  - done.
  - done.
  - done.
  - done.
Qed.

End Intake.

Lemma enqueue_twice_one_row_witness :
  exists t1 r,
    enqueue (fun s => s) (fun s => s) [] 1%N 10 Samples.acme_first [] = Ok t1 /\
    enqueue (fun s => s) (fun s => s) [] 2%N 20 Samples.acme_second t1 = Ok [r] /\
    location r = Some "Berlin"%string /\ country r = Some "DE"%string /\
    industry r = Some "hardware"%string /\ employee_count r = Some 40.
Proof.
  destruct (enqueue_twice_one_row (fun s => s) (fun s => s) [] 1%N 2%N 10 20
              Samples.acme_first Samples.acme_second "acme.test" []
              eq_refl eq_refl eq_refl (Forall_nil_2 _) (Forall_nil_2 _)
              eq_refl eq_refl)
    as (t1 & r & H1 & H2 & _ & _ & _ & Hloc & Hcountry & Hind & Hcount & _).
  exists t1, r.
  split_and!; [exact H1 | exact H2 | exact Hloc | exact Hcountry | exact Hind
              | exact Hcount].
Defined.

End DiscoveryIntakeFacts.

(** ** Facts about [isStageRunning] *)

Module PipelinePageFacts.
Import PipelinePage.

Section Registry.
Context {OperationStatus : Type}.

Lemma ops_loop_full_pipeline stageId keys :
  "full_pipeline" ∈ keys -> ops_loop stageId keys = true.
Proof.
  induction keys as [|k keys IH]; intros Hin.
  - by apply elem_of_nil in Hin.
  - simpl. destruct (String.eqb k stageId); [done|].
    destruct (startsWith k (stageId ++ "_")); [done|].
    destruct (String.eqb k "full_pipeline") eqn:Hk; [done|].
    apply IH. apply elem_of_cons in Hin as [Heq|Hin]; [|done].
    apply String.eqb_neq in Hk. congruence.
Qed.

Lemma Object_keys_spec (o : gmap string OperationStatus) k :
  k ∈ Object_keys o <-> is_Some (o !! k).
Proof.
  unfold Object_keys. rewrite list_elem_of_fmap. split.
  - intros [[k' v] [-> Hkv]]. apply elem_of_map_to_list in Hkv. by exists v.
  - intros [v Hv]. exists (k, v). split; [done|]. by apply elem_of_map_to_list.
Qed.

(** C10. Whenever the running-operations record has the key
    'full_pipeline', [isStageRunning] answers [true] for each of the
    four stages, whatever else the record and the list of database
    runs hold. *)
Theorem full_pipeline_subsumes_stage (s : StageType)
        (runningOps : gmap string OperationStatus)
        (runningRuns : list RunningPipelineRun) :
  is_Some (runningOps !! "full_pipeline") ->
  isStageRunning s runningOps runningRuns = true.
Proof.
  intros Hfull. unfold isStageRunning.
  rewrite ops_loop_full_pipeline; [done|].
  by apply Object_keys_spec.
Qed.

End Registry.

(** Without 'full_pipeline' the answer does depend on the stage. *)
Example crawl_greenhouse_is_crawl_only :
  isStageRunning crawl {["crawl_greenhouse" := tt]} [] = true /\
  isStageRunning enrich {["crawl_greenhouse" := tt]} [] = false.
Proof. split; vm_compute; reflexivity. Qed.

Lemma full_pipeline_subsumes_stage_witness :
  is_Some (({["full_pipeline" := tt]} : gmap string unit) !! "full_pipeline") /\
  isStageRunning enrich ({["full_pipeline" := tt]} : gmap string unit) [] = true.
Proof.
  split.
  - vm_compute. eexists. reflexivity.
  - apply (full_pipeline_subsumes_stage enrich). vm_compute. eexists. reflexivity.
Defined.

End PipelinePageFacts.

(** ** Facts about [seed_company] *)

Module CompaniesFacts.
Import Companies ListFacts.

(** A list of values that names NULL makes [IN] never FALSE. *)
Lemma tv_in_null_listed {A} (eqb : A -> A -> bool) (x : option A) vs :
  None ∈ vs -> tv_in eqb x vs <> Some false.
Proof.
  induction vs as [|v vs IH]; intros Hin.
  - by apply elem_of_nil in Hin.
  - simpl. apply elem_of_cons in Hin as [<-|Hin].
    + destruct x; simpl; by destruct (tv_in eqb _ vs) as [[|]|].
    + specialize (IH Hin). destruct (tv_eq eqb x v) as [[|]|]; simpl; [done| |].
      * by destruct (tv_in eqb x vs) as [[|]|].
      * by destruct (tv_in eqb x vs) as [[|]|].
Qed.

Lemma ats_type_check_passes r : check_passes (ats_type_check r) = true.
Proof.
  unfold ats_type_check.
  pose proof (tv_in_null_listed String.eqb (ats_type r) ats_type_values) as H.
  destruct (tv_in _ _ _) as [[|]|]; try done.
  exfalso. apply H; [|done]. unfold ats_type_values. set_solver.
Qed.

Lemma priority_check_spec r :
  check_passes (crawl_priority_check r) = true <-> priority_in_range (crawl_priority r).
Proof.
  unfold crawl_priority_check, priority_in_range.
  destruct (crawl_priority r) as [z|]; simpl; [|done].
  destruct (0 <=? z) eqn:H0, (z <=? 100) eqn:H1; simpl; split; try done; lia.
Qed.

Lemma proposed_checks gen_id now n d cu at' ai p :
  checks_pass (proposed gen_id now n d cu at' ai p) = true <-> priority_in_range p.
Proof.
  unfold checks_pass. rewrite ats_type_check_passes. simpl.
  rewrite andb_true_r. apply (priority_check_spec (proposed gen_id now n d cu at' ai p)).
Qed.

Lemma do_update_checks E old :
  checks_pass E = true -> checks_pass old = true -> checks_pass (do_update E old) = true.
Proof.
  unfold checks_pass. rewrite !ats_type_check_passes. simpl.
  intros HE Hold. apply andb_prop in HE as [HE _]. apply andb_prop in Hold as [_ Hold].
  apply andb_true_intro. split; [exact HE | exact Hold].
Qed.

Lemma conflicts_spec E old :
  conflicts E old <-> exists d, domain E = Some d /\ domain old = Some d.
Proof.
  unfold conflicts. destruct (domain E) as [d|], (domain old) as [d'|]; simpl.
  - destruct (String.eqb d d') eqn:Hd.
    + apply String.eqb_eq in Hd as ->. split; eauto.
    + apply String.eqb_neq in Hd. split; [done|]. intros (x & [= <-] & [= <-]). done.
  - split; [done|]. by intros (x & _ & ?).
  - split; [done|]. by intros (x & ? & _).
  - split; [done|]. by intros (x & ? & _).
Qed.

Lemma has_id_false gen_id (t : table) :
  existsb (fun old => N.eqb gen_id (id old)) t = false -> gen_id ∉ (id <$> t).
Proof.
  intros Hnone (r & -> & Hr)%list_elem_of_fmap.
  assert (existsb (fun old => N.eqb (id r) (id old)) t = true); [|congruence].
  apply existsb_exists. exists r. split; [by apply list_elem_of_In | apply N.eqb_refl].
Qed.

Lemma omap_domain_insert (t : table) k old new :
  t !! k = Some old -> domain new = domain old ->
  omap domain (<[k := new]> t) = omap domain t.
Proof.
  intros Hk Hd. destruct (split_at t k old Hk) as (l1 & l2 & -> & -> & _).
  rewrite !omap_app. simpl. by rewrite Hd.
Qed.

Lemma fmap_id_insert (t : table) k old new :
  t !! k = Some old -> id new = id old ->
  id <$> <[k := new]> t = id <$> t.
Proof.
  intros Hk Hd. destruct (split_at t k old Hk) as (l1 & l2 & -> & -> & _).
  rewrite !fmap_app. simpl. by rewrite Hd.
Qed.

(** What a call that returns has done. *)
Lemma seed_company_Ok gen_id now p_name d cu at' ai p (t t' : table) i :
  seed_company gen_id now p_name d cu at' ai p t = Ok (t', i) ->
  exists n, p_name = Some n /\ priority_in_range p /\
    let E := proposed gen_id now n d cu at' ai p in
    ((exists k old, list_find (conflicts E) t = Some (k, old) /\
                    t' = <[k := do_update E old]> t /\ i = id old) \/
     (list_find (conflicts E) t = None /\ (gen_id ∉ (id <$> t)) /\
      t' = t ++ [E] /\ i = gen_id)).
Proof.
  unfold seed_company.
  destruct (negb (Jobs.nullable_in_int4 p)); [discriminate|].
  destruct p_name as [n|]; [|discriminate].
  destruct (checks_pass (proposed _ _ _ _ _ _ _ _)) eqn:Hc; simpl; [|discriminate].
  apply proposed_checks in Hc.
  destruct (list_find _ t) as [[k old]|] eqn:Hfind.
  - destruct (checks_pass (do_update _ old)); simpl; [|discriminate].
    intros [= <- <-]. exists n. split_and!; try done. left. eauto.
  - destruct (existsb _ t) eqn:Hid; [discriminate|].
    intros [= <- <-]. exists n. split_and!; try done. right.
    split_and!; try done. by apply has_id_false.
Qed.

(** When a call returns. *)
Lemma seed_company_returns gen_id now n d cu at' ai p (t : table) :
  valid t -> priority_in_range p ->
  ((gen_id ∉ (id <$> t)) \/ exists old dd, old ∈ t /\ d = Some dd /\ domain old = Some dd) ->
  exists t' i, seed_company gen_id now (Some n) d cu at' ai p t = Ok (t', i).
Proof.
  intros [_ Hchecks] Hp Hfresh. unfold seed_company.
  assert (Hint : Jobs.nullable_in_int4 p = true).
  { destruct p as [z|]; [|done]. simpl in *. unfold in_int4, int4_min, int4_max.
    apply andb_true_intro. split; apply Z.leb_le; lia. }
  rewrite Hint. simpl.
  pose proof (proj2 (proposed_checks gen_id now n d cu at' ai p) Hp) as HE.
  rewrite HE. simpl.
  destruct (list_find _ t) as [[k old]|] eqn:Hfind.
  - apply list_find_Some in Hfind as (Hk & _).
    rewrite do_update_checks; [simpl; eauto | done |].
    eapply Forall_forall in Hchecks; [exact Hchecks|].
    apply list_elem_of_lookup. eauto.
  - destruct Hfresh as [Hfresh|(old & dd & Hold & -> & Hd)].
    + destruct (existsb _ t) eqn:Hid; [|eauto].
      exfalso. apply Hfresh. apply existsb_exists in Hid as (r & Hr & Heq).
      apply N.eqb_eq in Heq as ->. apply list_elem_of_fmap_2. by apply list_elem_of_In.
    + exfalso. eapply list_find_None in Hfind.
      eapply Forall_forall in Hfind; [|exact Hold].
      apply Hfind. apply conflicts_spec. eauto.
Qed.

Lemma seed_company_valid gen_id now p_name d cu at' ai p (t t' : table) i :
  valid t ->
  seed_company gen_id now p_name d cu at' ai p t = Ok (t', i) ->
  valid t'.
Proof.
  intros [[Hid Hdom] Hchecks] Hrun.
  apply seed_company_Ok in Hrun as (n & -> & Hp & Hcases).
  pose proof (proj2 (proposed_checks gen_id now n d cu at' ai p) Hp) as HE.
  destruct Hcases as [(k & old & Hfind & -> & ->)|(Hfind & Hfresh & -> & ->)].
  - apply list_find_Some in Hfind as (Hk & _).
    assert (Hold : checks_pass old = true).
    { eapply Forall_forall in Hchecks; [exact Hchecks|]. apply list_elem_of_lookup. eauto. }
    split; [split|].
    + by rewrite (fmap_id_insert t k old).
    + by rewrite (omap_domain_insert t k old).
    + apply Forall_insert; [done|]. by apply do_update_checks.
  - split; [split|].
    + rewrite fmap_app. simpl. apply NoDup_app. split_and!; [done| |apply NoDup_singleton].
      intros x Hx ->%list_elem_of_singleton. done.
    + rewrite omap_app. simpl. destruct d as [dd|]; simpl; [|by rewrite app_nil_r].
      apply NoDup_app. split_and!; [done| |apply NoDup_singleton].
      intros x Hx ->%list_elem_of_singleton.
      apply list_elem_of_omap in Hx as (old & Hold & Hd).
      eapply list_find_None in Hfind. eapply Forall_forall in Hfind; [|exact Hold].
      apply Hfind. apply conflicts_spec. eauto.
    + apply Forall_app. split; [done|]. by repeat constructor.
Qed.

(** X1. [seed_company] keeps the table valid and loses nothing: after
    a call that returns, ids are still unique, no domain occurs in two
    rows and every row passes the CHECK constraints; every id that was
    in the table still is, at most one row has been added, and the id
    returned is that of a row of the table. *)
Theorem seed_company_keeps_valid gen_id now p_name d cu at' ai p (t t' : table) i :
  valid t ->
  seed_company gen_id now p_name d cu at' ai p t = Ok (t', i) ->
  valid t' /\
  (forall x, x ∈ id <$> t -> x ∈ id <$> t') /\
  (length t <= length t' <= S (length t))%nat /\
  i ∈ id <$> t'.
Proof.
  intros Hvalid Hrun. split; [by eapply seed_company_valid|].
  apply seed_company_Ok in Hrun as (n & -> & Hp & Hcases).
  destruct Hcases as [(k & old & Hfind & -> & ->)|(Hfind & Hfresh & -> & ->)].
  - apply list_find_Some in Hfind as (Hk & _).
    rewrite (fmap_id_insert t k old) by done. rewrite length_insert.
    split_and!; [done | lia | lia |].
    apply list_elem_of_fmap_2. by eapply list_elem_of_lookup_2.
  - rewrite fmap_app, length_app. simpl. split_and!; [|lia|lia|].
    + intros x Hx. apply elem_of_app. by left.
    + apply elem_of_app. right. apply list_elem_of_here.
Qed.

Lemma seed_company_keeps_valid_witness :
  valid Samples.two_companies /\
  (valid Samples.two_companies_reseeded /\
   (forall x, x ∈ id <$> Samples.two_companies ->
              x ∈ id <$> Samples.two_companies_reseeded) /\
   (length Samples.two_companies <= length Samples.two_companies_reseeded
    <= S (length Samples.two_companies))%nat /\
   1%N ∈ id <$> Samples.two_companies_reseeded).
Proof.
  assert (Hvalid : valid Samples.two_companies).
  { split; [split|].
    - apply (bool_decide_unpack (NoDup (id <$> Samples.two_companies))).
      vm_compute. exact I.
    - apply (bool_decide_unpack (NoDup (omap domain Samples.two_companies))).
      vm_compute. exact I.
    - repeat constructor. }
  split; [exact Hvalid|].
  apply (seed_company_keeps_valid 3%N 10 (Some "Acme Inc."%string)
           (Some "acme.test"%string) (Some "https://acme.test/careers"%string)
           (Some "greenhouse"%string) (Some "acme"%string) (Some 80)
           Samples.two_companies Samples.two_companies_reseeded 1%N Hvalid).
  vm_compute. reflexivity.
Defined.

(** Under the unique index, the row that stands in the way is the only
    one with the domain. *)
Lemma find_by_domain (t : table) E old dd :
  NoDup (omap domain t) -> old ∈ t -> domain old = Some dd -> domain E = Some dd ->
  exists k, list_find (conflicts E) t = Some (k, old).
Proof.
  intros Hnd Hold Hd HE.
  destruct (list_find (conflicts E) t) as [[k x]|] eqn:Hfind.
  - exists k. apply list_find_Some in Hfind as (Hk & Hx & _).
    apply conflicts_spec in Hx as (d' & Hd1 & Hd2).
    rewrite HE in Hd1. injection Hd1 as <-.
    apply list_elem_of_lookup in Hold as [k' Hk'].
    destruct (decide (k = k')) as [->|Hne]; [congruence|].
    exfalso.
    assert (Hkey : forall (l : table) a b (ra rb : row), a <> b ->
              l !! a = Some ra -> l !! b = Some rb ->
              domain ra = Some dd -> domain rb = Some dd -> ~ NoDup (omap domain l)).
    { clear. intros l. induction l as [|r l IH]; intros a b ra rb Hab Ha Hb Hda Hdb Hnd.
      - by rewrite lookup_nil in Ha.
      - destruct a as [|a], b as [|b]; simpl in *.
        + done.
        + injection Ha as ->. rewrite Hda in Hnd. apply NoDup_cons in Hnd as [Hnot _].
          apply Hnot. apply list_elem_of_omap. exists rb.
          split; [by eapply list_elem_of_lookup_2 | done].
        + injection Hb as ->. rewrite Hdb in Hnd. apply NoDup_cons in Hnd as [Hnot _].
          apply Hnot. apply list_elem_of_omap. exists ra.
          split; [by eapply list_elem_of_lookup_2 | done].
        + apply (IH a b ra rb); try done; [congruence|].
          destruct (domain r); [by apply NoDup_cons in Hnd as [_ ?] | done]. }
    by apply (Hkey t k k' x old Hne Hk Hk' Hd2 Hd).
  - exfalso. eapply list_find_None in Hfind. eapply Forall_forall in Hfind; [|exact Hold].
    apply Hfind. apply conflicts_spec. eauto.
Qed.

(** Seeding a domain that is there updates the row that has it. *)
Lemma seed_company_updates gen_id now n dd cu at' ai p (t : table) old :
  valid t -> priority_in_range p -> old ∈ t -> domain old = Some dd ->
  exists k,
    t !! k = Some old /\
    seed_company gen_id now (Some n) (Some dd) cu at' ai p t
      = Ok (<[k := do_update (proposed gen_id now n (Some dd) cu at' ai p) old]> t,
            id old).
Proof.
  intros Hvalid Hp Hold Hd.
  set (E := proposed gen_id now n (Some dd) cu at' ai p).
  destruct Hvalid as [[Hid Hdom] Hchecks].
  destruct (find_by_domain t E old dd Hdom Hold Hd eq_refl) as [k Hfind].
  exists k. pose proof Hfind as Hfind'.
  apply list_find_Some in Hfind' as (Hk & _).
  split; [done|].
  - unfold seed_company.
    assert (Hint : Jobs.nullable_in_int4 p = true).
    { destruct p as [z|]; [|done]. simpl in *. unfold in_int4, int4_min, int4_max.
      apply andb_true_intro. split; apply Z.leb_le; lia. }
    rewrite Hint. simpl.
    pose proof (proj2 (proposed_checks gen_id now n (Some dd) cu at' ai p) Hp) as HE.
    fold E in HE |- *. rewrite HE. simpl. rewrite Hfind.
    rewrite do_update_checks; [done | done |].
    eapply Forall_forall in Hchecks; [exact Hchecks | done].
Qed.

(** X2. Seeding a company whose domain is already in the table updates
    the row that has it, in place: the call returns the id of that row
    and adds none; the row takes the name, careers URL, ATS type, ATS
    identifier and priority given, and keeps everything else, its
    activity flag and its creation time included; all other rows stay
    as they were. *)
Theorem seed_company_existing_domain gen_id now n dd cu at' ai p (t : table) old :
  valid t -> priority_in_range p -> old ∈ t -> domain old = Some dd ->
  exists k new,
    t !! k = Some old /\
    seed_company gen_id now (Some n) (Some dd) cu at' ai p t
      = Ok (<[k := new]> t, id old) /\
    id <$> <[k := new]> t = id <$> t /\
    id new = id old /\ domain new = domain old /\
    is_active new = is_active old /\
    created_at new = created_at old /\
    last_crawled_at new = last_crawled_at old /\
    (name new, careers_url new, ats_type new, ats_identifier new, crawl_priority new)
      = (n, cu, at', ai, p) /\
    forall k' r, k' <> k -> t !! k' = Some r -> <[k := new]> t !! k' = Some r.
Proof.
  intros Hvalid Hp Hold Hd.
  destruct (seed_company_updates gen_id now n dd cu at' ai p t old Hvalid Hp Hold Hd)
    as (k & Hk & Hrun).
  exists k, (do_update (proposed gen_id now n (Some dd) cu at' ai p) old).
  split_and!; try done.
  - by rewrite (fmap_id_insert t k old).
  - intros k' r Hne Hk'. rewrite list_lookup_insert_ne; done.
Qed.

Lemma seed_company_existing_domain_witness :
  seed_company 2%N 10 (Some "Acme Inc."%string) (Some "acme.test"%string)
               (Some "https://acme.test/jobs"%string) None None (Some 80)
               [Samples.acme_company]
  = Ok ([do_update (proposed 2%N 10 "Acme Inc." (Some "acme.test"%string)
                             (Some "https://acme.test/jobs"%string) None None (Some 80))
                   Samples.acme_company], 1%N).
Proof.
  assert (Hvalid : valid [Samples.acme_company]).
  { split; [split; simpl; repeat constructor; set_solver | by repeat constructor]. }
  destruct (seed_company_existing_domain 2%N 10 "Acme Inc." "acme.test"
              (Some "https://acme.test/jobs"%string) None None (Some 80)
              [Samples.acme_company] Samples.acme_company Hvalid)
    as (k & new & Hk & Hrun & _).
  - simpl. lia.
  - apply list_elem_of_here.
  - reflexivity.
  - vm_compute. reflexivity.
Defined.

(** X3. Seeding is idempotent for a company that has a domain: a call
    repeated with the same arguments, at any later time and whatever
    id would be generated, returns the same id and leaves the table as
    the first call left it. *)
Theorem seed_company_idempotent gen_id now gen_id' now' n dd cu at' ai p (t t1 : table) i :
  valid t ->
  seed_company gen_id now (Some n) (Some dd) cu at' ai p t = Ok (t1, i) ->
  seed_company gen_id' now' (Some n) (Some dd) cu at' ai p t1 = Ok (t1, i).
Proof.
  intros Hvalid Hrun.
  pose proof (seed_company_valid _ _ _ _ _ _ _ _ _ _ _ Hvalid Hrun) as Hvalid1.
  apply seed_company_Ok in Hrun as (n' & [= <-] & Hp & Hcases).
  (* the row of [t1] that carries the domain, and where it is *)
  assert (Hrow : exists k r, t1 !! k = Some r /\ domain r = Some dd /\ id r = i /\
                   name r = n /\ careers_url r = cu /\ ats_type r = at' /\
                   ats_identifier r = ai /\ crawl_priority r = p).
  { destruct Hcases as [(k & old & Hfind & -> & ->)|(Hfind & Hfresh & -> & ->)].
    - apply list_find_Some in Hfind as (Hk & Hc & _).
      apply conflicts_spec in Hc as (d' & [= <-] & Hd).
      exists k, (do_update (proposed gen_id now n (Some dd) cu at' ai p) old).
      split_and!; try done.
      apply list_lookup_insert_eq. by eapply lookup_lt_Some.
    - exists (length t), (proposed gen_id now n (Some dd) cu at' ai p).
      split_and!; try done. by rewrite lookup_app_r, Nat.sub_diag. }
  destruct Hrow as (k & r & Hk & Hd & <- & <- & <- & <- & <- & <-).
  destruct (seed_company_updates gen_id' now' (name r) dd (careers_url r)
              (ats_type r) (ats_identifier r) (crawl_priority r) t1 r Hvalid1 Hp)
    as (k' & Hk' & Hrun'); [by eapply list_elem_of_lookup_2 | done |].
  rewrite Hrun'. do 2 f_equal.
  assert (Hsame : do_update (proposed gen_id' now' (name r) (Some dd) (careers_url r)
                                      (ats_type r) (ats_identifier r) (crawl_priority r)) r
                  = r) by (by destruct r).
  rewrite Hsame. by apply list_insert_id.
Qed.

Lemma seed_company_idempotent_witness :
  seed_company 7%N 99 (Some "Acme"%string) (Some "acme.test"%string) None None None
               (Some 50)
               [proposed 1%N 0 "Acme" (Some "acme.test"%string) None None None (Some 50)]
  = Ok ([proposed 1%N 0 "Acme" (Some "acme.test"%string) None None None (Some 50)], 1%N).
Proof.
  apply (seed_company_idempotent 1%N 0 7%N 99 "Acme" "acme.test" None None None
           (Some 50) []).
  - split; [split; simpl; constructor | constructor].
  - reflexivity.
Defined.

(** X4. A company seeded without a domain is never recognised again:
    each call with a NULL domain adds a row of its own, so that seeding
    the same company twice leaves two rows for it. *)
Theorem seed_company_null_domain_adds gen_id now gen_id' now' n cu at' ai p (t : table) :
  valid t -> priority_in_range p ->
  gen_id ∉ (id <$> t) -> gen_id' ∉ (id <$> t) -> gen_id <> gen_id' ->
  exists t1 t2,
    seed_company gen_id now (Some n) None cu at' ai p t = Ok (t1, gen_id) /\
    seed_company gen_id' now' (Some n) None cu at' ai p t1 = Ok (t2, gen_id') /\
    t2 = t ++ [proposed gen_id now n None cu at' ai p;
               proposed gen_id' now' n None cu at' ai p] /\
    length (filter (fun r => name r = n /\ domain r = None) t2)
      = S (S (length (filter (fun r => name r = n /\ domain r = None) t))).
Proof.
  intros Hvalid Hp Hfresh Hfresh' Hne.
  assert (Hint : Jobs.nullable_in_int4 p = true).
  { destruct p as [z|]; [|done]. simpl in *. unfold in_int4, int4_min, int4_max.
    apply andb_true_intro. split; apply Z.leb_le; lia. }
  assert (Hstep : forall g w (l : table), g ∉ (id <$> l) ->
            seed_company g w (Some n) None cu at' ai p l
            = Ok (l ++ [proposed g w n None cu at' ai p], g)).
  { intros g w l Hg. unfold seed_company. rewrite Hint. simpl.
    rewrite (proj2 (proposed_checks g w n None cu at' ai p) Hp). simpl.
    rewrite list_find_fresh.
    - destruct (existsb _ l) eqn:Hid; [|done].
      exfalso. apply Hg. apply existsb_exists in Hid as (r & Hr & Heq).
      apply N.eqb_eq in Heq as ->. apply list_elem_of_fmap_2. by apply list_elem_of_In.
    - apply Forall_forall. intros r _ (d & Hd & _)%conflicts_spec. discriminate. }
  exists (t ++ [proposed gen_id now n None cu at' ai p]),
         (t ++ [proposed gen_id now n None cu at' ai p;
                proposed gen_id' now' n None cu at' ai p]).
  split_and!.
  - by apply Hstep.
  - rewrite Hstep.
    + by rewrite <- app_assoc.
    + rewrite fmap_app. simpl. intros [Hin|Hin%list_elem_of_singleton]%elem_of_app; done.
  - done.
  - rewrite filter_app, length_app.
    rewrite filter_cons_True by done. rewrite filter_cons_True by done.
    simpl. lia.
Qed.

Lemma seed_company_null_domain_adds_witness :
  exists t2,
    seed_company 2%N 10 (Some "Acme"%string) None None None None (Some 50)
                 [proposed 1%N 0 "Acme" None None None None (Some 50)] = Ok (t2, 2%N) /\
    length t2 = 2%nat.
Proof.
  destruct (seed_company_null_domain_adds 1%N 0 2%N 10 "Acme" None None None (Some 50) [])
    as (t1 & t2 & H1 & H2 & -> & _).
  - split; [split; simpl; constructor | constructor].
  - simpl. lia.
  - set_solver.
  - set_solver.
  - discriminate.
  - exists ([] ++ [proposed 1%N 0 "Acme" None None None None (Some 50);
                   proposed 2%N 10 "Acme" None None None None (Some 50)]).
    split; [|reflexivity].
    assert (Ht1 : t1 = [proposed 1%N 0 "Acme" None None None None (Some 50)]).
    { vm_compute in H1. by injection H1 as <-. }
    rewrite <- Ht1. exact H2.
Defined.

(** X5. When [seed_company] raises. On a valid table the call raises
    exactly when the name is NULL, or the priority is outside 0..100,
    or the generated id is taken while no row has the domain given. In
    particular a priority out of range is turned down also when the
    company is there already and the call would only update it. *)
Theorem seed_company_raises_iff gen_id now p_name d cu at' ai p (t : table) :
  valid t ->
  (exists e, seed_company gen_id now p_name d cu at' ai p t = Raise e) <->
  p_name = None \/ ~ priority_in_range p \/
  (gen_id ∈ id <$> t /\ forall old, old ∈ t -> d = None \/ domain old <> d).
Proof.
  intros Hvalid. split.
  - intros [e He]. destruct p_name as [n|]; [right | by left].
    assert (Hdec : priority_in_range p \/ ~ priority_in_range p).
    { destruct p as [z|]; simpl; [lia | by left]. }
    destruct Hdec as [Hp|Hp]; [right | by left].
    assert (Hnone : forall old, old ∈ t -> d = None \/ domain old <> d).
    { intros old Hold. destruct d as [dd|]; [right | by left]. intros Hd.
      destruct (seed_company_returns gen_id now n (Some dd) cu at' ai p t Hvalid Hp)
        as (t' & i & Hrun); [right; eauto | congruence]. }
    split; [|done].
    destruct (decide (gen_id ∈ id <$> t)) as [|Hfresh]; [done|].
    destruct (seed_company_returns gen_id now n d cu at' ai p t Hvalid Hp)
      as (t' & i & Hrun); [by left | congruence].
  - intros Hcases. unfold seed_company.
    destruct (negb (Jobs.nullable_in_int4 p)); [eauto|].
    destruct p_name as [n|]; [|eauto].
    destruct (checks_pass (proposed _ _ _ _ _ _ _ _)) eqn:Hc; simpl; [|eauto].
    apply proposed_checks in Hc.
    destruct Hcases as [?|[?|[Htaken Hnone]]]; [done | done |].
    destruct (list_find _ t) as [[k old]|] eqn:Hfind.
    + exfalso. apply list_find_Some in Hfind as (Hk & Hconf & _).
      apply conflicts_spec in Hconf as (dd & Hd & Hold). simpl in Hd.
      destruct (Hnone old) as [?|Hne]; [by eapply list_elem_of_lookup_2 | congruence|].
      apply Hne. congruence.
    + destruct (existsb _ t) eqn:Hid; [eauto|].
      by apply has_id_false in Hid.
Qed.

Lemma seed_company_raises_iff_witness :
  exists e, seed_company 2%N 10 (Some "Acme"%string) (Some "acme.test"%string) None None
                         None (Some 101) [Samples.acme_company] = Raise e.
Proof.
  assert (Hvalid : valid [Samples.acme_company]).
  { split; [split; simpl; repeat constructor; set_solver | by repeat constructor]. }
  apply (seed_company_raises_iff 2%N 10 (Some "Acme"%string) (Some "acme.test"%string)
           None None None (Some 101) [Samples.acme_company] Hvalid).
  right. left. simpl. lia.
Defined.

End CompaniesFacts.

(** ** Facts about the views [job_feed] and [candidate_matches] *)

Module ViewsFacts.
Import ListFacts.

Lemma elem_of_inner_join {A B} (on : A -> B -> tv) (l : list A) (r : list B) a b :
  (a, b) ∈ inner_join on l r <-> a ∈ l /\ b ∈ r /\ on a b = Some true.
Proof.
  unfold inner_join. rewrite list_elem_of_bind. split.
  - intros (a' & Hin & Ha). apply list_elem_of_bind in Hin as (b' & Hin & Hb).
    destruct (on a' b') as [[|]|] eqn:Hon; simpl in Hin;
      try by apply elem_of_nil in Hin.
    apply list_elem_of_singleton in Hin as [= -> ->]. done.
  - intros (Ha & Hb & Hon). exists a. split; [|done].
    apply list_elem_of_bind. exists b. split; [|done].
    rewrite Hon. simpl. apply list_elem_of_here.
Qed.

Lemma N_eq_TRUE (x : option uuid) (y : uuid) :
  tv_eq N.eqb x (Some y) = Some true <-> x = Some y.
Proof.
  destruct x as [z|]; simpl; [|done]. split.
  - intros [= H]. apply N.eqb_eq in H. by subst.
  - intros [= ->]. by rewrite N.eqb_refl.
Qed.

Lemma bool_eq_TRUE (x : option bool) :
  tv_eq Bool.eqb x (Some true) = Some true <-> x = Some true.
Proof. destruct x as [[|]|]; simpl; split; done. Qed.

Lemma is_true_spec (c : tv) : is_true c = true <-> c = Some true.
Proof. destruct c as [[|]|]; simpl; split; done. Qed.

Lemma tv_and_TRUE (a b : tv) : tv_and a b = Some true <-> a = Some true /\ b = Some true.
Proof. destruct a as [[|]|], b as [[|]|]; simpl; split; try done; by intros [? ?]. Qed.

(** Under the primary key of the right-hand table, a row of the left
    finds at most one partner. *)
Lemma one_partner {A} (key : A -> option uuid) (a : A) (companies : Companies.table) :
  NoDup (Companies.id <$> companies) ->
  (length (companies ≫= fun c =>
             if is_true (tv_eq N.eqb (key a) (Some (Companies.id c)))
             then [(a, c)] else []) <= 1)%nat.
Proof.
  induction companies as [|c cs IH]; intros Hnd; [simpl; lia|].
  rewrite fmap_cons in Hnd. apply NoDup_cons in Hnd as [Hc Hnd].
  rewrite bind_cons, length_app. specialize (IH Hnd).
  destruct (is_true _) eqn:Hon; simpl; [|lia].
  apply is_true_spec, N_eq_TRUE in Hon.
  assert (Hnone : (cs ≫= fun c =>
             if is_true (tv_eq N.eqb (key a) (Some (Companies.id c)))
             then [(a, c)] else []) = []).
  { clear IH Hnd. induction cs as [|c' cs IH]; [done|].
    rewrite bind_cons, IH.
    - destruct (is_true _) eqn:Hon'; [|done].
      apply is_true_spec, N_eq_TRUE in Hon'.
      exfalso. apply Hc. rewrite fmap_cons.
      assert (Companies.id c = Companies.id c') as -> by congruence.
      apply list_elem_of_here.
    - intros Hin. apply Hc. rewrite fmap_cons. by apply list_elem_of_further. }
  rewrite Hnone. simpl. lia.
Qed.

Lemma NoDup_short {A} (l : list A) : (length l <= 1)%nat -> NoDup l.
Proof.
  destruct l as [|x [|y l]]; simpl; intros H; [constructor | apply NoDup_singleton | lia].
Qed.

Lemma NoDup_fmap_filter {A B} (f : A -> B) (P : A -> Prop)
      `{!forall x, Decision (P x)} (l : list A) :
  NoDup (f <$> l) -> NoDup (f <$> filter P l).
Proof.
  induction l as [|x l IH]; [done|]. rewrite fmap_cons.
  intros [Hx Hnd]%NoDup_cons.
  destruct (decide (P x)).
  - rewrite filter_cons_True by done. rewrite fmap_cons. apply NoDup_cons.
    split; [|auto]. intros (y & Hy & [_ Hin]%list_elem_of_filter)%list_elem_of_fmap.
    apply Hx. rewrite Hy. by apply list_elem_of_fmap_2.
  - rewrite filter_cons_False by done. auto.
Qed.

(** The join of the jobs with their companies lists no job twice. *)
Lemma jobs_join_once (jobs : Jobs.table) (companies : Companies.table) :
  NoDup (Jobs.id <$> jobs) -> NoDup (Companies.id <$> companies) ->
  NoDup ((fun jc => Jobs.id jc.1)
           <$> inner_join JobFeed.on_company jobs companies).
Proof.
  intros Hjobs Hcompanies. unfold inner_join, JobFeed.on_company.
  induction jobs as [|j jobs IH]; [constructor|].
  rewrite fmap_cons in Hjobs. apply NoDup_cons in Hjobs as [Hj Hjobs].
  rewrite bind_cons, fmap_app. apply NoDup_app. split_and!.
  - apply NoDup_short. rewrite length_fmap.
    by apply (one_partner Jobs.company_id j companies).
  - intros i (x & -> & Hx)%list_elem_of_fmap (y & Hi & Hy)%list_elem_of_fmap.
    apply list_elem_of_bind in Hx as (c & Hx & _).
    destruct (is_true _); [|by apply elem_of_nil in Hx].
    apply list_elem_of_singleton in Hx as ->. simpl in Hi.
    apply list_elem_of_bind in Hy as (j' & Hy & Hj').
    apply list_elem_of_bind in Hy as (c' & Hy & _).
    destruct (is_true _); [|by apply elem_of_nil in Hy].
    apply list_elem_of_singleton in Hy as ->. simpl in Hi.
    apply Hj. rewrite Hi. by apply list_elem_of_fmap_2.
  - by apply IH.
Qed.

Lemma job_feed_elem (jobs : Jobs.table) (companies : Companies.table) r :
  r ∈ JobFeed.job_feed jobs companies <->
  exists j c, r = JobFeed.select_columns (j, c) /\ j ∈ jobs /\ c ∈ companies /\
              Jobs.company_id j = Some (Companies.id c) /\
              Jobs.is_active j = Some true /\ Companies.is_active c = Some true.
Proof.
  unfold JobFeed.job_feed. rewrite list_elem_of_fmap. split.
  - intros ([j c] & -> & [Hw Hin]%list_elem_of_filter).
    apply elem_of_inner_join in Hin as (Hj & Hc & Hon).
    apply N_eq_TRUE in Hon.
    apply (proj1 (is_true_spec _)) in Hw. unfold JobFeed.where_active in Hw.
    apply (proj1 (tv_and_TRUE _ _)) in Hw as [Hja Hca].
    apply (proj1 (bool_eq_TRUE _)) in Hja. apply (proj1 (bool_eq_TRUE _)) in Hca.
    simpl in Hja, Hca.
    exists j, c. split_and!; done.
  - intros (j & c & -> & Hj & Hc & Hon & Hja & Hca). exists (j, c). split; [done|].
    apply list_elem_of_filter. split.
    + apply is_true_spec, tv_and_TRUE. split; by apply bool_eq_TRUE.
    + apply elem_of_inner_join. split_and!; try done. by apply N_eq_TRUE.
Qed.

(** X6. The job feed lists exactly the active jobs of active
    companies, each of them once: a job that is inactive, that has no
    company, or whose company is inactive is not in the feed, and no
    job is listed twice. *)
Theorem job_feed_lists_active_jobs_once (jobs : Jobs.table)
        (companies : Companies.table) :
  NoDup (Jobs.id <$> jobs) -> NoDup (Companies.id <$> companies) ->
  NoDup (JobFeed.id <$> JobFeed.job_feed jobs companies) /\
  (forall j, j ∈ jobs ->
     (exists r, r ∈ JobFeed.job_feed jobs companies /\ JobFeed.id r = Jobs.id j) <->
     Jobs.is_active j = Some true /\
     exists c, c ∈ companies /\ Jobs.company_id j = Some (Companies.id c) /\
               Companies.is_active c = Some true).
Proof.
  intros Hjobs Hcompanies. split.
  - unfold JobFeed.job_feed. rewrite <- list_fmap_compose.
    apply (NoDup_fmap_filter (JobFeed.id ∘ JobFeed.select_columns)).
    assert (Hext : forall l : list (Jobs.row * Companies.row),
               JobFeed.id ∘ JobFeed.select_columns <$> l
               = (fun jc => Jobs.id jc.1) <$> l).
    { intros l. apply list_fmap_ext. by intros _ [j c] _. }
    rewrite Hext. by apply jobs_join_once.
  - intros j Hj. split.
    + intros (r & Hr & Hid).
      apply job_feed_elem in Hr as (j' & c & -> & Hj' & Hc & Hon & Hja & Hca).
      simpl in Hid.
      assert (j' = j) as ->.
      { apply list_elem_of_lookup in Hj as [k Hk], Hj' as [k' Hk'].
        assert (k' = k) as ->; [|congruence].
        eapply NoDup_lookup; [exact Hjobs | |];
          rewrite list_lookup_fmap; [rewrite Hk' | rewrite Hk]; simpl; by f_equal. }
      eauto.
    + intros (Hja & c & Hc & Hon & Hca).
      exists (JobFeed.select_columns (j, c)). split; [|done].
      apply job_feed_elem. exists j, c. done.
Qed.

Lemma job_feed_lists_active_jobs_once_witness :
  JobFeed.id <$> JobFeed.job_feed Samples.catalogue Samples.two_companies = [21%N; 22%N] /\
  NoDup (JobFeed.id <$> JobFeed.job_feed Samples.catalogue Samples.two_companies) /\
  (forall j, j ∈ Samples.catalogue ->
     (exists r, r ∈ JobFeed.job_feed Samples.catalogue Samples.two_companies /\
                JobFeed.id r = Jobs.id j) <->
     Jobs.is_active j = Some true /\
     exists c, c ∈ Samples.two_companies /\ Jobs.company_id j = Some (Companies.id c) /\
               Companies.is_active c = Some true).
Proof.
  split; [vm_compute; reflexivity|].
  apply (job_feed_lists_active_jobs_once Samples.catalogue Samples.two_companies).
  - apply (bool_decide_unpack (NoDup (Jobs.id <$> Samples.catalogue))).
    vm_compute. exact I.
  - apply (bool_decide_unpack (NoDup (Companies.id <$> Samples.two_companies))).
    vm_compute. exact I.
Defined.

Lemma candidate_matches_elem (matches : Matches.table) (jobs : Jobs.table)
      (companies : Companies.table) r :
  r ∈ CandidateMatches.candidate_matches matches jobs companies <->
  exists m j c, r = CandidateMatches.select_columns (m, j, c) /\
                m ∈ matches /\ j ∈ jobs /\ c ∈ companies /\
                Matches.job_id m = Some (Jobs.id j) /\
                Jobs.company_id j = Some (Companies.id c) /\
                Jobs.is_active j = Some true.
Proof.
  unfold CandidateMatches.candidate_matches. rewrite list_elem_of_fmap. split.
  - intros ([[m j] c] & -> & [Hw Hin]%list_elem_of_filter).
    apply elem_of_inner_join in Hin as (Hmj & Hc & Hon).
    apply elem_of_inner_join in Hmj as (Hm & Hj & Hon').
    apply N_eq_TRUE in Hon, Hon'.
    apply (proj1 (is_true_spec _)) in Hw. unfold CandidateMatches.where_active in Hw.
    apply (proj1 (bool_eq_TRUE _)) in Hw. simpl in Hw, Hon.
    exists m, j, c. split_and!; done.
  - intros (m & j & c & -> & Hm & Hj & Hc & Hon' & Hon & Hja).
    exists (m, j, c). split; [done|].
    apply list_elem_of_filter. split.
    + by apply is_true_spec, bool_eq_TRUE.
    + apply elem_of_inner_join. split_and!; try done; [|by apply N_eq_TRUE].
      apply elem_of_inner_join. split_and!; try done. by apply N_eq_TRUE.
Qed.

(** X7. The two views do not agree on companies that are not active.
    A match for an active job is listed by [candidate_matches] with the
    job and its company, whether the company is active or not, while
    [job_feed] leaves the job out when the company is not active. *)
Theorem candidate_matches_ignores_company_status (matches : Matches.table)
        (jobs : Jobs.table) (companies : Companies.table) m j c :
  NoDup (Jobs.id <$> jobs) -> NoDup (Companies.id <$> companies) ->
  m ∈ matches -> j ∈ jobs -> c ∈ companies ->
  Matches.job_id m = Some (Jobs.id j) ->
  Jobs.company_id j = Some (Companies.id c) ->
  Jobs.is_active j = Some true ->
  (exists r, r ∈ CandidateMatches.candidate_matches matches jobs companies /\
             CandidateMatches.match_id r = Matches.id m /\
             CandidateMatches.job_id r = Jobs.id j /\
             CandidateMatches.company_id r = Companies.id c) /\
  (Companies.is_active c <> Some true ->
   forall r, r ∈ JobFeed.job_feed jobs companies -> JobFeed.id r <> Jobs.id j).
Proof.
  intros Hjobs Hcompanies Hm Hj Hc Hmj Hjc Hja. split.
  - exists (CandidateMatches.select_columns (m, j, c)). split; [|done].
    apply candidate_matches_elem. exists m, j, c. done.
  - intros Hinactive r Hr Hid.
    apply job_feed_elem in Hr as (j' & c' & -> & Hj' & Hc' & Hon & _ & Hca).
    simpl in Hid.
    assert (j' = j) as ->.
    { apply list_elem_of_lookup in Hj as [k Hk], Hj' as [k' Hk'].
      assert (k' = k) as ->; [|congruence].
      eapply NoDup_lookup; [exact Hjobs | |];
        rewrite list_lookup_fmap; [rewrite Hk' | rewrite Hk]; simpl; by f_equal. }
    assert (c' = c) as ->.
    { apply list_elem_of_lookup in Hc as [k Hk], Hc' as [k' Hk'].
      assert (k' = k) as ->; [|congruence].
      eapply NoDup_lookup; [exact Hcompanies | |];
        rewrite list_lookup_fmap; [rewrite Hk' | rewrite Hk]; simpl; f_equal.
      congruence. }
    done.
Qed.

Lemma candidate_matches_ignores_company_status_witness :
  (exists r, r ∈ CandidateMatches.candidate_matches [Samples.acme_match] Samples.acme_jobs
                   [Samples.acme_company] /\
             CandidateMatches.match_id r = 1%N /\
             CandidateMatches.job_id r = 11%N /\
             CandidateMatches.company_id r = 1%N) /\
  JobFeed.job_feed Samples.acme_jobs [Samples.acme_company] = [].
Proof.
  destruct (candidate_matches_ignores_company_status
              [Samples.acme_match] Samples.acme_jobs [Samples.acme_company]
              Samples.acme_match (Samples.job_at 11%N (Some 1%N) (Some true))
              Samples.acme_company) as [Hlisted _].
  - apply (bool_decide_unpack (NoDup (Jobs.id <$> Samples.acme_jobs))).
    vm_compute. exact I.
  - apply NoDup_singleton.
  - apply list_elem_of_here.
  - apply list_elem_of_here.
  - apply list_elem_of_here.
  - reflexivity.
  - reflexivity.
  - reflexivity.
  - split; [exact Hlisted | reflexivity].
Defined.

End ViewsFacts.

(** ** More facts about the discovery queue *)

Module DiscoveryStatsFacts.
Import DiscoveryQueue ListFacts.

#[local] Instance by_total_desc_trans : Transitive DiscoveryStats.by_total_desc.
Proof. intros a b c. unfold DiscoveryStats.by_total_desc. lia. Qed.

#[local] Instance by_total_desc_total : Total DiscoveryStats.by_total_desc.
Proof. intros a b. unfold DiscoveryStats.by_total_desc. lia. Qed.

Lemma sum_counts_Permutation (l l' : list Z) :
  l ≡ₚ l' -> DiscoveryStats.sum_counts l = DiscoveryStats.sum_counts l'.
Proof.
  unfold DiscoveryStats.sum_counts.
  induction 1 as [|x l l' _ IH|x y l|l l' l'' _ IH1 _ IH2]; simpl; lia.
Qed.

Lemma sum_counts_add {A} (f g : A -> Z) (l : list A) :
  DiscoveryStats.sum_counts ((fun k => f k + g k) <$> l)
  = DiscoveryStats.sum_counts (f <$> l) + DiscoveryStats.sum_counts (g <$> l).
Proof.
  unfold DiscoveryStats.sum_counts. induction l as [|k l IH]; [done|].
  rewrite !fmap_cons. simpl. lia.
Qed.

(** A key that is listed once is counted once. *)
Lemma sum_counts_indicator (k0 : string) (ks : list string) :
  NoDup ks -> k0 ∈ ks ->
  DiscoveryStats.sum_counts ((fun k => if decide (k0 = k) then 1 else 0) <$> ks) = 1.
Proof.
  unfold DiscoveryStats.sum_counts.
  induction 1 as [|k ks Hk _ IH]; intros Hin; [by apply elem_of_nil in Hin|].
  rewrite fmap_cons. simpl. destruct (decide (k0 = k)) as [->|Hne].
  - assert (Hzero : foldr Z.add 0 ((fun k' => if decide (k = k') then 1 else 0) <$> ks) = 0).
    { clear IH Hin. induction ks as [|k' ks IH]; [done|]. rewrite fmap_cons. simpl.
      destruct (decide (k = k')) as [->|_].
      - exfalso. apply Hk, list_elem_of_here.
      - rewrite IH; [done|]. intros Hin. apply Hk. by apply list_elem_of_further. }
    rewrite Hzero. done.
  - apply elem_of_cons in Hin as [?|Hin]; [done|]. rewrite IH; done.
Qed.

(** The groups of a GROUP BY share out the rows among them. *)
Lemma groups_share_out (t : table) (ks : list string) :
  NoDup ks -> (forall r, r ∈ t -> source r ∈ ks) ->
  DiscoveryStats.sum_counts
    ((fun s => Z.of_nat (length (filter (fun r => source r = s) t))) <$> ks)
  = Z.of_nat (length t).
Proof.
  intros Hnd. induction t as [|r t IH]; intros Hall.
  - unfold DiscoveryStats.sum_counts. clear. induction ks as [|k ks IH]; [done|].
    rewrite fmap_cons. cbn [foldr]. by rewrite IH.
  - assert (Hext : forall l : list string,
              (fun s => Z.of_nat (length (filter (fun r => source r = s) (r :: t)))) <$> l
              = (fun s => (if decide (source r = s) then 1 else 0)
                          + Z.of_nat (length (filter (fun r => source r = s) t))) <$> l).
    { intros l. apply list_fmap_ext. intros _ s _.
      destruct (decide (source r = s)).
      - rewrite filter_cons_True by done. simpl length. lia.
      - rewrite filter_cons_False by done. lia. }
    rewrite Hext, sum_counts_add, IH.
    + rewrite sum_counts_indicator; [simpl length; lia | done |].
      apply Hall, list_elem_of_here.
    + intros r' Hr'. apply Hall. by apply list_elem_of_further.
Qed.

Lemma stats_rows (t : table) x :
  x ∈ DiscoveryStats.get_discovery_stats t <->
  exists s, s ∈ source <$> t /\
            x = DiscoveryStats.aggregate (s, filter (fun r => source r = s) t).
Proof.
  unfold DiscoveryStats.get_discovery_stats, order_by.
  rewrite merge_sort_Permutation. unfold DiscoveryStats.group_by_source.
  rewrite <- list_fmap_compose, list_elem_of_fmap. split.
  - intros (s & -> & Hs). apply (proj1 (elem_of_remove_dups _ _)) in Hs. eauto.
  - intros (s & Hs & ->). exists s. split; [done|]. by apply elem_of_remove_dups.
Qed.

(** X8. [get_discovery_stats] returns one row for each source that
    occurs in the queue and none for any other, and the totals of its
    rows add up to the number of items in the queue. *)
Theorem get_discovery_stats_partition (t : table) :
  NoDup (DiscoveryStats.source <$> DiscoveryStats.get_discovery_stats t) /\
  (forall s, s ∈ DiscoveryStats.source <$> DiscoveryStats.get_discovery_stats t <->
             exists r, r ∈ t /\ source r = s) /\
  DiscoveryStats.sum_counts
    (DiscoveryStats.total_discovered <$> DiscoveryStats.get_discovery_stats t)
  = Z.of_nat (length t).
Proof.
  assert (Hsources : DiscoveryStats.source <$> DiscoveryStats.get_discovery_stats t
                     ≡ₚ remove_dups (source <$> t)).
  { unfold DiscoveryStats.get_discovery_stats, order_by.
    rewrite merge_sort_Permutation. unfold DiscoveryStats.group_by_source.
    rewrite <- !list_fmap_compose.
    rewrite (list_fmap_ext _ (fun s => s) (remove_dups (source <$> t)));
      [by rewrite list_fmap_id | done]. }
  split_and!.
  - rewrite Hsources. apply NoDup_remove_dups.
  - intros s. rewrite Hsources, elem_of_remove_dups, list_elem_of_fmap.
    split; intros (r & H1 & H2); eauto.
  - rewrite (sum_counts_Permutation _
               ((fun s => Z.of_nat (length (filter (fun r => source r = s) t)))
                  <$> remove_dups (source <$> t))).
    + apply groups_share_out; [apply NoDup_remove_dups|].
      intros r Hr. apply elem_of_remove_dups. by apply list_elem_of_fmap_2.
    + unfold DiscoveryStats.get_discovery_stats, order_by.
      rewrite merge_sort_Permutation. unfold DiscoveryStats.group_by_source.
      by rewrite <- !list_fmap_compose.
Qed.

Lemma count_status_cons v r (g : table) :
  DiscoveryStats.count_status v (r :: g)
  = (if decide (status r = Some v) then 1 else 0) + DiscoveryStats.count_status v g.
Proof.
  unfold DiscoveryStats.count_status. destruct (decide (status r = Some v)).
  - rewrite filter_cons_True by done. simpl length. lia.
  - rewrite filter_cons_False by done. lia.
Qed.

(** Rows with different statuses are counted apart. *)
Lemma three_statuses (g : table) :
  DiscoveryStats.count_status completed g + DiscoveryStats.count_status pending g
    + DiscoveryStats.count_status failed g
  <= Z.of_nat (length g).
Proof.
  induction g as [|r g IH]; [done|].
  rewrite !count_status_cons. simpl length.
  destruct (status r) as [[]|];
    repeat (destruct (decide _) as [?|?]; try discriminate); lia.
Qed.

(** X9. Every row of [get_discovery_stats] stands for at least one
    item; its completed, pending and failed counts are the numbers of
    items of its source with that status, and together they do not
    exceed its total, the remainder being the items that are
    processing, skipped, under review or without a status. The rows
    come in order of decreasing total. *)
Theorem get_discovery_stats_counts (t : table) :
  (forall x, x ∈ DiscoveryStats.get_discovery_stats t ->
     let of_source := filter (fun r => source r = DiscoveryStats.source x) t in
     1 <= DiscoveryStats.total_discovered x /\
     DiscoveryStats.total_discovered x = Z.of_nat (length of_source) /\
     DiscoveryStats.completed x
       = Z.of_nat (length (filter (fun r => status r = Some completed) of_source)) /\
     DiscoveryStats.pending x
       = Z.of_nat (length (filter (fun r => status r = Some pending) of_source)) /\
     DiscoveryStats.failed x
       = Z.of_nat (length (filter (fun r => status r = Some failed) of_source)) /\
     DiscoveryStats.completed x + DiscoveryStats.pending x + DiscoveryStats.failed x
       <= DiscoveryStats.total_discovered x) /\
  StronglySorted
    (fun a b => DiscoveryStats.total_discovered b <= DiscoveryStats.total_discovered a)
    (DiscoveryStats.get_discovery_stats t).
Proof.
  split.
  - intros x (s & Hs & ->)%stats_rows. simpl. split_and!; try done.
    + apply list_elem_of_fmap in Hs as (r & -> & Hr).
      assert (Hin : r ∈ filter (fun r' => source r' = source r) t)
        by by apply list_elem_of_filter.
      destruct (filter _ t); [by apply elem_of_nil in Hin | simpl length; lia].
    + apply three_statuses.
  - unfold DiscoveryStats.get_discovery_stats, order_by.
    apply (StronglySorted_merge_sort DiscoveryStats.by_total_desc).
Qed.

End DiscoveryStatsFacts.

(** ** What the worker calls do to the queue as a whole *)

Module DiscoveryWorkerFacts.
Import DiscoveryQueue ListFacts.

Lemma for_each_fmap {A B} (f : A -> result A) (g : A -> B) (l l' : list A) :
  for_each f l = Ok l' -> (forall x y, f x = Ok y -> g y = g x) ->
  g <$> l' = g <$> l.
Proof.
  intros H%for_each_Ok Hg. induction H as [|x y l l' Hxy _ IH]; [done|].
  rewrite !fmap_cons. f_equal; eauto.
Qed.

Lemma for_each_elem {A B} (f : A -> result B) (l : list A) (l' : list B) y :
  for_each f l = Ok l' -> y ∈ l' -> exists x, x ∈ l /\ f x = Ok y.
Proof.
  intros H%for_each_Ok Hy. apply list_elem_of_lookup in Hy as [k Hk].
  destruct (Forall2_lookup_r _ _ _ _ _ H Hk) as (x & Hx & Hf).
  exists x. split; [by eapply list_elem_of_lookup_2 | done].
Qed.

Lemma for_each_Raise {A B} (f : A -> result B) (l : list A) :
  (exists e, for_each f l = Raise e) <-> exists x, x ∈ l /\ exists e, f x = Raise e.
Proof.
  induction l as [|x l IH]; simpl.
  - split; [by intros [e ?] | by intros (x & Hx%elem_of_nil & _)].
  - destruct (f x) as [y|e] eqn:Hfx; simpl.
    + destruct (for_each f l) as [ys|e'] eqn:Hl; simpl.
      * split; [by intros [e ?]|]. intros (x' & Hx' & e & He).
        apply elem_of_cons in Hx' as [->|Hx']; [congruence|].
        destruct IH as [_ IH]. destruct IH as [e' He']; [eauto | discriminate].
      * split; [|eauto]. intros _. destruct IH as [IH _].
        destruct IH as (x' & Hx' & He'); [eauto|].
        exists x'. split; [by apply list_elem_of_further | done].
    + split; [|eauto]. intros _. exists x. split; [apply list_elem_of_here | eauto].
Qed.

Lemma run_call_discovered c (t t' : table) :
  run_call c t = Ok t' ->
  DiscoveryStats.discovered <$> t' = DiscoveryStats.discovered <$> t.
Proof.
  destruct c as [now|now companies item new_company|now item msg]; simpl.
  - intros [= <-]. rewrite <- list_fmap_compose. apply list_fmap_ext.
    intros _ r _. simpl. by destruct (decide _).
  - intros H. apply (for_each_fmap _ _ _ _ H). intros x y.
    destruct (decide _); [|by intros [= <-]].
    destruct (Jobs.references _ _); [by intros [= <-] | discriminate].
  - intros H. apply (for_each_fmap _ _ _ _ H). intros x y.
    destruct (decide _); [|by intros [= <-]].
    unfold fail_row. destruct (int4_add _ _); simpl; [by intros [= <-] | discriminate].
Qed.

(** X10. The calls of a queue worker change how far the processing of
    an item has got and nothing else: after any run of
    [get_next_discovery_item], [complete_discovery_item] and
    [fail_discovery_item] that goes through, the queue holds the same
    items in the same places, each with the id, the name, the domain,
    the source, the creation time and the other discovered columns it
    had. *)
Theorem worker_calls_keep_what_was_discovered cs (t t' : table) :
  run_calls cs t = Ok t' ->
  DiscoveryStats.discovered <$> t' = DiscoveryStats.discovered <$> t /\
  length t' = length t.
Proof.
  intros Hrun.
  assert (H : DiscoveryStats.discovered <$> t' = DiscoveryStats.discovered <$> t).
  { revert t Hrun. induction cs as [|c cs IH]; intros t Hrun; simpl in Hrun.
    - by injection Hrun as <-.
    - apply and_then_Ok in Hrun as (t1 & Hc & Hrun).
      rewrite (IH t1 Hrun). by apply (run_call_discovered c). }
  split; [done|].
  by rewrite <- (length_fmap DiscoveryStats.discovered t'), H, length_fmap.
Qed.

Lemma worker_calls_keep_what_was_discovered_witness :
  exists t', run_calls [GetNext 50; Fail 60 (Some 3%N) (Some "timeout"%string)]
                       Samples.small_queue = Ok t' /\
             id <$> t' = [1%N; 2%N; 3%N] /\ length t' = 3%nat.
Proof.
  destruct (run_calls [GetNext 50; Fail 60 (Some 3%N) (Some "timeout"%string)]
                      Samples.small_queue) as [t'|e] eqn:Hrun; [|by vm_compute in Hrun].
  exists t'. split; [done|].
  destruct (worker_calls_keep_what_was_discovered _ _ _ Hrun) as [Hsame Hlen].
  split; [|exact Hlen].
  vm_compute in Hrun. injection Hrun as <-. reflexivity.
Defined.

Lemma next_pending_is_pending (t : table) j :
  next_pending_id t = Some j ->
  exists p, p ∈ t /\ id p = j /\ status p = Some pending.
Proof.
  unfold next_pending_id, order_by. intros H.
  destruct (merge_sort _ _) as [|p rest] eqn:Hsorted; [discriminate|].
  injection H as <-. exists p.
  assert (Hin : p ∈ merge_sort by_created_at (filter (fun r => status r = Some pending) t))
    by (rewrite Hsorted; apply list_elem_of_here).
  rewrite merge_sort_Permutation in Hin.
  apply list_elem_of_filter in Hin as [Hp Hin]. done.
Qed.

(** The rows [get_next_discovery_item] returns are rows it has set to
    'processing', and it has done so to every row with their id. *)
Lemma get_next_takes now (t : table) r :
  r ∈ (get_next_discovery_item now t).2 ->
  forall x, x ∈ (get_next_discovery_item now t).1 -> id x = id r ->
            status x = Some processing.
Proof.
  unfold get_next_discovery_item. simpl.
  intros (r0 & -> & [Hchosen _]%list_elem_of_filter)%list_elem_of_fmap x
         (x0 & -> & Hx0)%list_elem_of_fmap Hid.
  destruct (decide (Some (id x0) = next_pending_id t)) as [_|Hne]; [done|].
  exfalso. apply Hne. rewrite <- Hchosen. f_equal. exact Hid.
Qed.

(** An item that no row has as pending stays so under every call that
    does not report its failure. *)
Lemma run_call_keeps_taken c (t t' : table) i :
  run_call c t = Ok t' -> is_failure_of i c = false ->
  (forall x, x ∈ t -> id x = i -> status x <> Some pending) ->
  forall x, x ∈ t' -> id x = i -> status x <> Some pending.
Proof.
  intros Hrun Hc Hinv x' Hx' Hid.
  destruct c as [now|now companies item new_company|now item msg]; simpl in Hrun.
  - injection Hrun as <-. simpl in Hx'.
    apply list_elem_of_fmap in Hx' as (x & -> & Hx).
    destruct (decide _); [done | by apply Hinv].
  - destruct (for_each_elem _ _ _ _ Hrun Hx') as (x & Hx & Hf).
    destruct (decide _).
    + destruct (Jobs.references _ _); [|discriminate]. by injection Hf as <-.
    + injection Hf as <-. by apply Hinv.
  - destruct (for_each_elem _ _ _ _ Hrun Hx') as (x & Hx & Hf).
    simpl in Hc. destruct (decide (Some (id x) = item)) as [Hitem|_].
    + exfalso. unfold fail_row in Hf.
      destruct (int4_add _ _); simpl in Hf; [|discriminate]. injection Hf as <-.
      simpl in Hid. subst item i. by rewrite N.eqb_refl in Hc.
    + injection Hf as <-. by apply Hinv.
Qed.

(** X11. An item is not handed out twice: once
    [get_next_discovery_item] has returned an item, no later call of it
    returns that item again, whatever calls are made in between, unless
    one of them is [fail_discovery_item] for this very item. *)
Theorem item_not_handed_out_twice now now' cs (t t' : table) r r' :
  r ∈ (get_next_discovery_item now t).2 ->
  run_calls cs (get_next_discovery_item now t).1 = Ok t' ->
  Forall (fun c => is_failure_of (id r) c = false) cs ->
  r' ∈ (get_next_discovery_item now' t').2 ->
  id r' <> id r.
Proof.
  intros Hr Hrun Hcs Hr' Hid.
  assert (Hgen : forall cs (t1 : table),
            Forall (fun c => is_failure_of (id r) c = false) cs ->
            run_calls cs t1 = Ok t' ->
            (forall x, x ∈ t1 -> id x = id r -> status x <> Some pending) ->
            forall x, x ∈ t' -> id x = id r -> status x <> Some pending).
  { clear. intros cs. induction cs as [|c cs IH]; intros t1 Hcs Hrun Hinv1; simpl in Hrun.
    - by injection Hrun as <-.
    - apply and_then_Ok in Hrun as (t2 & Hstep & Hrun).
      apply Forall_cons in Hcs as [Hc Hcs]. apply (IH t2 Hcs Hrun).
      by apply (run_call_keeps_taken c t1 t2 (id r) Hstep Hc). }
  assert (Hinv : forall x, x ∈ t' -> id x = id r -> status x <> Some pending).
  { apply (Hgen cs _ Hcs Hrun). intros x Hx Hi.
    by rewrite (get_next_takes now t r Hr x Hx Hi). }
  unfold get_next_discovery_item in Hr'. simpl in Hr'.
  apply list_elem_of_fmap in Hr' as (x & -> & [Hchosen Hx]%list_elem_of_filter).
  simpl in Hid.
  destruct (next_pending_is_pending t' (id x) (eq_sym Hchosen)) as (p & Hp & Hpid & Hpst).
  apply (Hinv p Hp); [congruence | done].
Qed.

Lemma item_not_handed_out_twice_witness :
  id <$> (get_next_discovery_item 50 Samples.small_queue).2 = [3%N] /\
  forall r', r' ∈ (get_next_discovery_item 60
                     (get_next_discovery_item 50 Samples.small_queue).1).2 ->
             id r' <> 3%N.
Proof.
  split; [reflexivity|]. intros r' Hr'.
  apply (item_not_handed_out_twice 50 60 [] Samples.small_queue
           (get_next_discovery_item 50 Samples.small_queue).1
           (start_processing 50 (Samples.queue_item 3%N 20 pending 0)) r').
  - vm_compute. apply list_elem_of_here.
  - reflexivity.
  - constructor.
  - exact Hr'.
Defined.

(** What one call does to an item whose retry count is NULL. *)
Lemma run_call_null_count c (t t' : table) k r :
  run_call c t = Ok t' -> t !! k = Some r -> retry_count r = None ->
  exists r', t' !! k = Some r' /\ retry_count r' = None /\
             (status r <> Some failed -> status r' <> Some failed).
Proof.
  intros Hrun Hk Hnull.
  destruct c as [now|now companies item new_company|now item msg]; simpl in Hrun.
  - injection Hrun as <-. simpl. rewrite list_lookup_fmap, Hk. simpl.
    eexists. split; [reflexivity|]. by destruct (decide _).
  - apply for_each_Ok in Hrun.
    destruct (Forall2_lookup_l _ _ _ _ _ Hrun Hk) as (r' & Hk' & Hf).
    exists r'. split; [done|]. simpl in Hf.
    destruct (decide _); [|by injection Hf as <-].
    destruct (Jobs.references _ _); [|discriminate]. by injection Hf as <-.
  - apply for_each_Ok in Hrun.
    destruct (Forall2_lookup_l _ _ _ _ _ Hrun Hk) as (r' & Hk' & Hf).
    exists r'. split; [done|]. simpl in Hf.
    destruct (decide _); [|by injection Hf as <-].
    unfold fail_row in Hf. rewrite Hnull in Hf. simpl in Hf. by injection Hf as <-.
Qed.

(** X12. Along any run of worker calls that goes through, however the
    calls for different items are interleaved, the retry count of an
    item is the count it started with plus the number of times its
    failure was reported: [get_next_discovery_item],
    [complete_discovery_item] and failures of other items leave it
    alone. An item whose retry count is NULL keeps a NULL count and
    is never marked 'failed': its failures are retried without end. *)
Theorem retry_count_counts_reported_failures cs (t t' : table) k r :
  run_calls cs t = Ok t' -> t !! k = Some r ->
  exists r', t' !! k = Some r' /\
    match retry_count r with
    | Some n => retry_count r' = Some (n + failures_of (id r) cs)
    | None => retry_count r' = None /\
              (status r <> Some failed -> status r' <> Some failed)
    end.
Proof.
  intros Hrun Hk. destruct (retry_count r) as [n|] eqn:Hcount.
  - destruct (DiscoveryQueueFacts.run_calls_retry_count cs t t' k r n Hrun Hk Hcount)
      as (r' & Hk' & _ & Hn). eauto.
  - revert t r Hrun Hk Hcount.
    induction cs as [|c cs IH]; intros t r Hrun Hk Hcount; simpl in Hrun.
    + injection Hrun as <-. eauto.
    + apply and_then_Ok in Hrun as (t1 & Hc & Hrun).
      destruct (run_call_null_count c t t1 k r Hc Hk Hcount) as (r1 & Hk1 & Hnull1 & Hst1).
      destruct (IH t1 r1 Hrun Hk1 Hnull1) as (r' & Hk' & Hnull' & Hst').
      exists r'. split_and!; [done | done | auto].
Qed.

Lemma retry_count_counts_reported_failures_witness :
  exists t' r',
    run_calls [Fail 10 (Some 3%N) None; GetNext 20; Fail 30 (Some 1%N) None;
               Fail 40 (Some 3%N) None] Samples.small_queue = Ok t' /\
    t' !! 2%nat = Some r' /\ retry_count r' = Some 2.
Proof.
  destruct (run_calls [Fail 10 (Some 3%N) None; GetNext 20; Fail 30 (Some 1%N) None;
                       Fail 40 (Some 3%N) None] Samples.small_queue)
    as [t'|e] eqn:Hrun; [|by vm_compute in Hrun].
  destruct (retry_count_counts_reported_failures _ _ _ 2%nat
              (Samples.queue_item 3%N 20 pending 0) Hrun eq_refl)
    as (r' & Hk & Hcount).
  exists t', r'. split_and!; [done | exact Hk | exact Hcount].
Defined.

(** X13. Reporting on an item that is not in the queue, or on a NULL
    id, is silently ignored: [complete_discovery_item] and
    [fail_discovery_item] return without an error and leave the queue
    as it was, and the company id passed to the former is not even
    looked at. *)
Theorem unknown_item_is_ignored now companies item_id new_company_id error_msg
        (t : table) :
  (forall r, r ∈ t -> Some (id r) <> item_id) ->
  complete_discovery_item now companies item_id new_company_id t = Ok t /\
  fail_discovery_item now item_id error_msg t = Ok t.
Proof.
  intros Hnone. unfold complete_discovery_item, fail_discovery_item.
  split; apply for_each_id, Forall_forall; intros r Hr; simpl;
    by destruct (decide (Some (id r) = item_id)) as [Heq|_]; [apply Hnone in Heq|].
Qed.

Lemma unknown_item_is_ignored_witness :
  complete_discovery_item 50 [] None (Some 9%N) Samples.small_queue
    = Ok Samples.small_queue /\
  fail_discovery_item 50 None (Some "timeout"%string) Samples.small_queue
    = Ok Samples.small_queue.
Proof.
  apply (unknown_item_is_ignored 50 [] None (Some 9%N) (Some "timeout"%string)
           Samples.small_queue).
  intros r _. discriminate.
Defined.

(** X14. When the two reporting calls raise.
    [complete_discovery_item] raises exactly when the item is in the
    queue and the company id given is that of no company;
    [fail_discovery_item] raises exactly when the item is in the queue
    with a retry count that is the largest [INTEGER]. In a queue whose
    counts are below that, every failure report goes through. *)
Theorem reporting_calls_raise_iff now companies item_id new_company_id error_msg
        (t : table) :
  Forall (fun r => integers_fit r = true) t ->
  ((exists e, complete_discovery_item now companies item_id new_company_id t = Raise e) <->
   (exists r, r ∈ t /\ Some (id r) = item_id) /\
   Jobs.references companies new_company_id = false) /\
  ((exists e, fail_discovery_item now item_id error_msg t = Raise e) <->
   exists r, r ∈ t /\ Some (id r) = item_id /\ retry_count r = Some int4_max).
Proof.
  intros Hfit. unfold complete_discovery_item, fail_discovery_item.
  rewrite !for_each_Raise. split; split.
  - intros (r & Hr & e & He). destruct (decide _) as [Hid|_]; [|discriminate].
    destruct (Jobs.references _ _); [discriminate | eauto].
  - intros [(r & Hr & Hid) Href]. exists r. split; [done|].
    destruct (decide _); [|done]. rewrite Href. eauto.
  - intros (r & Hr & e & He). destruct (decide _) as [Hid|_]; [|discriminate].
    exists r. split_and!; try done.
    eapply Forall_forall in Hfit; [|exact Hr].
    unfold integers_fit in Hfit. apply andb_prop in Hfit as [_ Hfit].
    unfold fail_row, int4_add in He.
    destruct (retry_count r) as [n|]; [|discriminate]. simpl in Hfit.
    destruct (in_int4 (n + 1)) eqn:Hn; [discriminate|]. f_equal.
    unfold in_int4, int4_min, int4_max in *.
    apply andb_prop in Hfit as [H1%Z.leb_le H2%Z.leb_le].
    apply andb_false_iff in Hn as [Hn%Z.leb_gt|Hn%Z.leb_gt]; lia.
  - intros (r & Hr & Hid & Hmax). exists r. split; [done|].
    destruct (decide _); [|done]. unfold fail_row. rewrite Hmax. simpl. eauto.
Qed.

Lemma reporting_calls_raise_iff_witness :
  exists e, complete_discovery_item 50 [] (Some 3%N) (Some 9%N) Samples.small_queue
            = Raise e.
Proof.
  assert (Hfit : Forall (fun r => integers_fit r = true) Samples.small_queue)
    by (repeat constructor).
  apply (proj1 (reporting_calls_raise_iff 50 [] (Some 3%N) (Some 9%N) None
                  Samples.small_queue Hfit)).
  split; [|reflexivity].
  exists (Samples.queue_item 3%N 20 pending 0). split; [|reflexivity].
  apply list_elem_of_further, list_elem_of_further, list_elem_of_here.
Defined.

End DiscoveryWorkerFacts.

(** ** Facts about the stage cards and the polling *)

Module PipelineStatusFacts.
Import PipelinePage PipelineStatus.

Lemma prefix_cons_inv a p k :
  String.prefix (String a p) k = true ->
  exists k', k = String a k' /\ String.prefix p k' = true.
Proof.
  destruct k as [|b k]; simpl; [discriminate|].
  destruct (Ascii.ascii_dec a b) as [->|_]; [eauto | discriminate].
Qed.

(** The test both loops make of a key or of the stage of a run. *)
Lemma stage_test_unique (s1 s2 : StageType) k :
  String.eqb k (stage_string s1) || startsWith k (stage_string s1 ++ "_") = true ->
  String.eqb k (stage_string s2) || startsWith k (stage_string s2 ++ "_") = true ->
  s1 = s2.
Proof.
  unfold startsWith. intros H1 H2.
  destruct s1, s2; try reflexivity; exfalso; simpl in H1;
    (apply orb_prop in H1 as [H1|H1];
     [ apply String.eqb_eq in H1; subst k; vm_compute in H2; discriminate
     | apply prefix_cons_inv in H1 as (k1 & -> & H1);
       apply prefix_cons_inv in H1 as (k2 & -> & _);
       simpl in H2; discriminate ]).
Qed.

Section Registry.
Context {OperationStatus : Type}.

Lemma ops_of_cons stageId k (v : OperationStatus) entries :
  ops_of stageId ((k, v) :: entries) = ops_of stageId [(k, v)] ++ ops_of stageId entries.
Proof. simpl. by destruct (_ || _). Qed.

Lemma runs_of_cons stageId r runs :
  runs_of stageId (r :: runs) = runs_of stageId [r] ++ runs_of stageId runs.
Proof.
  simpl. destruct (negb _); [done|]. destruct (_ || _); [done|].
  destruct (_ && _); [done|]. by destruct (_ && _).
Qed.

(** What the first loop of [isStageRunning] answers, in terms of what
    the first loop of [getStageOperations] collects. *)
Lemma ops_loop_spec stageId (entries : list (string * OperationStatus)) :
  ops_loop stageId entries.*1 = true <->
  ops_of stageId entries <> [] \/ "full_pipeline" ∈ entries.*1.
Proof.
  induction entries as [|[k v] entries IH]; simpl.
  - split; [discriminate|]. intros [?|Hin]; [done | by apply elem_of_nil in Hin].
  - destruct (String.eqb k stageId) eqn:Hk; simpl; [split; [by left | done]|].
    destruct (startsWith k (stageId ++ "_")); simpl; [split; [by left | done]|].
    destruct (String.eqb k "full_pipeline") eqn:Hfull.
    + apply String.eqb_eq in Hfull as ->. split; [|done].
      intros _. right. apply list_elem_of_here.
    + rewrite IH. apply String.eqb_neq in Hfull.
      split; (intros [?|Hin]; [by left | right]).
      * by apply list_elem_of_further.
      * apply elem_of_cons in Hin as [?|?]; [congruence | done].
Qed.

Lemma runs_loop_spec stageId runs :
  runs_loop stageId runs = true <-> runs_of stageId runs <> [].
Proof.
  induction runs as [|r runs IH]; simpl; [done|].
  destruct (negb _); [done|].
  destruct (String.eqb (stage r) stageId); simpl; [done|].
  destruct (startsWith _ _); simpl; [done|].
  destruct (_ && _); [done|]. by destruct (_ && _).
Qed.

(** X15. A stage card shows as running exactly when
    [getStageOperations] finds an operation or a run for its stage, or
    the full pipeline is running. In the latter case alone the card
    shows as running with a count of zero and with nothing to list. *)
Theorem isStageRunning_iff_operations (s : StageType)
        (runningOps : gmap string OperationStatus)
        (runningRuns : list RunningPipelineRun) :
  isStageRunning s runningOps runningRuns = true <->
  (0 < concurrentCount s runningOps runningRuns)%nat \/
  is_Some (runningOps !! "full_pipeline").
Proof.
  unfold isStageRunning, concurrentCount, getStageOperations, Object_keys, Object_entries.
  rewrite <- (PipelinePageFacts.Object_keys_spec runningOps).
  unfold Object_keys.
  destruct (ops_loop _ _) eqn:Hops.
  - apply ops_loop_spec in Hops as [Hops|Hfull]; [|by split; [right|]].
    split; [|done]. intros _. left.
    destruct (ops_of _ _); [done | simpl; lia].
  - assert (Hnone : ~ (ops_of (stage_string s) (map_to_list runningOps) <> [] \/
                       "full_pipeline" ∈ (map_to_list runningOps).*1)).
    { intros H. apply ops_loop_spec in H. congruence. }
    destruct (ops_of _ _) eqn:Hcollected; [|exfalso; apply Hnone; left; done].
    destruct (runs_loop _ _) eqn:Hruns.
    + apply runs_loop_spec in Hruns. split; [|done]. intros _. left.
      destruct (runs_of _ _); [done | simpl; lia].
    + split; [discriminate|]. intros [Hpos|Hfull]; [|exfalso; apply Hnone; by right].
      assert (Hno : ~ runs_of (stage_string s) runningRuns <> []).
      { intros H. apply runs_loop_spec in H. congruence. }
      destruct (runs_of _ _); [simpl in Hpos; lia|]. exfalso. by apply Hno.
Qed.

Lemma ops_of_one stageId k (v : OperationStatus) :
  (length (ops_of stageId [(k, v)]) <= 1)%nat.
Proof. simpl. destruct (_ || _); simpl; lia. Qed.

Lemma ops_of_stage_unique (s1 s2 : StageType) k (v : OperationStatus) :
  s1 <> s2 ->
  length (ops_of (stage_string s1) [(k, v)]) = 0%nat \/
  length (ops_of (stage_string s2) [(k, v)]) = 0%nat.
Proof.
  intros Hne. simpl.
  destruct (String.eqb k (stage_string s1) || _) eqn:H1; [|by left].
  destruct (String.eqb k (stage_string s2) || _) eqn:H2; [|by right].
  destruct Hne. by apply (stage_test_unique s1 s2 k).
Qed.

Lemma ops_of_four (entries : list (string * OperationStatus)) :
  (length (ops_of (stage_string discovery) entries)
   + length (ops_of (stage_string crawl) entries)
   + length (ops_of (stage_string enrich) entries)
   + length (ops_of (stage_string embeddings) entries)
   <= length entries)%nat.
Proof.
  induction entries as [|[k v] entries IH]; [simpl; lia|].
  rewrite !(ops_of_cons _ k v entries), !length_app. simpl length at 9.
  pose proof (ops_of_one (stage_string discovery) k v).
  pose proof (ops_of_one (stage_string crawl) k v).
  pose proof (ops_of_one (stage_string enrich) k v).
  pose proof (ops_of_one (stage_string embeddings) k v).
  pose proof (ops_of_stage_unique discovery crawl k v ltac:(discriminate)).
  pose proof (ops_of_stage_unique discovery enrich k v ltac:(discriminate)).
  pose proof (ops_of_stage_unique discovery embeddings k v ltac:(discriminate)).
  pose proof (ops_of_stage_unique crawl enrich k v ltac:(discriminate)).
  pose proof (ops_of_stage_unique crawl embeddings k v ltac:(discriminate)).
  pose proof (ops_of_stage_unique enrich embeddings k v ltac:(discriminate)).
  lia.
Qed.

End Registry.

Lemma runs_of_one stageId r :
  (length (runs_of stageId [r])
   <= if String.eqb (status r) "running" then 1 else 0)%nat.
Proof.
  simpl. destruct (String.eqb (status r) "running"); simpl; [|lia].
  destruct (_ || _); simpl; [lia|]. destruct (_ && _); simpl; [lia|].
  destruct (_ && _); simpl; lia.
Qed.

Lemma runs_of_stage_unique (s1 s2 : StageType) r :
  s1 <> s2 ->
  length (runs_of (stage_string s1) [r]) = 0%nat \/
  length (runs_of (stage_string s2) [r]) = 0%nat.
Proof.
  intros Hne. simpl. destruct (negb _); [by left|].
  destruct (String.eqb (stage r) (stage_string s1) || _) eqn:H1.
  - destruct (String.eqb (stage r) (stage_string s2) || _) eqn:H2.
    + destruct Hne. by apply (stage_test_unique s1 s2 (stage r)).
    + (* matched by the test for [s1], by an alias for [s2] *)
      destruct (String.eqb (stage r) "detect_ats") eqn:Hd.
      * apply String.eqb_eq in Hd. rewrite Hd in H1.
        destruct s1; vm_compute in H1; discriminate.
      * simpl. destruct (String.eqb (stage r) "custom_crawl") eqn:Hc; [|by right].
        apply String.eqb_eq in Hc. rewrite Hc in H1.
        destruct s1; vm_compute in H1; discriminate.
  - destruct (String.eqb (stage r) "detect_ats") eqn:Hd.
    + apply String.eqb_eq in Hd. rewrite Hd.
      destruct s1, s2; try (by destruct Hne); vm_compute; auto.
    + simpl. destruct (String.eqb (stage r) "custom_crawl") eqn:Hc.
      * apply String.eqb_eq in Hc. rewrite Hc.
        destruct s1, s2; try (by destruct Hne); vm_compute; auto.
      * simpl. by left.
Qed.

Lemma runningRunCount_cons r runs :
  runningRunCount (r :: runs)
  = ((if String.eqb (status r) "running" then 1 else 0) + runningRunCount runs)%nat.
Proof.
  unfold runningRunCount. simpl. by destruct (String.eqb (status r) "running").
Qed.

Lemma runs_of_four runs :
  (length (runs_of (stage_string discovery) runs)
   + length (runs_of (stage_string crawl) runs)
   + length (runs_of (stage_string enrich) runs)
   + length (runs_of (stage_string embeddings) runs)
   <= runningRunCount runs)%nat.
Proof.
  induction runs as [|r runs IH]; [simpl; lia|].
  rewrite !(runs_of_cons _ r runs), !length_app, runningRunCount_cons.
  pose proof (runs_of_one (stage_string discovery) r).
  pose proof (runs_of_one (stage_string crawl) r).
  pose proof (runs_of_one (stage_string enrich) r).
  pose proof (runs_of_one (stage_string embeddings) r).
  pose proof (runs_of_stage_unique discovery crawl r ltac:(discriminate)).
  pose proof (runs_of_stage_unique discovery enrich r ltac:(discriminate)).
  pose proof (runs_of_stage_unique discovery embeddings r ltac:(discriminate)).
  pose proof (runs_of_stage_unique crawl enrich r ltac:(discriminate)).
  pose proof (runs_of_stage_unique crawl embeddings r ltac:(discriminate)).
  pose proof (runs_of_stage_unique enrich embeddings r ltac:(discriminate)).
  destruct (String.eqb (status r) "running"); lia.
Qed.

Section Counts.
Context {OperationStatus : Type}.

(** X16. No operation and no run is counted for two stages: the
    counts the four stage cards show add up to no more than the total
    the page header shows. *)
Theorem stage_counts_within_total (runningOps : gmap string OperationStatus)
        (runningRuns : list RunningPipelineRun) :
  (concurrentCount discovery runningOps runningRuns
   + concurrentCount crawl runningOps runningRuns
   + concurrentCount enrich runningOps runningRuns
   + concurrentCount embeddings runningOps runningRuns
   <= totalRunningCount runningOps runningRuns)%nat.
Proof.
  unfold concurrentCount, getStageOperations, totalRunningCount, runningOpCount,
    Object_keys, Object_entries.
  rewrite length_fmap.
  pose proof (ops_of_four (map_to_list runningOps)).
  pose proof (runs_of_four runningRuns). lia.
Qed.

Lemma first_running_spec stages (runningOps : gmap string OperationStatus) runningRuns :
  match first_running stages runningOps runningRuns with
  | Some s => exists l1 l2, stages = l1 ++ s :: l2 /\
                isStageRunning s runningOps runningRuns = true /\
                Forall (fun s' => isStageRunning s' runningOps runningRuns = false) l1
  | None => Forall (fun s' => isStageRunning s' runningOps runningRuns = false) stages
  end.
Proof.
  induction stages as [|s stages IH]; simpl; [constructor|].
  destruct (isStageRunning s runningOps runningRuns) eqn:Hs.
  - exists [], stages. split_and!; [done | done | constructor].
  - destruct (first_running stages runningOps runningRuns) as [s'|].
    + destruct IH as (l1 & l2 & -> & Hs' & Hl1).
      exists (s :: l1), l2. split_and!; [done | done | by constructor].
    + by constructor.
Qed.

(** The first stage that runs is the one the loop stops at. *)
Lemma first_running_app l1 s l2 (runningOps : gmap string OperationStatus) runningRuns :
  Forall (fun s' => isStageRunning s' runningOps runningRuns = false) l1 ->
  isStageRunning s runningOps runningRuns = true ->
  first_running (l1 ++ s :: l2) runningOps runningRuns = Some s.
Proof.
  intros Hl1 Hs. induction Hl1 as [|s' l1 Hs' _ IH]; simpl.
  - by rewrite Hs.
  - by rewrite Hs'.
Qed.

Lemma first_running_Some (runningOps : gmap string OperationStatus) runningRuns s :
  first_running STAGE_ORDER runningOps runningRuns = Some s <->
  isStageRunning s runningOps runningRuns = true /\
  exists l1 l2, STAGE_ORDER = l1 ++ s :: l2 /\
    Forall (fun s' => isStageRunning s' runningOps runningRuns = false) l1.
Proof.
  split.
  - intros Hs. pose proof (first_running_spec STAGE_ORDER runningOps runningRuns) as H.
    rewrite Hs in H. destruct H as (l1 & l2 & Hl & Hrun & Hl1). eauto.
  - intros (Hrun & l1 & l2 & -> & Hl1). by apply first_running_app.
Qed.

Lemma first_running_None (runningOps : gmap string OperationStatus) runningRuns :
  first_running STAGE_ORDER runningOps runningRuns = None <->
  forall s, isStageRunning s runningOps runningRuns = false.
Proof.
  pose proof (first_running_spec STAGE_ORDER runningOps runningRuns) as H. split.
  - intros Hnone. rewrite Hnone in H. intros s.
    eapply Forall_forall in H; [exact H|]. unfold STAGE_ORDER. destruct s; set_solver.
  - intros Hall. destruct (first_running _ _ _) as [s|]; [|done].
    destruct H as (_ & _ & _ & Hrun & _). by rewrite Hall in Hrun.
Qed.

(** X17. Which card ends up expanded. [loadStatus] expands a card only
    when the [expandedStage] it closed over is null, and then the card
    of the first stage that runs, in the order discovery, crawl,
    enrich, embeddings; while the full pipeline runs that is
    discovery. After [handleRunStage] the card of the stage just
    started is the expanded one when a card was expanded at the
    click, or when no stage runs. When no card was expanded at the
    click, the card that ends up expanded is that of the first stage
    that runs, which need not be the stage just started: with the full
    pipeline running it is discovery, whatever stage was started. *)
Theorem loadStatus_expands_first_running (runningOps : gmap string OperationStatus)
        (runningRuns : list RunningPipelineRun) :
  (forall expandedStage s,
     loadStatus_expands expandedStage runningOps runningRuns = Some s <->
     expandedStage = None /\
     isStageRunning s runningOps runningRuns = true /\
     exists l1 l2, STAGE_ORDER = l1 ++ s :: l2 /\
       Forall (fun s' => isStageRunning s' runningOps runningRuns = false) l1) /\
  (is_Some (runningOps !! "full_pipeline") ->
   loadStatus_expands None runningOps runningRuns = Some discovery) /\
  (forall shown stage,
     handleRunStage_expands (Some shown) stage runningOps runningRuns = stage) /\
  (forall stage s,
     handleRunStage_expands None stage runningOps runningRuns = s <->
     (s = stage /\ forall s', isStageRunning s' runningOps runningRuns = false) \/
     (isStageRunning s runningOps runningRuns = true /\
      exists l1 l2, STAGE_ORDER = l1 ++ s :: l2 /\
        Forall (fun s' => isStageRunning s' runningOps runningRuns = false) l1)) /\
  (is_Some (runningOps !! "full_pipeline") ->
   forall stage, handleRunStage_expands None stage runningOps runningRuns = discovery).
Proof.
  assert (Hfull : is_Some (runningOps !! "full_pipeline") ->
                  first_running STAGE_ORDER runningOps runningRuns = Some discovery).
  { intros Hfull. simpl. unfold isStageRunning.
    rewrite PipelinePageFacts.ops_loop_full_pipeline; [done|].
    by apply PipelinePageFacts.Object_keys_spec. }
  split_and!.
  - intros expandedStage s. unfold loadStatus_expands.
    destruct expandedStage as [shown|].
    + split; [done | by intros [? _]].
    + rewrite first_running_Some. split; [by intros [? ?] | by intros (_ & ? & ?)].
  - exact Hfull.
  - done.
  - intros stage s. unfold handleRunStage_expands, loadStatus_expands.
    destruct (first_running STAGE_ORDER runningOps runningRuns) as [s0|] eqn:Hfirst.
    + split.
      * intros <-. right. by apply first_running_Some.
      * intros [[_ Hnone]|Hs].
        -- apply first_running_None in Hnone. congruence.
        -- apply first_running_Some in Hs. congruence.
    + split.
      * intros <-. left. split; [done|]. by apply first_running_None.
      * intros [[-> _]|Hs]; [done|].
        apply first_running_Some in Hs. congruence.
  - intros Hops stage. unfold handleRunStage_expands, loadStatus_expands.
    by rewrite (Hfull Hops).
Qed.

(** X18. With auto-refresh on, the page polls every two seconds while
    any stage card shows as running, and its header then says that the
    pipeline is running. It polls every ten seconds only when the
    registry holds no operation and no run has the status 'running'. *)
Theorem polls_fast_while_a_stage_runs (runningOps : gmap string OperationStatus)
        (runningRuns : list RunningPipelineRun) :
  (forall s, isStageRunning s runningOps runningRuns = true ->
     auto_refresh_timer true runningOps runningRuns = Some 2000 /\
     isRunning runningOps runningRuns = true) /\
  (auto_refresh_timer true runningOps runningRuns = Some 10000 <->
   runningOps = ∅ /\ Forall (fun r => status r <> "running"%string) runningRuns) /\
  isRunning runningOps runningRuns = hasRunningOps runningOps runningRuns.
Proof.
  unfold auto_refresh_timer. simpl.
  assert (Hsame : isRunning runningOps runningRuns = hasRunningOps runningOps runningRuns).
  { unfold isRunning, hasRunningOps, runningOpCount, runningRunCount. f_equal.
    induction runningRuns as [|r runs IH]; [done|]. simpl.
    destruct (String.eqb (status r) "running"); simpl; [done | exact IH]. }
  assert (Hslow : hasRunningOps runningOps runningRuns = false <->
            runningOps = ∅ /\ Forall (fun r => status r <> "running"%string) runningRuns).
  { unfold hasRunningOps, Object_keys. rewrite orb_false_iff, length_fmap. split.
    - intros [Hops Hruns]. split.
      + apply Nat.ltb_ge in Hops. apply map_to_list_empty_iff.
        destruct (map_to_list runningOps); [done | simpl in Hops; lia].
      + apply Forall_forall. intros r Hr Hst.
        assert (existsb (fun r => String.eqb (status r) "running") runningRuns = true);
          [|congruence].
        apply existsb_exists. exists r. split; [by apply list_elem_of_In|].
        by apply String.eqb_eq.
    - intros [-> Hruns]. split; [by rewrite map_to_list_empty|].
      destruct (existsb _ _) eqn:Hex; [|done].
      apply existsb_exists in Hex as (r & Hr%list_elem_of_In & Hst%String.eqb_eq).
      eapply Forall_forall in Hruns; [|exact Hr]. done. }
  split_and!; [| |exact Hsame]; cycle 1.
  { unfold interval. destruct (hasRunningOps runningOps runningRuns).
    - split; [discriminate|]. intros H. apply Hslow in H. discriminate.
    - split; [intros _; by apply Hslow | done]. }
  intros s Hs. rewrite Hsame. unfold interval.
  destruct (hasRunningOps runningOps runningRuns); [done|].
  destruct (proj1 Hslow eq_refl) as [-> Hruns]. exfalso.
  unfold isStageRunning, Object_keys in Hs. rewrite map_to_list_empty in Hs.
  simpl in Hs. destruct (runs_loop _ _) eqn:Hloop; [|discriminate].
  apply runs_loop_spec in Hloop. apply Hloop.
  clear -Hruns. induction Hruns as [|r runs Hr _ IH]; [done|]. simpl.
  apply String.eqb_neq in Hr. by rewrite Hr.
Qed.

End Counts.

Lemma loadStatus_expands_first_running_witness :
  handleRunStage_expands None crawl
    ({["discovery" := tt; "crawl" := tt]} : gmap string unit) [] = discovery /\
  handleRunStage_expands (Some enrich) crawl
    ({["discovery" := tt; "crawl" := tt]} : gmap string unit) [] = crawl.
Proof.
  destruct (loadStatus_expands_first_running
              ({["discovery" := tt; "crawl" := tt]} : gmap string unit) [])
    as (_ & _ & Hshown & Hnone & _).
  split; [|exact (Hshown enrich crawl)].
  apply Hnone. right. split; [vm_compute; reflexivity|].
  exists [], [crawl; enrich; embeddings]. split; [reflexivity | constructor].
Defined.

Lemma isStageRunning_iff_operations_example :
  isStageRunning crawl ({["full_pipeline" := tt]} : gmap string unit) [] = true /\
  concurrentCount crawl ({["full_pipeline" := tt]} : gmap string unit) [] = 0%nat.
Proof. split; vm_compute; reflexivity. Qed.

End PipelineStatusFacts.

(** ** More facts about the tables of the hunt migration *)

Module JobsKeysFacts.
Import Pgvector Jobs JobsKeys ListFacts.

Lemma collides_id new old : collides new old = false -> id new <> id old.
Proof.
  unfold collides. intros H Heq. apply orb_false_elim in H as [H _].
  apply N.eqb_neq in H. done.
Qed.

Lemma collides_company_url new old p :
  collides new old = false -> company_url new = Some p -> company_url old <> Some p.
Proof.
  unfold collides, company_url. intros H Hnew Hold.
  apply orb_false_elim in H as [_ H].
  destruct (company_id new) as [c|], (company_id old) as [c'|]; try discriminate.
  injection Hnew as <-. injection Hold as -> Hurl. simpl in H.
  by rewrite N.eqb_refl, Hurl, String.eqb_refl in H.
Qed.

Lemma existsb_collides_false new (others : table) old :
  existsb (collides new) others = false -> old ∈ others -> collides new old = false.
Proof.
  intros Hnone Hold. destruct (collides new old) eqn:Hc; [|done].
  assert (existsb (collides new) others = true); [|congruence].
  apply existsb_exists. exists old. split; [by apply list_elem_of_In | done].
Qed.

Lemma omap_fmap_same {K} (f : row -> option K) (g : row -> row) (t : table) :
  (forall r, f (g r) = f r) -> omap f (g <$> t) = omap f t.
Proof.
  intros Hg. induction t as [|r t IH]; [done|].
  change (r :: t) with ([r] ++ t). rewrite fmap_app, !omap_app, IH. f_equal.
  simpl. by rewrite Hg.
Qed.

(** A key that colliding rows cannot share, and that the trigger and
    the clearing of a raw job leave alone, occurs in at most one row
    of every state of the table. *)
Lemma reachable_key_unique {K} (f : row -> option K) :
  (forall new old p, collides new old = false -> f new = Some p -> f old <> Some p) ->
  (forall now r, f (update_updated_at_column now r) = f r) ->
  (forall now r, f (clear_raw_job now r) = f r) ->
  forall W t, reachable_with W t -> NoDup (omap f t).
Proof.
  intros Hcollide Htrigger Hclear W t.
  assert (Hfresh : forall new (others : table),
            existsb (collides new) others = false -> NoDup (omap f others) ->
            NoDup (omap f [new] ++ omap f others)).
  { intros new others Hnone Hnd. simpl. destruct (f new) as [p|] eqn:Hp; [|done].
    simpl. apply NoDup_cons. split; [|done].
    intros (old & Hold & Hq)%list_elem_of_omap.
    by apply (Hcollide new old p (existsb_collides_false _ _ _ Hnone Hold) Hp). }
  induction 1 as
    [ | t companies raw_jobs new t' _ IH HW Hrun
      | t now companies raw_jobs i new t' _ IH HW Hrun
      | t i _ IH | t c _ IH | t now x _ IH ].
  - constructor.
  - unfold insert in Hrun.
    destruct (check_row companies raw_jobs t new) as [r|] eqn:Hadm; [|discriminate].
    injection Hrun as <-.
    apply JobsFacts.jobs_check_row_Ok in Hadm as (-> & _ & _ & _ & Hnone).
    rewrite omap_app, (comm (++)). by apply Hfresh.
  - unfold update in Hrun.
    destruct (list_find _ t) as [[k old]|] eqn:Hfind; [|by injection Hrun as <-].
    destruct (check_row _ _ _ _) as [r|] eqn:Hadm; [|discriminate].
    injection Hrun as <-.
    apply JobsFacts.jobs_check_row_Ok in Hadm as (-> & _ & _ & _ & Hnone).
    apply list_find_Some in Hfind as (Hk & _).
    destruct (split_at t k old Hk) as (l1 & l2 & -> & -> & Hdel).
    rewrite Hdel in Hnone. rewrite omap_middle in IH |- *.
    apply NoDup_app in IH as (_ & _ & IH). by apply Hfresh.
  - by apply NoDup_omap_filter.
  - by apply NoDup_omap_filter.
  - unfold on_raw_job_deleted. rewrite omap_fmap_same; [done|].
    intros r. destruct (decide _); [apply Hclear | done].
Qed.

(** X19. In every state of the jobs table no id occurs twice, and
    among the jobs that name a company no pair of a company and a
    source URL occurs twice. *)
Theorem jobs_keys_unique (W : row -> Prop) (t : table) :
  reachable_with W t -> keys_unique t.
Proof.
  intros Hreach. split.
  - assert (Hid : id <$> t = omap (fun r => Some (id r)) t).
    { clear. induction t as [|r t IH]; [done|]. rewrite fmap_cons. simpl. by rewrite IH. }
    rewrite Hid. apply (reachable_key_unique (fun r => Some (id r))) with (W := W).
    + intros new old p Hc [= <-] [= Heq]. by apply (collides_id new old).
    + done.
    + done.
    + done.
  - apply (reachable_key_unique company_url) with (W := W).
    + apply collides_company_url.
    + done.
    + done.
    + done.
Qed.

Lemma jobs_keys_unique_witness :
  keys_unique Samples.catalogue.
Proof.
  apply (jobs_keys_unique (fun _ => True)).
  assert (Hstep : forall (t : table) new,
             reachable_with (fun _ => True) t ->
             insert [1%N; 2%N] [] new t = Ok (t ++ [new]) ->
             reachable_with (fun _ => True) (t ++ [new])).
  { intros t new Ht Hins. exact (reach_insert _ t [1%N; 2%N] [] new _ Ht I Hins). }
  unfold Samples.catalogue.
  apply (Hstep [_; _; _; _]); [|vm_compute; reflexivity].
  apply (Hstep [_; _; _]); [|vm_compute; reflexivity].
  apply (Hstep [_; _]); [|vm_compute; reflexivity].
  apply (Hstep [_]); [|vm_compute; reflexivity].
  apply (Hstep []); [|vm_compute; reflexivity].
  apply reach_empty.
Defined.

End JobsKeysFacts.

(** ** The keys of the candidate profiles table *)

Module CandidateProfilesKeysFacts.
Import Pgvector CandidateProfiles ListFacts.

Lemma profiles_check_row_fresh waitlist others new r :
  check_row waitlist others new = Ok r ->
  r = new /\ existsb (collides new) others = false.
Proof.
  unfold check_row, coerce_vector.
  destruct (embedding new) as [v|]; simpl.
  - destruct (vector_dims v =? EMBEDDING_DIM); simpl; [|discriminate].
    repeat (destruct (negb _); simpl; [discriminate|]).
    destruct (existsb _ _); simpl; [discriminate|].
    destruct (negb _); simpl; [discriminate|].
    by intros [= <-].
  - repeat (destruct (negb _); simpl; [discriminate|]).
    destruct (existsb _ _); simpl; [discriminate|].
    destruct (negb _); simpl; [discriminate|].
    by intros [= <-].
Qed.

Lemma NoDup_omap_cleared {K} (f : row -> option K) (g : row -> row) (t : table) :
  (forall r, f (g r) = f r \/ f (g r) = None) ->
  NoDup (omap f t) -> NoDup (omap f (g <$> t)).
Proof.
  intros Hg. induction t as [|r t IH]; [done|].
  assert (Hsub : forall y, y ∈ omap f (g <$> t) -> y ∈ omap f t).
  { intros y (z' & (z & -> & Hz)%list_elem_of_fmap & Hy)%list_elem_of_omap.
    apply list_elem_of_omap. exists z. split; [done|].
    destruct (Hg z) as [<-|Hnone]; [done | congruence]. }
  change (r :: t) with ([r] ++ t). rewrite fmap_app, !omap_app. simpl.
  destruct (Hg r) as [Hr|Hr]; rewrite Hr.
  - destruct (f r) as [y|]; simpl; [|exact IH].
    intros [Hy Hnd]%NoDup_cons. apply NoDup_cons. split; auto.
  - destruct (f r) as [y|]; simpl; [|exact IH].
    intros [_ Hnd]%NoDup_cons. auto.
Qed.

(** A key that colliding rows cannot share, that the trigger leaves
    alone and that the clearing of a waitlist link leaves alone or
    turns into NULL, occurs in at most one row of every state of the
    table. *)
Lemma profiles_key_unique {K} (f : row -> option K) :
  (forall new old p, collides new old = false -> f new = Some p -> f old <> Some p) ->
  (forall now r, f (update_updated_at_column now r) = f r) ->
  (forall now r, f (clear_waitlist now r) = f r \/ f (clear_waitlist now r) = None) ->
  forall t, reachable t -> NoDup (omap f t).
Proof.
  intros Hcollide Htrigger Hclear t.
  assert (Hfresh : forall new (others : table),
            existsb (collides new) others = false -> NoDup (omap f others) ->
            NoDup (omap f [new] ++ omap f others)).
  { intros new others Hnone Hnd. simpl. destruct (f new) as [p|] eqn:Hp; [|done].
    simpl. apply NoDup_cons. split; [|done].
    intros (old & Hold & Hq)%list_elem_of_omap.
    apply (Hcollide new old p); [|done..].
    destruct (collides new old) eqn:Hc; [|done].
    assert (existsb (collides new) others = true); [|congruence].
    apply existsb_exists. exists old. split; [by apply list_elem_of_In | done]. }
  induction 1 as
    [ | t waitlist new t' _ IH Hrun
      | t now waitlist i new t' _ IH Hrun
      | t i _ IH | t now w _ IH ].
  - constructor.
  - unfold insert in Hrun.
    destruct (check_row waitlist t new) as [r|] eqn:Hadm; [|discriminate].
    injection Hrun as <-. apply profiles_check_row_fresh in Hadm as [-> Hnone].
    rewrite omap_app, (comm (++)). by apply Hfresh.
  - unfold update in Hrun.
    destruct (list_find _ t) as [[k old]|] eqn:Hfind; [|by injection Hrun as <-].
    destruct (check_row _ _ _) as [r|] eqn:Hadm; [|discriminate].
    injection Hrun as <-. apply profiles_check_row_fresh in Hadm as [-> Hnone].
    apply list_find_Some in Hfind as (Hk & _).
    destruct (split_at t k old Hk) as (l1 & l2 & -> & -> & Hdel).
    rewrite Hdel in Hnone. rewrite omap_middle in IH |- *.
    apply NoDup_app in IH as (_ & _ & IH). by apply Hfresh.
  - by apply NoDup_omap_filter.
  - unfold on_waitlist_deleted. apply NoDup_omap_cleared; [|done].
    intros r. destruct (decide _); [apply Hclear | by left].
Qed.

Lemma fmap_as_omap {A B} (f : A -> B) (l : list A) :
  f <$> l = omap (fun x => Some (f x)) l.
Proof.
  induction l as [|x l IH]; [done|].
  change (x :: l) with ([x] ++ l). rewrite fmap_app, omap_app, IH. done.
Qed.

(** X20. In every state of the candidate profiles table no id and no
    email occurs twice, and no waitlist entry is linked to two
    profiles. *)
Theorem profiles_keys_unique (t : table) :
  reachable t ->
  NoDup (id <$> t) /\ NoDup (email <$> t) /\ NoDup (omap waitlist_id t).
Proof.
  intros Hreach. unfold collides in *. split_and!.
  - rewrite fmap_as_omap. apply (profiles_key_unique (fun r => Some (id r))); try done.
    + intros new old p Hc [= <-] [= Heq]. unfold collides in Hc.
      apply orb_false_elim in Hc as [Hc _]. apply orb_false_elim in Hc as [Hc _].
      apply N.eqb_neq in Hc. done.
    + intros now r. by left.
  - rewrite fmap_as_omap. apply (profiles_key_unique (fun r => Some (email r))); try done.
    + intros new old p Hc [= <-] [= Heq]. unfold collides in Hc.
      apply orb_false_elim in Hc as [_ Hc]. apply String.eqb_neq in Hc. done.
    + intros now r. by left.
  - apply (profiles_key_unique waitlist_id); try done.
    + intros new old p Hc Hnew Hold. unfold collides in Hc.
      apply orb_false_elim in Hc as [Hc _]. apply orb_false_elim in Hc as [_ Hc].
      rewrite Hnew, Hold in Hc. simpl in Hc. by rewrite N.eqb_refl in Hc.
    + intros now r. by right.
Qed.

Lemma profiles_keys_unique_witness :
  NoDup (id <$> Samples.two_profiles) /\
  NoDup (email <$> Samples.two_profiles) /\
  NoDup (omap waitlist_id Samples.two_profiles).
Proof.
  apply (profiles_keys_unique Samples.two_profiles).
  apply reach_insert with (t := [Samples.profile_of 1%N (Some 1%N) "ada@example.org"])
                          (waitlist := [1%N; 2%N])
                          (new := Samples.profile_of 2%N (Some 2%N) "grace@example.org");
    [|vm_compute; reflexivity].
  apply reach_insert with (t := []) (waitlist := [1%N; 2%N])
                          (new := Samples.profile_of 1%N (Some 1%N) "ada@example.org");
    [apply reach_empty | vm_compute; reflexivity].
Defined.

End CandidateProfilesKeysFacts.

(** ** CHECK constraints that list NULL *)

Module ChecksFacts.

Lemma tv_in_listed (x : string) (vs : list string) :
  tv_in String.eqb (Some x) (Some <$> vs) = Some (existsb (String.eqb x) vs).
Proof.
  induction vs as [|v vs IH]; [done|]. rewrite fmap_cons. simpl. rewrite IH.
  by destruct (String.eqb x v), (existsb _ vs).
Qed.

(** X21. A CHECK of the form [col IN (..., NULL)] constrains nothing:
    the seniority, the location type and the employment type of a job,
    the seniority of a candidate profile and the ATS type of a company
    pass their CHECK with any value whatever. The role family of a
    job, whose list has no NULL, passes only with one of the values
    listed. *)
Theorem checks_listing_null_constrain_nothing :
  (forall r : Jobs.row,
     check_passes (Jobs.seniority_check r) = true /\
     check_passes (Jobs.location_type_check r) = true /\
     check_passes (Jobs.employment_type_check r) = true) /\
  (forall r : CandidateProfiles.row,
     check_passes (CandidateProfiles.seniority_check r) = true) /\
  (forall r : Companies.row, check_passes (Companies.ats_type_check r) = true) /\
  (forall r : Jobs.row,
     check_passes (Jobs.role_family_check r) = true <->
     Some (Jobs.role_family r) ∈ Jobs.role_family_values).
Proof.
  assert (Hnull : forall (x : option string) vs,
            check_passes (tv_in String.eqb x (vs ++ [None])) = true).
  { intros x vs.
    pose proof (CompaniesFacts.tv_in_null_listed String.eqb x (vs ++ [None])) as H.
    destruct (tv_in _ _ _) as [[|]|]; try done.
    exfalso. apply H; [|done]. apply elem_of_app. right. apply list_elem_of_here. }
  split_and!.
  - intros r. split_and!; apply Hnull.
  - intros r. apply Hnull.
  - intros r. apply Hnull.
  - intros r. unfold Jobs.role_family_check, Jobs.role_family_values.
    rewrite tv_in_listed.
    assert (Hpass : forall b, check_passes (Some b) = b) by (by intros []).
    rewrite Hpass.
    rewrite list_elem_of_fmap. split.
    + intros Hex. apply existsb_exists in Hex as (v & Hv & Heq).
      apply String.eqb_eq in Heq as <-. exists (Jobs.role_family r).
      split; [done | by apply list_elem_of_In].
    + intros (v & [= <-] & Hv). apply existsb_exists. exists (Jobs.role_family r).
      split; [by apply list_elem_of_In | apply String.eqb_refl].
Qed.

End ChecksFacts.

(** ** More facts about [find_similar_jobs] *)

Module SimilarityMoreFacts.
Import Pgvector Jobs HuntFunctions ListFacts.

Section Similarity.
Variable cosine_distance : vector -> vector -> float8.
Variable probed : option vector -> table -> row -> bool.

#[local] Instance by_distance_transitive : Transitive by_distance.
Proof. intros a b c. unfold by_distance. apply SimilarityFacts.float8_le_trans. Qed.

#[local] Instance by_distance_connex : Total by_distance.
Proof. intros a b. unfold by_distance. apply SimilarityFacts.float8_le_total. Qed.


(** X23. Without a limit [find_similar_jobs] returns exactly the jobs
    that the plan gets to see, that are active, have an embedding and
    pass the comparison with the threshold, each with one minus its
    distance to the target. The comparison is the server's, which a
    similarity that is NaN passes. *)
Theorem find_similar_jobs_without_limit (jobs : table) target min_similarity rows :
  find_similar_jobs cosine_distance probed jobs target None min_similarity = Ok rows ->
  forall job_id similarity,
    (job_id, similarity) ∈ rows <->
    exists j e tg m,
      j ∈ jobs /\ probed target jobs j = true /\ id j = job_id /\
      is_active j = Some true /\
      embedding j = Some e /\ target = Some tg /\
      similarity = float8_mi (Finite 1) (cosine_distance e tg) /\
      min_similarity = Some m /\ float8_ge similarity m = true.
Proof.
  intros Hrun job_id similarity. split.
  - intros Hin.
    by apply (SimilarityFacts.find_similar_jobs_rows cosine_distance probed
                _ _ _ _ _ Hrun).
  - intros (j & e & tg & m & Hj & Hprobed & <- & Hact & He & Htg & -> & Hm & Hge).
    by apply (SimilarityFacts.find_similar_jobs_complete cosine_distance probed
                jobs target min_similarity rows j e tg m).
Qed.

Lemma scan_nothing (jobs : table) target min_similarity :
  Forall (fun j => scan_job cosine_distance target min_similarity j = Ok None) jobs ->
  forall limit_count, (forall n, limit_count = Some n -> 0 <= n) ->
  find_similar_jobs cosine_distance probed jobs target limit_count min_similarity
    = Ok [].
Proof.
  intros Hall limit_count Hlim. unfold find_similar_jobs.
  assert (Hcount : exists count, row_count limit_count = Ok count).
  { unfold row_count. destruct limit_count as [n|]; [|eauto].
    specialize (Hlim n eq_refl). destruct (n <? 0) eqn:Hn; [lia | eauto]. }
  destruct Hcount as [count ->]. simpl.
  destruct (bool_decide (count = Some 0%nat)); [done|].
  assert (Hseen : Forall (fun j => scan_job cosine_distance target min_similarity j
                                   = Ok None)
                         (examined probed target jobs)).
  { apply Forall_forall. intros j [Hj _]%SimilarityFacts.examined_spec.
    eapply Forall_forall in Hall; [exact Hall | exact Hj]. }
  assert (Hscan : for_each (scan_job cosine_distance target min_similarity)
                           (examined probed target jobs)
                  = Ok ((fun _ => None) <$> examined probed target jobs)).
  { induction Hseen as [|j seen Hj _ IH]; [done|]. simpl. by rewrite Hj, IH. }
  rewrite Hscan. simpl.
  assert (Hempty : forall l : table,
             omap (fun h => h) ((fun _ : row => @None (row * float8)) <$> l) = []).
  { clear. intros l. by induction l. }
  rewrite Hempty.
  change (order_by by_distance (@nil (row * float8))) with (@nil (row * float8)).
  destruct count as [k|]; simpl; [by rewrite take_nil | done].
Qed.

(** X24. A NULL target or a NULL threshold makes [find_similar_jobs]
    return no row at all: the comparison with the threshold is then not
    TRUE of any job. *)
Theorem find_similar_jobs_null_arguments (jobs : table) limit_count :
  (forall n, limit_count = Some n -> 0 <= n) ->
  (forall min_similarity,
     find_similar_jobs cosine_distance probed jobs None limit_count min_similarity
       = Ok []) /\
  (forall tg,
     (forall j e, j ∈ jobs -> embedding j = Some e -> vector_dims e = vector_dims tg) ->
     find_similar_jobs cosine_distance probed jobs (Some tg) limit_count None = Ok []).
Proof.
  intros Hlim. split.
  - intros min_similarity. apply scan_nothing; [|done].
    apply Forall_forall. intros j _. unfold scan_job.
    destruct (negb _); [done|]. destruct (negb _); [done|].
    unfold cosine_distance_op. by destruct (embedding j).
  - intros tg Hdims. apply scan_nothing; [|done].
    apply Forall_forall. intros j Hj. unfold scan_job.
    destruct (negb _); [done|]. destruct (negb _); [done|].
    unfold cosine_distance_op. destruct (embedding j) as [e|] eqn:He; [|done].
    rewrite (Hdims j e Hj He), Z.eqb_refl. done.
Qed.


End Similarity.


Lemma find_similar_jobs_without_limit_witness :
  find_similar_jobs Samples.unit_cosine_distance Samples.misses_second_job
                    Samples.plane_jobs (Some (Samples.in_plane 1 0)) None
                    (Some (Finite (1 # 2)))
    = Ok [(5%N, Finite 1)] /\
  (5%N, float8_mi (Finite 1)
          (Samples.unit_cosine_distance (Samples.in_plane 1 0) (Samples.in_plane 1 0)))
    ∈ [(5%N, Finite 1)].
Proof.
  assert (Hrun : find_similar_jobs Samples.unit_cosine_distance
                   Samples.misses_second_job Samples.plane_jobs
                   (Some (Samples.in_plane 1 0)) None (Some (Finite (1 # 2)))
                 = Ok [(5%N, Finite 1)])
    by (vm_compute; reflexivity).
  split; [exact Hrun|].
  apply (find_similar_jobs_without_limit Samples.unit_cosine_distance
           Samples.misses_second_job Samples.plane_jobs
           (Some (Samples.in_plane 1 0)) (Some (Finite (1 # 2)))
           [(5%N, Finite 1)] Hrun).
  exists (Samples.job_with 5%N (Some true) (Some (Samples.in_plane 1 0))),
         (Samples.in_plane 1 0), (Samples.in_plane 1 0), (Finite (1 # 2)).
  split_and!; try reflexivity.
  do 4 apply list_elem_of_further. apply list_elem_of_here.
Defined.

Lemma find_similar_jobs_null_arguments_witness :
  find_similar_jobs Samples.unit_cosine_distance sequential_scan Samples.plane_jobs
    None (Some 10) (Some (Finite (1 # 2))) = Ok [].
Proof.
  apply (find_similar_jobs_null_arguments Samples.unit_cosine_distance sequential_scan
           Samples.plane_jobs (Some 10)).
  intros n [= <-]. lia.
Defined.


End SimilarityMoreFacts.

(** ** More facts about the waitlist and its form *)

Module WaitlistMoreFacts.
Import Waitlist WaitlistForm.

(** X28. What a submission does, in full. When the client may read the
    new row back, the generated id is free and the email is not on the
    waitlist, the table gains one row with the name and the email
    entered, [onSuccess] is called once with its id, and no error is
    shown. In every other case the table stays as it was, [onSuccess]
    is not called, and a message is shown: the generic one when the
    row may not be read back, and otherwise the one for a duplicate
    email, also when it is the generated id that was taken. Either
    way the form is no longer loading and keeps what was entered. *)
Theorem handleSubmit_outcome can_read_back gen_id now (t : table) (f : form) :
  let t' := (handleSubmit can_read_back gen_id now t f).1 in
  let f' := (handleSubmit can_read_back gen_id now t f).2 in
  isLoading f' = false /\ name_input f' = name_input f /\
  email_input f' = email_input f /\
  if can_read_back && negb (has_id t gen_id) && negb (has_email t (email_input f))
  then t' = t ++ [{| id := gen_id; name := name_input f; email := email_input f;
                     created_at := Some now |}] /\
       onSuccess_calls f' = onSuccess_calls f ++ [gen_id] /\
       error_message f' = ""%string
  else t' = t /\ onSuccess_calls f' = onSuccess_calls f /\
       error_message f' = if can_read_back then msg_duplicate else msg_generic.
Proof.
  unfold handleSubmit, insert.
  cbn [name_input email_input setIsLoading setError negb].
  destruct can_read_back; simpl; [|done].
  destruct (has_id t gen_id); simpl; [done|].
  destruct (has_email t (email_input f)); simpl; done.
Qed.

(** X29. The waitlist never holds an id or an email twice: a
    submission to a table whose ids and emails are unique leaves them
    unique, whether it stores a row or not. *)
Theorem waitlist_keys_stay_unique can_read_back gen_id now (t : table) (f : form) :
  keys_unique t ->
  keys_unique (handleSubmit can_read_back gen_id now t f).1.
Proof.
  intros Hkeys. unfold handleSubmit. cbn [fst].
  apply WaitlistFacts.insert_keeps_keys_unique, Hkeys.
Qed.

Lemma waitlist_keys_stay_unique_witness :
  keys_unique (handleSubmit true 2%N 10 [Samples.ada] Samples.ada_again).1.
Proof.
  apply waitlist_keys_stay_unique.
  split; apply NoDup_singleton.
Defined.

End WaitlistMoreFacts.
